(** * SparklyRG: a sponge-based pseudo-random generator on SPARKLE512

    Shallow embedding of [sparklyRG/sparkle512.hpp], [sparklyRG/sparkle512.cpp],
    of the Cython wrapper [SparkleRG] of [cpputils.pyx], of [EschRG._absorb_block]
    and of the two older permutation files ([sparkle_512_permutation] and
    [Sparkle512EDF]).

    Conventions.
    - [uint32_t], [uint64_t], [unsigned int] and [int] values are integers of [Z];
      every operation that wraps in C++ has its reduction written out.
    - [std::array<uint32_t,16>] and [std::vector<bool>] are lists, read with
      [!!]/[!!!] and written with [<[_:=_]>].  Where the source indexes with a
      value computed from its input, the access is checked and a miss is
      [Undefined] (C++ gives it no meaning); where the index is bounded by a
      constant of the source the access is the total one.
    - a method is a function from the generator to an [outcome]. *)

From Stdlib Require Import ZArith Lia Bool Strings.Byte.
From stdpp Require Import base list numbers strings.

Local Open Scope Z_scope.

(** ** Machine integers *)

Definition u32 (z : Z) : Z := z mod 2 ^ 32.
Definition u64 (z : Z) : Z := z mod 2 ^ 64.

(** [#define ROT(x, n) (((x) >> (n)) | ((x) << (32-(n))))] on [uint32_t]. *)
Definition ROT (x n : Z) : Z :=
  Z.lor (Z.shiftr x n) (u32 (Z.shiftl x (32 - n))).

(** [#define ELL(x) (ROT(((x) ^ ((x) << 16)), 16))] *)
Definition ELL (x : Z) : Z :=
  ROT (Z.lxor x (u32 (Z.shiftl x 16))) 16.

(** [static const uint32_t RCON[N_BRANCHES]] *)
Definition RCON : list Z :=
  [ 0xB7E15162; 0xBF715880; 0x38B4DA56; 0x324E7738;
    0xBB1185EB; 0x4F7C7B57; 0xCFBFA1C8; 0xC2B3293D ].

(** ** Statements on the state array

    [state[j] += v], [state[j] ^= v] and [state[j] = v]. *)

Definition add_at (j : nat) (v : Z) (state : list Z) : list Z :=
  <[j := u32 (state !!! j + v)]> state.

Definition xor_at (j : nat) (v : Z) (state : list Z) : list Z :=
  <[j := Z.lxor (state !!! j) v]> state.

Definition set_at (j : nat) (v : Z) (state : list Z) : list Z :=
  <[j := v]> state.

(** [for (j = start; j < stop; j += step) body] with a state of type [S].
    [count] is the number of iterations still allowed; [for_range] gives the
    loop exactly as many as it makes. *)
Fixpoint for_from {S : Type} (count j stop step : nat)
    (body : nat -> S -> S) (s : S) : S :=
  match count with
  | O => s
  | Datatypes.S count' =>
      if (j <? stop)%nat
      then for_from count' (j + step) stop step body (body j s)
      else s
  end.

Definition for_range {S : Type} (start stop step : nat)
    (body : nat -> S -> S) (s : S) : S :=
  for_from (stop - start) start stop step body s.

(** The body of the ARXBOX loop, the same twelve statements in the three
    files. *)
Definition arxbox (j : nat) (state : list Z) : list Z :=
  let rc := RCON !!! (j / 2)%nat in
  let state := add_at j (ROT (state !!! (j + 1)%nat) 31) state in
  let state := xor_at (j + 1) (ROT (state !!! j) 24) state in
  let state := xor_at j rc state in
  let state := add_at j (ROT (state !!! (j + 1)%nat) 17) state in
  let state := xor_at (j + 1) (ROT (state !!! j) 17) state in
  let state := xor_at j rc state in
  let state := add_at j (state !!! (j + 1)%nat) state in
  let state := xor_at (j + 1) (ROT (state !!! j) 31) state in
  let state := xor_at j rc state in
  let state := add_at j (ROT (state !!! (j + 1)%nat) 24) state in
  let state := xor_at (j + 1) (ROT (state !!! j) 16) state in
  xor_at j rc state.

(** The same loop with a body that may have no defined behaviour. *)
Fixpoint for_from_opt {S : Type} (count j stop step : nat)
    (body : nat -> S -> option S) (s : S) : option S :=
  match count with
  | O => Some s
  | Datatypes.S count' =>
      if (j <? stop)%nat
      then s' ← body j s; for_from_opt count' (j + step) stop step body s'
      else Some s
  end.

Definition for_range_opt {S : Type} (start stop step : nat)
    (body : nat -> S -> option S) (s : S) : option S :=
  for_from_opt (stop - start) start stop step body s.

(** ** Outcomes of a method call

    [Ok a g]: the call returns [a] and leaves the object as [g].
    [Raise e g]: a Python exception leaves the wrapper, the object being [g].
    [Undefined]: the call reaches an operation to which C++ gives no meaning
    (an index past the end of a container, a shift of an [int] by 32 or
    more, [__builtin_clzll(0)]).
    [Timeout]: the loop is still running when the fuel is spent. *)

Inductive exn : Type :=
| Exception (msg : string)
| OverflowError
| UnicodeEncodeError.

Inductive outcome (G A : Type) : Type :=
| Ok (a : A) (g : G)
| Raise (e : exn) (g : G)
| Undefined
| Timeout.

Arguments Ok {G A} a g.
Arguments Raise {G A} e g.
Arguments Undefined {G A}.
Arguments Timeout {G A}.

Definition bind {G A B : Type} (r : outcome G A) (k : A -> G -> outcome G B)
  : outcome G B :=
  match r with
  | Ok a g => k a g
  | Raise e g => Raise e g
  | Undefined => Undefined
  | Timeout => Timeout
  end.

(** A block of C++ statements on the object: defined or not. *)
Definition defined {G : Type} (o : option G) : outcome G unit :=
  match o with
  | Some g => Ok tt g
  | None => Undefined
  end.

(** [__builtin_parityll(x)]: the number of 1-bits of the 64-bit [x], modulo 2. *)
Fixpoint parity_below (n : nat) (x : Z) : bool :=
  match n with
  | O => false
  | Datatypes.S n' => xorb (Z.testbit x (Z.of_nat n')) (parity_below n' x)
  end.

Definition __builtin_parityll (x : Z) : bool := parity_below 64 x.

(** [__builtin_clzll(x)]: the number of leading 0-bits of the 64-bit [x],
    starting at the most significant bit; undefined at 0. *)
Fixpoint leading_zeros (n : nat) (x : Z) : Z :=
  match n with
  | O => 0
  | Datatypes.S n' =>
      if Z.testbit x (Z.of_nat n') then 0 else 1 + leading_zeros n' x
  end.

Definition __builtin_clzll (x : Z) : option Z :=
  if x =? 0 then None else Some (leading_zeros 64 x).

(** [1 << i] where [1] is an [int] and [i] an [unsigned int], as g++
    (-std=c++17) gives it: [1 << 31] is [INT_MIN]; from 32 on the shift has no
    defined value. *)
Definition int_one_shl (i : nat) : option Z :=
  if (i <? 31)%nat then Some (2 ^ Z.of_nat i)
  else if (i =? 31)%nat then Some (- 2 ^ 31)
  else None.

(** ** sparklyRG/sparkle512.hpp and sparkle512.cpp *)

Module Sparkle512core.

Definition N_BRANCHES : nat := 8.

(** The attributes of the class. *)
Record t : Type := Build {
  steps : Z;                   (* unsigned int *)
  state : list Z;              (* std::array<uint32_t, 2*N_BRANCHES> *)
  entropy_tank : list bool;    (* std::vector<bool> *)
  entropy_cursor : nat         (* unsigned int *)
}.

(** One pass of the [for(i = 0; i < steps; i ++)] loop of [_permute], [i]
    being an [unsigned int]. *)
Definition round (i : nat) (state : list Z) : list Z :=
  (* Add round constant *)
  let state := xor_at 1 (RCON !!! (i mod N_BRANCHES)%nat) state in
  let state := xor_at 3 (u32 (Z.of_nat i)) state in
  (* ARXBOX layer *)
  let state := for_range 0 (2 * N_BRANCHES) 2 arxbox state in
  (* Linear layer *)
  let x0 := state !!! 0%nat in
  let y0 := state !!! 1%nat in
  let '(tmpx, tmpy) :=
    for_range 2 N_BRANCHES 2
      (fun j '(tmpx, tmpy) =>
         (Z.lxor tmpx (state !!! j), Z.lxor tmpy (state !!! (j + 1)%nat)))
      (x0, y0) in
  let tmpx := ELL tmpx in
  let tmpy := ELL tmpy in
  let state :=
    for_range 2 N_BRANCHES 2
      (fun j state =>
         let state :=
           set_at (j - 2)
             (Z.lxor (Z.lxor (state !!! (j + N_BRANCHES)%nat) (state !!! j)) tmpy)
             state in
         let state := set_at (j + N_BRANCHES) (state !!! j) state in
         let state :=
           set_at (j - 1)
             (Z.lxor (Z.lxor (state !!! (j + N_BRANCHES + 1)%nat)
                             (state !!! (j + 1)%nat)) tmpx)
             state in
         set_at (j + N_BRANCHES + 1) (state !!! (j + 1)%nat) state)
      state in
  let state :=
    set_at (N_BRANCHES - 2)
      (Z.lxor (Z.lxor (state !!! N_BRANCHES) x0) tmpy) state in
  let state := set_at N_BRANCHES x0 state in
  let state :=
    set_at (N_BRANCHES - 1)
      (Z.lxor (Z.lxor (state !!! (N_BRANCHES + 1)%nat) y0) tmpx) state in
  set_at (N_BRANCHES + 1) y0 state.

(** [for(i = 0; i < steps; i ++)] *)
Definition rounds (steps : Z) (state : list Z) : list Z :=
  for_range 0 (Z.to_nat steps) 1 round state.

(** [void Sparkle512core::_permute()] *)
Definition _permute (g : t) : t :=
  Build (steps g) (rounds (steps g) (state g))
        (entropy_tank g) (entropy_cursor g).

(** [Sparkle512core::Sparkle512core()] *)
Definition new : t := Build 0 (replicate 16 0) [] 0.

(** [void Sparkle512core::setup(_steps, _output_rate)] *)
Definition setup (_steps : Z) (_output_rate : nat) (g : t) : outcome t unit :=
  Ok tt (Build _steps (state g) (replicate _output_rate false)
               (entropy_cursor g)).

(** The loops of [_squeeze] on the tank. *)
Definition squeeze_loop (state : list Z) (tank : list bool)
  : option (list bool) :=
  for_range_opt 0 (length tank) 32
    (fun i tank =>
       let k := (i / 32)%nat in
       tmp ← state !! k;
       for_range_opt 0 32 1
         (fun j tank =>
            w ← state !! k;
            if (i + j <? length tank)%nat
            then Some (<[(i + j)%nat :=
                           __builtin_parityll (Z.shiftr w (Z.of_nat j))]> tank)
            else None)
         tank)
    tank.

(** [void Sparkle512core::_squeeze()] *)
Definition _squeeze (g : t) : outcome t unit :=
  defined (tank ← squeeze_loop (state g) (entropy_tank g);
           Some (Build (steps g) (state g) tank 0)).

(** The loops of [absorb] on the state:
    [state[i >> 2] ^= ((uint32_t)byte_array[i + j]) << (8*j)]. *)
Definition absorb_loop (byte_array : list byte) (state : list Z)
  : option (list Z) :=
  for_range_opt 0 (length byte_array) 4
    (fun i state =>
       for_range_opt 0 4 1
         (fun j state =>
            b ← byte_array !! (i + j)%nat;
            w ← state !! (i / 4)%nat;
            Some (<[(i / 4)%nat :=
                      Z.lxor w (u32 (Z.shiftl (Z.of_N (Byte.to_N b))
                                              (8 * Z.of_nat j)))]> state))
         state)
    state.

(** [void Sparkle512core::absorb(const std::vector<uint8_t> byte_array)] *)
Definition absorb (byte_array : list byte) (g : t) : outcome t unit :=
  let state := xor_at (2 * N_BRANCHES - 1) 1 (state g) in
  match absorb_loop byte_array state with
  | None => Undefined
  | Some state =>
      let g := Build (steps g) state (entropy_tank g) (entropy_cursor g) in
      let g := _permute g in
      let g :=
        Build (steps g) (xor_at (2 * N_BRANCHES - 1) 2 (Sparkle512core.state g))
              (entropy_tank g) (entropy_cursor g) in
      let g := _permute g in
      _squeeze g
  end.

(** [if (entropy_cursor == entropy_tank.size()) { _permute(); _squeeze(); }] *)
Definition refill (g : t) : outcome t unit :=
  if (entropy_cursor g =? length (entropy_tank g))%nat
  then _squeeze (_permute g)
  else Ok tt g.

(** [entropy_cursor ++] *)
Definition advance (g : t) : t :=
  Build (steps g) (state g) (entropy_tank g) (entropy_cursor g + 1).

(** The loop of [get_n_bit_unsigned_integer]: [count] passes are left, the
    counter is [i] and the accumulator [result]. *)
Fixpoint get_bits_loop (count i : nat) (result : Z) (g : t)
  : outcome t Z :=
  match count with
  | O => Ok result g
  | Datatypes.S count' =>
      bind (refill g)
        (fun _ g =>
           match entropy_tank g !! entropy_cursor g with
           | None => Undefined
           | Some tank_bit =>
               if (tank_bit : bool)
               then match int_one_shl i with
                    | None => Undefined
                    | Some v =>
                        get_bits_loop count' (i + 1) (Z.lor result (u64 v))
                          (advance g)
                    end
               else get_bits_loop count' (i + 1) result (advance g)
           end)
  end.

(** [uint64_t Sparkle512core::get_n_bit_unsigned_integer(const unsigned int n)] *)
Definition get_n_bit_unsigned_integer (n : nat) (g : t) : outcome t Z :=
  get_bits_loop n 0 0 g.

(** The [do ... while (output >= range)] loop. *)
Fixpoint rejection_loop (fuel : nat) (bit_length : Z) (range : Z) (g : t)
  : outcome t Z :=
  match fuel with
  | O => Timeout
  | Datatypes.S fuel' =>
      bind (get_n_bit_unsigned_integer (Z.to_nat bit_length) g)
        (fun output g =>
           if range <=? output
           then rejection_loop fuel' bit_length range g
           else Ok output g)
  end.

(** [bit_length = 64 - __builtin_clzll(upper_bound - lower_bound)] *)
Definition bit_length_of (lower_bound upper_bound : Z) : option Z :=
  z ← __builtin_clzll (u64 (upper_bound - lower_bound));
  Some (u64 (64 - z)).

(** [uint64_t Sparkle512core::get_unsigned_integer_in_range(lower_bound,
    upper_bound)] *)
Definition get_unsigned_integer_in_range (fuel : nat)
    (lower_bound upper_bound : Z) (g : t) : outcome t Z :=
  match bit_length_of lower_bound upper_bound with
  | None => Undefined
  | Some bit_length =>
      let range := u64 (upper_bound - lower_bound) in
      bind (rejection_loop fuel bit_length range g)
        (fun output g => Ok (u64 (lower_bound + output)) g)
  end.

End Sparkle512core.

(** ** The standalone permutation (the [extern "C"] file)

    Its counters [i], [j] and its argument [steps] are [int]; [brans] is a
    local [uint32_t] set to 8. *)

(** [for (i = start; i < stop; i ++) body] with an [int] counter. *)
Fixpoint for_int_from {S : Type} (count : nat) (i stop : Z)
    (body : Z -> S -> S) (s : S) : S :=
  match count with
  | O => s
  | Datatypes.S count' =>
      if i <? stop
      then for_int_from count' (i + 1) stop body (body i s)
      else s
  end.

Definition for_int {S : Type} (start stop : Z)
    (body : Z -> S -> S) (s : S) : S :=
  for_int_from (Z.to_nat (stop - start)) start stop body s.

Module Standalone.

Definition MAX_BRANCHES : Z := 8.

Definition round (i : Z) (state : list Z) : list Z :=
  let brans : nat := 8%nat in
  (* Add round constant *)
  let state := xor_at 1 (RCON !!! Z.to_nat (i mod MAX_BRANCHES)) state in
  let state := xor_at 3 (u32 i) state in
  (* ARXBOX layer *)
  let state := for_range 0 (2 * brans) 2 arxbox state in
  (* Linear layer *)
  let x0 := state !!! 0%nat in
  let tmpx := x0 in
  let y0 := state !!! 1%nat in
  let tmpy := y0 in
  let '(tmpx, tmpy) :=
    for_range 2 brans 2
      (fun j '(tmpx, tmpy) =>
         (Z.lxor tmpx (state !!! j), Z.lxor tmpy (state !!! (j + 1)%nat)))
      (tmpx, tmpy) in
  let tmpx := ELL tmpx in
  let tmpy := ELL tmpy in
  let state :=
    for_range 2 brans 2
      (fun j state =>
         let state :=
           set_at (j - 2)
             (Z.lxor (Z.lxor (state !!! (j + brans)%nat) (state !!! j)) tmpy)
             state in
         let state := set_at (j + brans) (state !!! j) state in
         let state :=
           set_at (j - 1)
             (Z.lxor (Z.lxor (state !!! (j + brans + 1)%nat)
                             (state !!! (j + 1)%nat)) tmpx)
             state in
         set_at (j + brans + 1) (state !!! (j + 1)%nat) state)
      state in
  let state :=
    set_at (brans - 2) (Z.lxor (Z.lxor (state !!! brans) x0) tmpy) state in
  let state := set_at brans x0 state in
  let state :=
    set_at (brans - 1)
      (Z.lxor (Z.lxor (state !!! (brans + 1)%nat) y0) tmpx) state in
  set_at (brans + 1) y0 state.

(** [void sparkle_512_permutation(uint32_t * state, int steps)] *)
Definition sparkle_512_permutation (state : list Z) (steps : Z) : list Z :=
  for_int 0 steps round state.

End Standalone.

(** ** The class [Sparkle512EDF] (the byte-tank variant) *)

Module Sparkle512EDF.

Definition N_STEPS : Z := 4.
Definition MAX_BRANCHES : nat := 8.
Definition TANK_SIZE : nat := 48.

Record t : Type := Build {
  steps : Z;                  (* unsigned int *)
  state : list Z;             (* uint32_t state[2*MAX_BRANCHES] *)
  entropy_tank : list Z;      (* uint8_t entropy_tank[TANK_SIZE] *)
  entropy_cursor : nat        (* unsigned int *)
}.

(** [Sparkle512EDF()] *)
Definition new : t :=
  Build N_STEPS (replicate (2 * MAX_BRANCHES) 0) (replicate TANK_SIZE 0) 0.

(** One pass of the first loop of [_update_state]. *)
Definition round (i : nat) (state : list Z) : list Z :=
  let brans : nat := 8%nat in
  let state := xor_at 1 (RCON !!! (i mod MAX_BRANCHES)%nat) state in
  let state := xor_at 3 (u32 (Z.of_nat i)) state in
  let state := for_range 0 (2 * brans) 2 arxbox state in
  let x0 := state !!! 0%nat in
  let tmpx := x0 in
  let y0 := state !!! 1%nat in
  let tmpy := y0 in
  let '(tmpx, tmpy) :=
    for_range 2 brans 2
      (fun j '(tmpx, tmpy) =>
         (Z.lxor tmpx (state !!! j), Z.lxor tmpy (state !!! (j + 1)%nat)))
      (tmpx, tmpy) in
  let tmpx := ELL tmpx in
  let tmpy := ELL tmpy in
  let state :=
    for_range 2 brans 2
      (fun j state =>
         let state :=
           set_at (j - 2)
             (Z.lxor (Z.lxor (state !!! (j + brans)%nat) (state !!! j)) tmpy)
             state in
         let state := set_at (j + brans) (state !!! j) state in
         let state :=
           set_at (j - 1)
             (Z.lxor (Z.lxor (state !!! (j + brans + 1)%nat)
                             (state !!! (j + 1)%nat)) tmpx)
             state in
         set_at (j + brans + 1) (state !!! (j + 1)%nat) state)
      state in
  let state :=
    set_at (brans - 2) (Z.lxor (Z.lxor (state !!! brans) x0) tmpy) state in
  let state := set_at brans x0 state in
  let state :=
    set_at (brans - 1)
      (Z.lxor (Z.lxor (state !!! (brans + 1)%nat) y0) tmpx) state in
  set_at (brans + 1) y0 state.

(** The round loop of [_update_state]. *)
Definition round_loop (steps : Z) (state : list Z) : list Z :=
  for_range 0 (Z.to_nat steps) 1 round state.

(** The second loop of [_update_state]:
    [entropy_tank[i+j] = (state[i >> 2] >> (j*8)) & 0xFF]. *)
Definition fill_tank (state : list Z) (tank : list Z) : list Z :=
  for_range 0 TANK_SIZE 4
    (fun i tank =>
       for_range 0 4 1
         (fun j tank =>
            <[(i + j)%nat :=
                Z.land (Z.shiftr (state !!! (i / 4)%nat) (Z.of_nat j * 8)) 0xFF]>
              tank)
         tank)
    tank.

(** [void _update_state()] *)
Definition _update_state (e : t) : t :=
  let state := round_loop (steps e) (state e) in
  Build (steps e) state (fill_tank state (entropy_tank e)) 0.

(** [void absorb(const std::vector<uint8_t> byte_array)], whose loops are
    those of the core. *)
Definition absorb (byte_array : list byte) (e : t) : outcome t unit :=
  match Sparkle512core.absorb_loop byte_array (state e) with
  | None => Undefined
  | Some state =>
      Ok tt (_update_state
               (Build (steps e) state (entropy_tank e) (entropy_cursor e)))
  end.

(** [uint8_t _get_byte()] *)
Definition _get_byte (e : t) : outcome t Z :=
  let e := if (TANK_SIZE <=? entropy_cursor e)%nat then _update_state e else e in
  match entropy_tank e !! entropy_cursor e with
  | None => Undefined
  | Some result =>
      Ok result
         (Build (steps e) (state e) (entropy_tank e) (entropy_cursor e + 1))
  end.

(** [for(unsigned int i=0; i<=(n >> 3); i++) result = (result << 8) | _get_byte()] *)
Fixpoint get_bytes_loop (count : nat) (result : Z) (e : t) : outcome t Z :=
  match count with
  | O => Ok result e
  | S count' =>
      bind (_get_byte e)
        (fun b e => get_bytes_loop count' (Z.lor (u64 (Z.shiftl result 8)) b) e)
  end.

(** [uint64_t get_n_bit_unsigned_integer(const unsigned int n)]; the mask
    [((uint64_t)1 << n) - 1] has no defined value from [n = 64] on. *)
Definition get_n_bit_unsigned_integer (n : nat) (e : t) : outcome t Z :=
  if (64 <=? n)%nat then Undefined
  else
    let n_bit_mask := u64 (Z.shiftl 1 (Z.of_nat n)) - 1 in
    bind (get_bytes_loop (n / 8 + 1) 0 e)
      (fun result e => Ok (Z.land result n_bit_mask) e).

End Sparkle512EDF.


(** ** The Cython wrapper [SparkleRG] (cpputils.pyx)

    The object holds a [Sparkle512core]; its two annotated attributes only
    repeat the arguments of [__init__] and are read by [__str__] alone, so the
    object is modelled by its core.  A Python integer handed to a C++
    parameter is converted by Cython, which raises [OverflowError] when the
    value does not fit the unsigned type. *)

Definition fits_unsigned (bits : Z) (v : Z) : bool :=
  (0 <=? v) && (v <? 2 ^ bits).

Module SparkleRG.

Definition t : Type := Sparkle512core.t.

(** [def __init__(self, steps, output_rate)]: the two arguments are stored
    in attributes of type [uint64_t], which [setup] receives narrowed to
    [unsigned int]. *)
Definition __init__ (steps output_rate : Z) : outcome t unit :=
  let core := Sparkle512core.new in
  if fits_unsigned 64 steps && fits_unsigned 64 output_rate
  then Sparkle512core.setup (u32 steps) (Z.to_nat (u32 output_rate)) core
  else Raise OverflowError core.

(** [to_absorb = x + bytearray([0] * (48 - len(x)))] *)
Definition padding (x : list byte) : list byte :=
  x ++ replicate (48 - length x) x00.

(** [def absorb(self, x)] *)
Definition absorb (x : list byte) (self : t) : outcome t unit :=
  let to_absorb := padding x in
  Sparkle512core.absorb to_absorb self.

(** [def get_n_bit_unsigned_integer(self, n)] *)
Definition get_n_bit_unsigned_integer (n : Z) (self : t) : outcome t Z :=
  if 64 <? n
  then Raise (Exception "Cannot return integers more than 64-bit long") self
  else if fits_unsigned 32 n
  then Sparkle512core.get_n_bit_unsigned_integer (Z.to_nat n) self
  else Raise OverflowError self.

(** [def __call__(self, lower, upper)]; [fuel] bounds the passes of the
    rejection loop of the core. *)
Definition __call__ (fuel : nat) (lower upper : Z) (self : t) : outcome t Z :=
  if upper <=? lower
  then Raise (Exception "`upper` must be strictly higher than `lower`") self
  else if fits_unsigned 64 lower && fits_unsigned 64 upper
  then Sparkle512core.get_unsigned_integer_in_range fuel lower upper self
  else Raise OverflowError self.

End SparkleRG.

(** ** sparklyRG/wrapper.pyx, as tangled from sparklyRG.org

    The same class with the other padding: the character ["1"] then
    characters ["0"], up to 64 bytes. *)

Module Wrapper.

Definition t : Type := Sparkle512core.t.

(** [to_absorb = x + b"1" + b"0"*(63 - len(x))] *)
Definition padding (x : list byte) : list byte :=
  x ++ [x31] ++ replicate (63 - length x) x30.

(** [def absorb(self, x)] *)
Definition absorb (x : list byte) (self : t) : outcome t unit :=
  let to_absorb := padding x in
  Sparkle512core.absorb to_absorb self.

(** [def __init__(self, steps, output_rate)]: the arguments go to [setup]
    as they are, converted to [unsigned int]. *)
Definition __init__ (steps output_rate : Z) : outcome t unit :=
  let core := Sparkle512core.new in
  if fits_unsigned 32 steps && fits_unsigned 32 output_rate
  then Sparkle512core.setup steps (Z.to_nat output_rate) core
  else Raise OverflowError core.

(** [def get_n_bit_unsigned_integer(self, n)] *)
Definition get_n_bit_unsigned_integer (n : Z) (self : t) : outcome t Z :=
  if 64 <? n
  then Raise (Exception "Cannot return integers more than 64-bit long") self
  else if fits_unsigned 32 n
  then Sparkle512core.get_n_bit_unsigned_integer (Z.to_nat n) self
  else Raise OverflowError self.

(** [def __call__(self, lower, upper)] *)
Definition __call__ (fuel : nat) (lower upper : Z) (self : t) : outcome t Z :=
  if upper <=? lower
  then Raise (Exception "`upper` must be strictly higher than `lower`") self
  else if fits_unsigned 64 lower && fits_unsigned 64 upper
  then Sparkle512core.get_unsigned_integer_in_range fuel lower upper self
  else Raise OverflowError self.

End Wrapper.

(** ** [PySparkle512EDF] (cpputils.pyx) *)

Module PySparkle512EDF.

Definition t : Type := Sparkle512EDF.t.

(** [def __init__(self)] *)
Definition __init__ : t := Sparkle512EDF.new.

(** [def absorb(self, x)] *)
Definition absorb (x : list byte) (self : t) : outcome t unit :=
  let to_absorb := x ++ replicate (48 - length x) x00 in
  Sparkle512EDF.absorb to_absorb self.

(** [def get_n_bit_unsigned_integer(self, n)] *)
Definition get_n_bit_unsigned_integer (n : Z) (self : t) : outcome t Z :=
  if fits_unsigned 32 n
  then Sparkle512EDF.get_n_bit_unsigned_integer (Z.to_nat n) self
  else Raise OverflowError self.

End PySparkle512EDF.

(** ** [EschRG] (sparklyRG/__init__.py), which inherits from the wrapper *)

Module EschRG.

Record t : Type := Build {
  core : Sparkle512core.t;
  absorbed : list (list byte)
}.

(** A [str], as the list of its code points. *)
Definition str : Type := list N.

(** The objects that [_absorb_block] tells apart: a [bytes] object, a [str],
    and an object of any other type, given by the [str] that [str(x)]
    returns for it. *)
Inductive object : Type :=
| of_bytes (b : list byte)
| of_str (s : str)
| of_other (shown : str).

Definition byte_of_N (n : N) : byte := default x00 (Byte.of_N n).

(** The UTF-8 bytes of one code point; [None] is the [UnicodeEncodeError]
    that a surrogate raises (no [str] holds a code point from 0x110000 on,
    which is given the same answer). *)
Definition utf8 (c : N) : option (list byte) :=
  if (c <? 0x80)%N then Some [byte_of_N c]
  else if (c <? 0x800)%N
  then Some [byte_of_N (0xC0 + c / 0x40); byte_of_N (0x80 + c mod 0x40)]
  else if ((0xD800 <=? c) && (c <=? 0xDFFF))%N then None
  else if (c <? 0x10000)%N
  then Some [byte_of_N (0xE0 + c / 0x1000);
             byte_of_N (0x80 + (c / 0x40) mod 0x40);
             byte_of_N (0x80 + c mod 0x40)]
  else if (c <? 0x110000)%N
  then Some [byte_of_N (0xF0 + c / 0x40000);
             byte_of_N (0x80 + (c / 0x1000) mod 0x40);
             byte_of_N (0x80 + (c / 0x40) mod 0x40);
             byte_of_N (0x80 + c mod 0x40)]
  else None.

(** [s.encode("UTF-8")] *)
Fixpoint encode (s : str) : option (list byte) :=
  match s with
  | [] => Some []
  | c :: s' =>
      match utf8 c, encode s' with
      | Some b, Some bs => Some (b ++ bs)
      | _, _ => None
      end
  end.

(** The three branches of [_absorb_block] on the type of [x]. *)
Definition to_absorb_of (x : object) : option (list byte) :=
  match x with
  | of_bytes b => Some b
  | of_str s => encode s
  | of_other shown => encode shown
  end.

(** [def _absorb_block(self, x)] *)
Definition _absorb_block (x : object) (self : t) : outcome t unit :=
  match to_absorb_of x with
  | None => Raise UnicodeEncodeError self
  | Some to_absorb =>
      if (31 <? length to_absorb)%nat
      then Raise (Exception "block is too big, max length is 31 bytes") self
      else
        let absorbed := absorbed self ++ [to_absorb] in
        match Wrapper.absorb to_absorb (core self) with
        | Ok _ core => Ok tt (Build core absorbed)
        | Raise e core => Raise e (Build core absorbed)
        | Undefined => Undefined
        | Timeout => Timeout
        end
  end.

(** What [seeds] can be: a list of objects, or one object that is no
    list. *)
Inductive seeds : Type :=
| one (x : object)
| several (xs : list object).

(** [for x in blocks: self._absorb_block(x)] *)
Fixpoint absorb_blocks (blocks : list object) (self : t) : outcome t unit :=
  match blocks with
  | [] => Ok tt self
  | x :: blocks' =>
      bind (_absorb_block x self) (fun _ self => absorb_blocks blocks' self)
  end.

(** [def __init__(self, seeds, with_time=False)].  The clock is an input:
    [time_string] is [None] when [with_time] is false and otherwise holds the
    bytes of the date read, [time_string.encode("UTF-8")], a [bytes]
    object. *)
Definition __init__ (seeds : seeds) (time_string : option (list byte))
  : outcome t unit :=
  match Wrapper.__init__ 8 256 with
  | Ok _ core =>
      let self := Build core [] in
      let blocks :=
        match seeds with
        | several xs => xs
        | one x => [] ++ [x]
        end in
      let blocks :=
        match time_string with
        | Some encoded => blocks ++ [of_bytes encoded]
        | None => blocks
        end in
      absorb_blocks blocks self
  | Raise e core => Raise e (Build core [])
  | Undefined => Undefined
  | Timeout => Timeout
  end.

(** The loop of [random_permutation]: [j = self(i, v_size)] then
    [result[i], result[j] = result[j], result[i]].  An index outside the list
    is Python's [IndexError], an [Exception]. *)
Fixpoint shuffle_loop (fuel count i : nat) (v_size : Z) (result : list Z)
    (self : t) : outcome t (list Z) :=
  match count with
  | O => Ok result self
  | S count' =>
      match Wrapper.__call__ fuel (Z.of_nat i) v_size (core self) with
      | Ok j core =>
          let self := Build core (absorbed self) in
          match result !! Z.to_nat j, result !! i with
          | Some at_j, Some at_i =>
              shuffle_loop fuel count' (i + 1) v_size
                (<[Z.to_nat j := at_i]> (<[i := at_j]> result)) self
          | _, _ => Raise (Exception "list index out of range") self
          end
      | Raise e core => Raise e (Build core (absorbed self))
      | Undefined => Undefined
      | Timeout => Timeout
      end
  end.

(** [def random_permutation(self, v_size)].  [list(range(0, v_size))] raises
    [OverflowError] when the length of the range does not fit a
    [Py_ssize_t], from [2^63] on; the memory that the list takes is not
    modelled. *)
Definition random_permutation (fuel : nat) (v_size : Z) (self : t)
  : outcome t (list Z) :=
  if 2 ^ 63 <=? v_size
  then Raise OverflowError self
  else
    let result := Z.of_nat <$> seq 0 (Z.to_nat v_size) in
    shuffle_loop fuel (Z.to_nat v_size) 0 v_size result self.

End EschRG.

(** ** The sampler as compiled

    [1 << i] has no value in C++ from [i = 32] on, and the loop of
    [get_n_bit_unsigned_integer] reaches such a shift as soon as a unit of
    rank 32 or more is set: whenever [get_unsigned_integer_in_range] is given
    a range of [2^32] or more.  The compiled loop yields some [int] there;
    [wide i] stands for it, and the functions below are those of the core and
    of the wrapper with this value where they have none. *)

Module Compiled.

Section Wide.

Variable wide : nat -> Z.

(** [1 << i], an [int]. *)
Definition one_shl (i : nat) : Z :=
  match int_one_shl i with
  | Some v => v
  | None => wide i
  end.

(** The loop of [get_n_bit_unsigned_integer]. *)
Fixpoint get_bits_loop (count i : nat) (result : Z) (g : Sparkle512core.t)
  : outcome Sparkle512core.t Z :=
  match count with
  | O => Ok result g
  | Datatypes.S count' =>
      bind (Sparkle512core.refill g)
        (fun _ g =>
           match Sparkle512core.entropy_tank g
                 !! Sparkle512core.entropy_cursor g with
           | None => Undefined
           | Some tank_bit =>
               if (tank_bit : bool)
               then get_bits_loop count' (i + 1)
                      (Z.lor result (u64 (one_shl i)))
                      (Sparkle512core.advance g)
               else get_bits_loop count' (i + 1) result
                      (Sparkle512core.advance g)
           end)
  end.

(** [uint64_t Sparkle512core::get_n_bit_unsigned_integer(const unsigned int n)] *)
Definition get_n_bit_unsigned_integer (n : nat) (g : Sparkle512core.t)
  : outcome Sparkle512core.t Z :=
  get_bits_loop n 0 0 g.

(** The [do ... while (output >= range)] loop. *)
Fixpoint rejection_loop (fuel : nat) (bit_length : Z) (range : Z)
    (g : Sparkle512core.t) : outcome Sparkle512core.t Z :=
  match fuel with
  | O => Timeout
  | Datatypes.S fuel' =>
      bind (get_n_bit_unsigned_integer (Z.to_nat bit_length) g)
        (fun output g =>
           if range <=? output
           then rejection_loop fuel' bit_length range g
           else Ok output g)
  end.

(** [uint64_t Sparkle512core::get_unsigned_integer_in_range(lower_bound,
    upper_bound)] *)
Definition get_unsigned_integer_in_range (fuel : nat)
    (lower_bound upper_bound : Z) (g : Sparkle512core.t)
  : outcome Sparkle512core.t Z :=
  match Sparkle512core.bit_length_of lower_bound upper_bound with
  | None => Undefined
  | Some bit_length =>
      let range := u64 (upper_bound - lower_bound) in
      bind (rejection_loop fuel bit_length range g)
        (fun output g => Ok (u64 (lower_bound + output)) g)
  end.

(** [def __call__(self, lower, upper)] of [SparkleRG]. *)
Definition __call__ (fuel : nat) (lower upper : Z) (self : SparkleRG.t)
  : outcome SparkleRG.t Z :=
  if upper <=? lower
  then Raise (Exception "`upper` must be strictly higher than `lower`") self
  else if fits_unsigned 64 lower && fits_unsigned 64 upper
  then get_unsigned_integer_in_range fuel lower upper self
  else Raise OverflowError self.

(** [k] successive calls of [get_n_bit_unsigned_integer(n)], with their
    outputs in order. *)
Fixpoint draws (k n : nat) (g : Sparkle512core.t)
  : outcome Sparkle512core.t (list Z) :=
  match k with
  | O => Ok [] g
  | Datatypes.S k' =>
      bind (get_n_bit_unsigned_integer n g)
        (fun v g => bind (draws k' n g) (fun vs g => Ok (v :: vs) g))
  end.

End Wide.

(** The value on x86-64, whose shift instruction takes the count of a 32-bit
    shift modulo 32. *)
Definition masked (i : nat) : Z :=
  match int_one_shl (i mod 32) with
  | Some v => v
  | None => 0
  end.

End Compiled.

(** ** Sessions

    A host builds a generator, absorbs its seed blocks in order and then
    samples.  A call that raises is answered by the exception and the host
    goes on with the same object. *)

Inductive call : Type :=
| sample_bits (n : Z)
| sample_uniform (lower upper : Z).

Inductive reply : Type :=
| Returned (v : Z)
| Raised (e : exn).

Definition run_call (fuel : nat) (c : call) (g : SparkleRG.t)
  : outcome SparkleRG.t Z :=
  match c with
  | sample_bits n => SparkleRG.get_n_bit_unsigned_integer n g
  | sample_uniform lower upper => SparkleRG.__call__ fuel lower upper g
  end.

(** The replies of the calls, each with the generator it leaves. *)
Fixpoint run_calls (fuel : nat) (calls : list call) (g : SparkleRG.t)
  : outcome SparkleRG.t (list (reply * SparkleRG.t)) :=
  match calls with
  | [] => Ok [] g
  | c :: calls' =>
      match run_call fuel c g with
      | Ok v g' =>
          bind (run_calls fuel calls' g')
               (fun trace g'' => Ok ((Returned v, g') :: trace) g'')
      | Raise e g' =>
          bind (run_calls fuel calls' g')
               (fun trace g'' => Ok ((Raised e, g') :: trace) g'')
      | Undefined => Undefined
      | Timeout => Timeout
      end
  end.

(** The generators that the successive [absorb] calls leave. *)
Fixpoint absorb_all (blocks : list (list byte)) (g : SparkleRG.t)
  : outcome SparkleRG.t (list SparkleRG.t) :=
  match blocks with
  | [] => Ok [] g
  | x :: blocks' =>
      bind (SparkleRG.absorb x g)
        (fun _ g' =>
           bind (absorb_all blocks' g') (fun seeded g'' => Ok (g' :: seeded) g''))
  end.

(** A whole run: the generator after construction and after every block,
    then the reply of every call with the generator it leaves. *)
Definition session (fuel : nat) (steps output_rate : Z)
    (blocks : list (list byte)) (calls : list call)
  : outcome SparkleRG.t (list SparkleRG.t * list (reply * SparkleRG.t)) :=
  bind (SparkleRG.__init__ steps output_rate)
    (fun _ g =>
       bind (absorb_all blocks g)
         (fun seeded g' =>
            bind (run_calls fuel calls g')
              (fun trace g'' => Ok (g :: seeded, trace) g''))).

(** * Statements compared with the code *)

(** ** Two generators to compute with

    The object built by [SparkleRG(8, 256)], and the same object after
    [absorb(b"seed")]. *)

Definition example_fresh : SparkleRG.t :=
  Sparkle512core.Build 8 (replicate 16 0) (replicate 256 false) 0.

Definition seed : list byte := ["s"; "e"; "e"; "d"]%byte.

Definition example_seeded : SparkleRG.t :=
  Eval vm_compute in
    match SparkleRG.absorb seed example_fresh with
    | Ok _ g => g
    | _ => example_fresh
    end.

(** ** The output sampler *)

(** [n] tank units consumed in cursor order, refilling on the way. *)
Fixpoint consume (n : nat) (g : Sparkle512core.t)
  : outcome Sparkle512core.t (list bool) :=
  match n with
  | O => Ok [] g
  | S n' =>
      bind (Sparkle512core.refill g)
        (fun _ g =>
           match Sparkle512core.entropy_tank g
                 !! Sparkle512core.entropy_cursor g with
           | None => Undefined
           | Some unit_bit =>
               bind (consume n' (Sparkle512core.advance g))
                 (fun bits g => Ok (unit_bit :: bits) g)
           end)
  end.

(** The accumulator whose bit [i] is the [i]-th of [bits], all others zero. *)
Fixpoint accumulate (bits : list bool) : Z :=
  match bits with
  | [] => 0
  | b :: bits' => Z.b2z b + 2 * accumulate bits'
  end.

(** What [result |= (1 << i)] leaves of a 32-bit value: with its bit 31 set,
    the bits 32 to 63 are set as well. *)
Definition sign_extended (v : Z) : Z :=
  if v <? 2 ^ 31 then v else v + (2 ^ 64 - 2 ^ 32).

(** [k] successive calls of [get_n_bit_unsigned_integer(n)], with their
    outputs in order. *)
Fixpoint draws (k n : nat) (g : Sparkle512core.t)
  : outcome Sparkle512core.t (list Z) :=
  match k with
  | O => Ok [] g
  | S k' =>
      bind (Sparkle512core.get_n_bit_unsigned_integer n g)
        (fun v g => bind (draws k' n g) (fun vs g => Ok (v :: vs) g))
  end.

(** C1, as the specification states it, at the range [upper - lower]: the
    sampler asks for the least [b] with [2^b >= range] bits, and
    [2^b < 2*range]. *)
Definition asks_least_cover (lower upper : Z) : Prop :=
  exists b,
    Sparkle512core.bit_length_of lower upper = Some b
    /\ upper - lower <= 2 ^ b
    /\ (forall b', 0 <= b' -> upper - lower <= 2 ^ b' -> b <= b')
    /\ 2 ^ b < 2 * (upper - lower).

(** C2, as the specification states it: with a range of 1 the call returns
    [lower] and leaves the cursor and the state as they were. *)
Definition unit_range_consumes_nothing (lower : Z) (g : SparkleRG.t) : Prop :=
  exists fuel g',
    SparkleRG.__call__ fuel lower (lower + 1) g = Ok lower g'
    /\ Sparkle512core.entropy_cursor g' = Sparkle512core.entropy_cursor g
    /\ Sparkle512core.state g' = Sparkle512core.state g.

(** ** The sponge *)

(** The value of a chunk of bytes read as a little-endian integer. *)
Fixpoint little_endian (chunk : list byte) : Z :=
  match chunk with
  | [] => 0
  | b :: chunk' => Z.of_N (Byte.to_N b) + 256 * little_endian chunk'
  end.

(** The data as 32-bit little-endian chunks. *)
Fixpoint words_of (data : list byte) : list Z :=
  match data with
  | b0 :: b1 :: b2 :: b3 :: data' =>
      little_endian [b0; b1; b2; b3] :: words_of data'
  | _ => []
  end.

(** XOR of the words into successive state words, from word [k] on. *)
Fixpoint xor_words (words : list Z) (k : nat) (state : list Z) : list Z :=
  match words with
  | [] => state
  | w :: words' => xor_words words' (S k) (xor_at k w state)
  end.

(** The data zero-padded to [width] bytes when shorter. *)
Definition zero_pad (width : nat) (data : list byte) : list byte :=
  data ++ replicate (width - length data) x00.

(** The block width of the wrapper, in bytes. *)
Definition block_width : nat := 48.

(** The squeeze policy: unit [u] of the tank is the parity of state word
    [u / 32] shifted right by [u mod 32]. *)
Definition squeezed_unit (state : list Z) (u : nat) : bool :=
  __builtin_parityll (Z.shiftr (state !!! (u / 32)%nat) (Z.of_nat (u mod 32))).

Definition squeezed (state : list Z) (capacity : nat) : list bool :=
  map (squeezed_unit state) (seq 0 capacity).

(** The tank while [_squeeze] runs: its first [u] units rewritten. *)
Definition filled (state : list Z) (u : nat) (tank : list bool) : list bool :=
  squeezed state u ++ drop u tank.




(** C7, as the specification states it, on the object that the constructor
    of the core leaves: [absorb] before [setup] fails. *)
Definition absorb_before_setup_fails (byte_array : list byte) : Prop :=
  exists e g',
    Sparkle512core.absorb byte_array Sparkle512core.new = Raise e g'.

(** ** Bookkeeping of the tank *)

(** A generator as [setup] and [absorb] leave it: sixteen state words, a tank
    of one to sixteen whole words and a cursor within it. *)
Definition set_up (g : Sparkle512core.t) : bool :=
  (length (Sparkle512core.state g) =? 16)%nat
  && (length (Sparkle512core.entropy_tank g) mod 32 =? 0)%nat
  && (1 <=? length (Sparkle512core.entropy_tank g))%nat
  && (length (Sparkle512core.entropy_tank g) <=? 512)%nat
  && (Sparkle512core.entropy_cursor g
      <=? length (Sparkle512core.entropy_tank g))%nat.

(** The number of times the tank is refilled while [n] units are consumed. *)
Definition refills (g : Sparkle512core.t) (n : nat) : nat :=
  ((Sparkle512core.entropy_cursor g + n - 1)
   / length (Sparkle512core.entropy_tank g))%nat.

(** The generator once [n] units are consumed. *)
Definition after_units (g : Sparkle512core.t) (n : nat) : Sparkle512core.t :=
  let capacity := length (Sparkle512core.entropy_tank g) in
  let q := refills g n in
  let state :=
    Nat.iter q (Sparkle512core.rounds (Sparkle512core.steps g))
      (Sparkle512core.state g) in
  Sparkle512core.Build (Sparkle512core.steps g) state
    (if (q =? 0)%nat then Sparkle512core.entropy_tank g
     else squeezed state capacity)
    (Sparkle512core.entropy_cursor g + n - q * capacity).

(** A state word read back from the 32 tank units squeezed out of it: bit
    [j] is the sum of units [j] and [j + 1]. *)
Definition unsqueeze_word (units : list bool) : Z :=
  accumulate (zip_with xorb units (drop 1 units ++ [false])).

(** The first [m] state words read back from the tank. *)
Definition unsqueeze (m : nat) (tank : list bool) : list Z :=
  (fun k => unsqueeze_word (take 32 (drop (32 * k) tank))) <$> seq 0 m.

(** Words of 32 bits. *)
Definition words32 (state : list Z) : Prop :=
  Forall (fun w => 0 <= w < 2 ^ 32) state.

(** ** Seeds of [EschRG] *)

(** The objects that [EschRG.__init__] hands to [_absorb_block], in order. *)
Definition blocks_of (seeds : EschRG.seeds) (time_string : option (list byte))
  : list EschRG.object :=
  match seeds with
  | EschRG.several xs => xs
  | EschRG.one x => [x]
  end
  ++ match time_string with
     | Some encoded => [EschRG.of_bytes encoded]
     | None => []
     end.

(** An object that [_absorb_block] accepts: it has bytes, at most 31. *)
Definition absorbable (x : EschRG.object) : Prop :=
  exists b, EschRG.to_absorb_of x = Some b /\ (length b <= 31)%nat.

(** The exception that [_absorb_block] raises on an object it refuses. *)
Definition refusal (x : EschRG.object) : exn :=
  match EschRG.to_absorb_of x with
  | Some _ => Exception "block is too big, max length is 31 bytes"
  | None => UnicodeEncodeError
  end.

(** The list of bytes objects kept in [self.absorbed] for these objects. *)
Definition kept_as (xs : list EschRG.object) (absorbed : list (list byte))
  : Prop :=
  Forall2 (fun x b => EschRG.to_absorb_of x = Some b) xs absorbed.

(** A [str] of ASCII characters. *)
Definition ascii_str (s : string) : EschRG.str :=
  (fun a => Ascii.N_of_ascii a) <$> String.list_ascii_of_string s.

(** The object built by [EschRG(b"seed")]. *)
Definition example_esch : EschRG.t :=
  Eval vm_compute in
    match EschRG.__init__ (EschRG.one (EschRG.of_bytes seed)) None with
    | Ok _ self => self
    | _ => EschRG.Build example_fresh []
    end.

(** ** The permutation, statement by statement, and its inverse *)

(** [state[j] -= v] *)
Definition sub_at (j : nat) (v : Z) (state : list Z) : list Z :=
  <[j := u32 (state !!! j - v)]> state.

(** The statements of the ARXBOX loop, and the subtractions that undo its
    additions. *)
Inductive arx_statement : Type :=
| add_rot (r : Z)      (* state[j] += ROT(state[j+1], r) *)
| add_plain            (* state[j] += state[j+1] *)
| xor_rot (r : Z)      (* state[j+1] ^= ROT(state[j], r) *)
| xor_rc               (* state[j] ^= rc *)
| sub_rot (r : Z)      (* state[j] -= ROT(state[j+1], r) *)
| sub_plain.           (* state[j] -= state[j+1] *)

Definition run_statement (j : nat) (rc : Z) (st : arx_statement)
    (state : list Z) : list Z :=
  match st with
  | add_rot r => add_at j (ROT (state !!! (j + 1)%nat) r) state
  | add_plain => add_at j (state !!! (j + 1)%nat) state
  | xor_rot r => xor_at (j + 1) (ROT (state !!! j) r) state
  | xor_rc => xor_at j rc state
  | sub_rot r => sub_at j (ROT (state !!! (j + 1)%nat) r) state
  | sub_plain => sub_at j (state !!! (j + 1)%nat) state
  end.

Definition run_statements (j : nat) (rc : Z) (program : list arx_statement)
    (state : list Z) : list Z :=
  fold_left (fun state st => run_statement j rc st state) program state.

(** The twelve statements of [arxbox], in order. *)
Definition arx_statements : list arx_statement :=
  [ add_rot 31; xor_rot 24; xor_rc;
    add_rot 17; xor_rot 17; xor_rc;
    add_plain;  xor_rot 31; xor_rc;
    add_rot 24; xor_rot 16; xor_rc ].

Definition undo (st : arx_statement) : arx_statement :=
  match st with
  | add_rot r => sub_rot r
  | add_plain => sub_plain
  | sub_rot r => add_rot r
  | sub_plain => add_plain
  | xor_rot r => xor_rot r
  | xor_rc => xor_rc
  end.

(** The statements of [arxbox] undone from the last to the first. *)
Definition arxbox_inverse (j : nat) (state : list Z) : list Z :=
  run_statements j (RCON !!! (j / 2)%nat) (rev (undo <$> arx_statements)) state.

(** The same statements on the two words they touch. *)
Definition run_on_pair (rc : Z) (st : arx_statement) (p : Z * Z) : Z * Z :=
  let '(x, y) := p in
  match st with
  | add_rot r => (u32 (x + ROT y r), y)
  | add_plain => (u32 (x + y), y)
  | xor_rot r => (x, Z.lxor y (ROT x r))
  | xor_rc => (Z.lxor x rc, y)
  | sub_rot r => (u32 (x - ROT y r), y)
  | sub_plain => (u32 (x - y), y)
  end.

(** Both words of a pair are 32-bit words. *)
Definition pair32 (p : Z * Z) : Prop :=
  0 <= fst p < 2 ^ 32 /\ 0 <= snd p < 2 ^ 32.

Definition pair_at (j : nat) (p : Z * Z) (state : list Z) : list Z :=
  <[(j + 1)%nat := snd p]> (<[j := fst p]> state).

(** The three layers of a round. *)
Definition add_constants (i : nat) (state : list Z) : list Z :=
  let state := xor_at 1 (RCON !!! (i mod Sparkle512core.N_BRANCHES)%nat) state in
  xor_at 3 (u32 (Z.of_nat i)) state.

Definition arx_layer (state : list Z) : list Z :=
  for_range 0 (2 * Sparkle512core.N_BRANCHES) 2 arxbox state.

Definition linear_layer (state : list Z) : list Z :=
  let N_BRANCHES := Sparkle512core.N_BRANCHES in
  let x0 := state !!! 0%nat in
  let y0 := state !!! 1%nat in
  let '(tmpx, tmpy) :=
    for_range 2 N_BRANCHES 2
      (fun j '(tmpx, tmpy) =>
         (Z.lxor tmpx (state !!! j), Z.lxor tmpy (state !!! (j + 1)%nat)))
      (x0, y0) in
  let tmpx := ELL tmpx in
  let tmpy := ELL tmpy in
  let state :=
    for_range 2 N_BRANCHES 2
      (fun j state =>
         let state :=
           set_at (j - 2)
             (Z.lxor (Z.lxor (state !!! (j + N_BRANCHES)%nat) (state !!! j)) tmpy)
             state in
         let state := set_at (j + N_BRANCHES) (state !!! j) state in
         let state :=
           set_at (j - 1)
             (Z.lxor (Z.lxor (state !!! (j + N_BRANCHES + 1)%nat)
                             (state !!! (j + 1)%nat)) tmpx)
             state in
         set_at (j + N_BRANCHES + 1) (state !!! (j + 1)%nat) state)
      state in
  let state :=
    set_at (N_BRANCHES - 2)
      (Z.lxor (Z.lxor (state !!! N_BRANCHES) x0) tmpy) state in
  let state := set_at N_BRANCHES x0 state in
  let state :=
    set_at (N_BRANCHES - 1)
      (Z.lxor (Z.lxor (state !!! (N_BRANCHES + 1)%nat) y0) tmpx) state in
  set_at (N_BRANCHES + 1) y0 state.

(** The linear layer undone: its output holds the old left half in its right
    half, from which the two sums and then the old right half follow. *)
Definition linear_layer_inverse (state : list Z) : list Z :=
  let word k := state !!! k in
  let tmpx :=
    ELL (Z.lxor (Z.lxor (Z.lxor (word 8%nat) (word 10%nat)) (word 12%nat))
                (word 14%nat)) in
  let tmpy :=
    ELL (Z.lxor (Z.lxor (Z.lxor (word 9%nat) (word 11%nat)) (word 13%nat))
                (word 15%nat)) in
  [ word 8%nat; word 9%nat; word 10%nat; word 11%nat;
    word 12%nat; word 13%nat; word 14%nat; word 15%nat;
    Z.lxor (Z.lxor (word 6%nat) (word 8%nat)) tmpy;
    Z.lxor (Z.lxor (word 7%nat) (word 9%nat)) tmpx;
    Z.lxor (Z.lxor (word 0%nat) (word 10%nat)) tmpy;
    Z.lxor (Z.lxor (word 1%nat) (word 11%nat)) tmpx;
    Z.lxor (Z.lxor (word 2%nat) (word 12%nat)) tmpy;
    Z.lxor (Z.lxor (word 3%nat) (word 13%nat)) tmpx;
    Z.lxor (Z.lxor (word 4%nat) (word 14%nat)) tmpy;
    Z.lxor (Z.lxor (word 5%nat) (word 15%nat)) tmpx ].

Definition arx_layer_inverse (state : list Z) : list Z :=
  fold_right arxbox_inverse state [0; 2; 4; 6; 8; 10; 12; 14]%nat.

Definition round_inverse (i : nat) (state : list Z) : list Z :=
  add_constants i (arx_layer_inverse (linear_layer_inverse state)).

(** [for (i = count; i > 0; i --) body(i - 1)] *)
Fixpoint for_down {S : Type} (count : nat) (body : nat -> S -> S) (s : S) : S :=
  match count with
  | O => s
  | Datatypes.S count' => for_down count' body (body count' s)
  end.

(** The rounds [steps - 1], ..., 0 undone in that order. *)
Definition rounds_inverse (steps : nat) (state : list Z) : list Z :=
  for_down steps round_inverse state.

(** ** The byte tank of [Sparkle512EDF] *)

(** Byte [j] of a word, counted from the least significant one. *)
Definition byte_at (w : Z) (j : nat) : Z := (w / 256 ^ Z.of_nat j) mod 256.

(** The tank that exposes the first twelve state words, each as its four
    bytes from the least significant one up. *)
Definition rate_bytes (state : list Z) : list Z :=
  flat_map (fun k => let w := state !!! k in
                     [byte_at w 0; byte_at w 1; byte_at w 2; byte_at w 3])
           (seq 0 12).

(** Bytes read most significant first. *)
Definition big_endian (bytes : list Z) : Z :=
  fold_left (fun acc b => 256 * acc + b) bytes 0.

(** A tank of values that fit a [uint8_t]. *)
Definition bytes256 (tank : list Z) : Prop :=
  Forall (fun b => 0 <= b < 256) tank.

(** * Properties *)

(** ** The three permutations *)

Lemma for_int_from_nat {S : Type} (body : nat -> S -> S) :
  forall (count i stop : nat) (s : S),
    for_int_from count (Z.of_nat i) (Z.of_nat stop)
      (fun z => body (Z.to_nat z)) s
    = for_from count i stop 1 body s.
Proof.
  induction count as [|count IH]; intros i stop s; simpl; [reflexivity|].
  destruct (Nat.ltb_spec i stop) as [Hlt|Hge].
  - rewrite (proj2 (Z.ltb_lt _ _)) by lia.
    rewrite Nat2Z.id.
    replace (Z.of_nat i + 1) with (Z.of_nat (i + 1)) by lia.
    apply IH.
  - rewrite (proj2 (Z.ltb_ge _ _)) by lia. reflexivity.
Qed.

Lemma for_int_from_ext {S : Type} (f f' : Z -> S -> S) :
  forall (count : nat) (i stop : Z) (s : S),
    (forall z s', i <= z < stop -> f z s' = f' z s') ->
    for_int_from count i stop f s = for_int_from count i stop f' s.
Proof.
  induction count as [|count IH]; intros i stop s Hext; simpl; [reflexivity|].
  destruct (Z.ltb_spec i stop) as [Hlt|Hge]; [|reflexivity].
  rewrite Hext by lia. apply IH. intros z s' Hz. apply Hext. lia.
Qed.

Lemma standalone_round_core (i : Z) (state : list Z) :
  0 <= i ->
  Standalone.round i state = Sparkle512core.round (Z.to_nat i) state.
Proof.
  intros Hi. unfold Standalone.round, Sparkle512core.round.
  unfold Standalone.MAX_BRANCHES, Sparkle512core.N_BRANCHES.
  replace (Z.to_nat (i mod 8)) with (Z.to_nat i mod 8)%nat
    by (rewrite <- (Z2Nat.id i) at 2 by lia;
        change 8 with (Z.of_nat 8); rewrite <- Nat2Z.inj_mod;
        now rewrite Nat2Z.id).
  rewrite Z2Nat.id by lia.
  reflexivity.
Qed.

Lemma edf_round_core (i : nat) (state : list Z) :
  Sparkle512EDF.round i state = Sparkle512core.round i state.
Proof.
  unfold Sparkle512EDF.round, Sparkle512core.round.
  unfold Sparkle512EDF.MAX_BRANCHES, Sparkle512core.N_BRANCHES.
  reflexivity.
Qed.

Lemma standalone_rounds (state : list Z) (steps : Z) :
  Standalone.sparkle_512_permutation state steps
  = Sparkle512core.rounds steps state.
Proof.
  unfold Standalone.sparkle_512_permutation, Sparkle512core.rounds.
  unfold for_int, for_range.
  rewrite Z.sub_0_r, Nat.sub_0_r.
  destruct (Z.le_gt_cases 0 steps) as [Hpos|Hneg].
  - rewrite (for_int_from_ext Standalone.round
               (fun z => Sparkle512core.round (Z.to_nat z)))
      by (intros z s' Hz; apply standalone_round_core; lia).
    rewrite <- (Z2Nat.id steps) at 2 by lia.
    apply (for_int_from_nat Sparkle512core.round _ 0%nat).
  - replace (Z.to_nat steps) with 0%nat by lia. reflexivity.
Qed.

Lemma for_from_ext {S : Type} (f f' : nat -> S -> S) :
  forall (count j stop step : nat) (s : S),
    (forall k s', f k s' = f' k s') ->
    for_from count j stop step f s = for_from count j stop step f' s.
Proof.
  induction count as [|count IH]; intros j stop step s Hext; simpl;
    [reflexivity|].
  destruct (j <? stop)%nat; [|reflexivity].
  rewrite Hext. now apply IH.
Qed.

(** C10: the standalone [sparkle_512_permutation], [Sparkle512core::_permute]
    and the round loop of [Sparkle512EDF::_update_state] compute the same
    state from the same state and step count. *)
Theorem permutations_agree (state : list Z) (s : Z)
    (tank : list bool) (cursor : nat) (tank' : list Z) (cursor' : nat) :
  Standalone.sparkle_512_permutation state s
  = Sparkle512core.state
      (Sparkle512core._permute (Sparkle512core.Build s state tank cursor))
  /\ Sparkle512EDF.state
       (Sparkle512EDF._update_state (Sparkle512EDF.Build s state tank' cursor'))
     = Sparkle512core.state
         (Sparkle512core._permute (Sparkle512core.Build s state tank cursor)).
Proof.
  unfold Sparkle512core._permute, Sparkle512EDF._update_state.
  cbn [Sparkle512core.state Sparkle512core.steps
       Sparkle512EDF.state Sparkle512EDF.steps].
  split.
  - apply standalone_rounds.
  - unfold Sparkle512EDF.round_loop, Sparkle512core.rounds, for_range.
    apply for_from_ext. intros k s'. apply edf_round_core.
Qed.

(** ** The bit length asked by the rejection sampler *)

Lemma testbit_top (n : nat) (x : Z) :
  0 <= x < 2 ^ Z.of_nat (S n) ->
  Z.testbit x (Z.of_nat n) = true <-> 2 ^ Z.of_nat n <= x.
Proof.
  intros Hx.
  assert (Hp : 0 < 2 ^ Z.of_nat n) by (apply Z.pow_pos_nonneg; lia).
  assert (Hs : 2 ^ Z.of_nat (S n) = 2 * 2 ^ Z.of_nat n)
    by (rewrite Nat2Z.inj_succ, Z.pow_succ_r; lia).
  rewrite Z.testbit_true by lia.
  split; intros H.
  - destruct (Z.lt_ge_cases x (2 ^ Z.of_nat n)) as [Hlt|Hge]; [|exact Hge].
    rewrite Z.div_small in H by lia. discriminate.
  - assert (Hq : x / 2 ^ Z.of_nat n = 1).
    { symmetry. apply (Z.div_unique x (2 ^ Z.of_nat n) 1 (x - 2 ^ Z.of_nat n)); lia. }
    rewrite Hq. reflexivity.
Qed.

Lemma leading_zeros_log2 :
  forall (n : nat) (x : Z),
    0 < x < 2 ^ Z.of_nat n ->
    leading_zeros n x = Z.of_nat n - (Z.log2 x + 1).
Proof.
  induction n as [|n IH]; intros x Hx.
  - simpl in Hx. lia.
  - cbn [leading_zeros].
    destruct (Z.testbit x (Z.of_nat n)) eqn:Hbit.
    + apply testbit_top in Hbit; [|lia].
      assert (Z.log2 x = Z.of_nat n)
        by (apply Z.log2_unique; [lia|];
            rewrite Nat2Z.inj_succ in Hx; unfold Z.succ in *; lia).
      lia.
    + assert (Hlt : x < 2 ^ Z.of_nat n).
      { destruct (Z.lt_ge_cases x (2 ^ Z.of_nat n)) as [Hlt|Hge]; [exact Hlt|].
        apply testbit_top in Hge; [congruence|lia]. }
      rewrite IH by lia. lia.
Qed.

Lemma bit_length_of_log2 (lower_bound upper_bound : Z) :
  0 < upper_bound - lower_bound < 2 ^ 64 ->
  Sparkle512core.bit_length_of lower_bound upper_bound
  = Some (Z.log2 (upper_bound - lower_bound) + 1).
Proof.
  intros Hr. unfold Sparkle512core.bit_length_of, __builtin_clzll, u64.
  rewrite Z.mod_small by lia.
  rewrite (proj2 (Z.eqb_neq _ _)) by lia. cbn [mbind option_bind].
  rewrite (leading_zeros_log2 64) by (change (Z.of_nat 64) with 64; lia).
  assert (0 <= Z.log2 (upper_bound - lower_bound) < 64).
  { split; [apply Z.log2_nonneg|]. apply Z.log2_lt_pow2; lia. }
  f_equal. rewrite Z.mod_small; change (Z.of_nat 64) with 64; lia.
Qed.

(** C1 fails at every power of two; here at the range 2 of [get_uniform(0, 2)],
    for which the sampler asks 2 bits. *)
Lemma bit_length_at_two : ~ asks_least_cover 0 2.
Proof.
  intros (b & Hb & _ & _ & Hlt).
  vm_compute in Hb. injection Hb as <-. vm_compute in Hlt. discriminate.
Qed.

(** C1, amended: for a range from 2 to 2^64 - 1 the sampler asks, in each
    pass of the rejection loop, for the bit length of the range itself: the
    position of its highest set bit plus one, the least [b] with
    [range < 2^b].  So [2^b <= 2*range], with equality exactly when the range
    is the power of two [2^(b-1)]. *)
Theorem bit_length_of_range (lower upper : Z) :
  2 <= upper - lower < 2 ^ 64 ->
  exists b,
    Sparkle512core.bit_length_of lower upper = Some b
    /\ b = Z.log2 (upper - lower) + 1
    /\ 2 ^ (b - 1) <= upper - lower < 2 ^ b
    /\ (forall b', 0 <= b' -> upper - lower < 2 ^ b' -> b <= b')
    /\ 2 ^ b <= 2 * (upper - lower)
    /\ (2 ^ b < 2 * (upper - lower) <-> upper - lower <> 2 ^ (b - 1))
    /\ (forall fuel g,
          Sparkle512core.get_unsigned_integer_in_range (S fuel) lower upper g
          = bind (Sparkle512core.get_n_bit_unsigned_integer (Z.to_nat b) g)
              (fun output g =>
                 bind (if u64 (upper - lower) <=? output
                       then Sparkle512core.rejection_loop fuel b
                              (u64 (upper - lower)) g
                       else Ok output g)
                   (fun output g => Ok (u64 (lower + output)) g))).
Proof.
  intros Hr.
  set (range := upper - lower) in *.
  exists (Z.log2 range + 1).
  assert (Hlog : 2 ^ Z.log2 range <= range < 2 ^ Z.succ (Z.log2 range))
    by (apply Z.log2_spec; lia).
  unfold Z.succ in Hlog.
  assert (Hnn : 0 <= Z.log2 range) by apply Z.log2_nonneg.
  assert (Hpow : 2 ^ (Z.log2 range + 1) = 2 * 2 ^ Z.log2 range)
    by (rewrite Z.pow_add_r by lia; lia).
  replace (Z.log2 range + 1 - 1) with (Z.log2 range) by lia.
  split; [apply bit_length_of_log2; subst range; lia|].
  split; [reflexivity|].
  split; [lia|].
  split.
  { intros b' Hb' Hlt.
    destruct (Z.lt_ge_cases (Z.log2 range) b') as [?|Hge]; [lia|].
    assert (2 ^ b' <= 2 ^ Z.log2 range) by (apply Z.pow_le_mono_r; lia).
    lia. }
  split; [lia|].
  split; [lia|].
  intros fuel g. unfold Sparkle512core.get_unsigned_integer_in_range.
  fold range. rewrite bit_length_of_log2 by (subst range; lia). fold range.
  cbn [Sparkle512core.rejection_loop].
  destruct (Sparkle512core.get_n_bit_unsigned_integer _ g); reflexivity.
Qed.

Lemma bit_length_of_range_witness :
  exists b, Sparkle512core.bit_length_of 10 75 = Some b /\ b = 7.
Proof.
  destruct (bit_length_of_range 10 75 ltac:(lia)) as (b & Hb & Hv & _).
  exists b. split; [exact Hb|]. rewrite Hv. reflexivity.
Defined.

(** ** Rejection sampling *)

Lemma get_bits_loop_nonneg :
  forall (count i : nat) (result : Z) (g : Sparkle512core.t) v g',
    0 <= result ->
    Sparkle512core.get_bits_loop count i result g = Ok v g' ->
    0 <= v.
Proof.
  induction count as [|count IH]; intros i result g v g' Hr H; simpl in H.
  - now inversion H; subst.
  - destruct (Sparkle512core.refill g) as [[] g1| | |];
      simpl in H; try discriminate.
    destruct (Sparkle512core.entropy_tank g1 !! Sparkle512core.entropy_cursor g1)
      as [[|]|]; try discriminate.
    + destruct (int_one_shl i) as [w|]; [|discriminate].
      eapply IH; [|exact H].
      apply Z.lor_nonneg. split; [exact Hr|].
      unfold u64. apply Z.mod_pos_bound. reflexivity.
    + eapply IH; eassumption.
Qed.

Lemma get_n_bit_nonneg (n : nat) (g : Sparkle512core.t) v g' :
  Sparkle512core.get_n_bit_unsigned_integer n g = Ok v g' -> 0 <= v.
Proof. apply get_bits_loop_nonneg. reflexivity. Qed.

(** What a returning rejection loop has drawn. *)
Lemma rejection_loop_draws :
  forall (fuel : nat) (b range : Z) (g : Sparkle512core.t) v g',
    Sparkle512core.rejection_loop fuel b range g = Ok v g' ->
    exists rejected,
      (length rejected < fuel)%nat
      /\ draws (S (length rejected)) (Z.to_nat b) g = Ok (rejected ++ [v]) g'
      /\ Forall (fun d => range <= d) rejected
      /\ 0 <= v < range.
Proof.
  induction fuel as [|fuel IH]; intros b range g v g' H; [discriminate|].
  cbn [Sparkle512core.rejection_loop] in H.
  destruct (Sparkle512core.get_n_bit_unsigned_integer (Z.to_nat b) g)
    as [output g1| | |] eqn:Hdraw; try discriminate.
  cbn [bind] in H.
  destruct (Z.leb_spec range output) as [Hge|Hlt].
  - destruct (IH _ _ _ _ _ H) as (rejected & Hlen & Hd & Hall & Hv).
    exists (output :: rejected). repeat split.
    + simpl. lia.
    + change (length (output :: rejected)) with (S (length rejected)).
      cbn [draws]. rewrite Hdraw. cbn [bind].
      cbn [draws] in Hd. rewrite Hd. reflexivity.
    + constructor; assumption.
    + apply Hv.
    + apply Hv.
  - inversion H; subst. exists []. repeat split.
    + simpl. lia.
    + cbn [draws length app]. rewrite Hdraw. reflexivity.
    + constructor.
    + eapply get_n_bit_nonneg; eassumption.
    + exact Hlt.
Qed.

(** With its first acceptable draw in sight the loop returns it. *)
Lemma draws_rejection_loop :
  forall (rejected : list Z) (fuel : nat) (b range : Z)
         (g : Sparkle512core.t) v g',
    draws (S (length rejected)) (Z.to_nat b) g = Ok (rejected ++ [v]) g' ->
    Forall (fun d => range <= d) rejected ->
    v < range ->
    (length rejected < fuel)%nat ->
    Sparkle512core.rejection_loop fuel b range g = Ok v g'.
Proof.
  induction rejected as [|d rejected IH]; intros fuel b range g v g' Hd Hall Hv Hf;
    (destruct fuel as [|fuel]; [simpl in Hf; lia|]);
    cbn [Sparkle512core.rejection_loop]; cbn [draws length] in Hd.
  - destruct (Sparkle512core.get_n_bit_unsigned_integer (Z.to_nat b) g)
      as [output g1| | |]; try discriminate.
    cbn [bind] in *. inversion Hd; subst.
    rewrite (proj2 (Z.leb_gt _ _)) by lia. reflexivity.
  - destruct (Sparkle512core.get_n_bit_unsigned_integer (Z.to_nat b) g)
      as [output g1| | |]; try discriminate.
    cbn [bind] in *.
    destruct (Sparkle512core.get_n_bit_unsigned_integer (Z.to_nat b) g1)
      as [output2 g2| | |] eqn:H2; try discriminate.
    cbn [bind] in Hd.
    destruct (draws (length rejected) (Z.to_nat b) g2)
      as [vs g3| | |] eqn:H3; try discriminate.
    cbn [bind] in Hd. inversion Hd; subst.
    inversion Hall; subst.
    rewrite (proj2 (Z.leb_le _ _)) by assumption.
    apply IH; try assumption; [|simpl in Hf; lia].
    cbn [draws]. rewrite H2. cbn [bind]. rewrite H3. cbn [bind].
    congruence.
Qed.

Lemma example_fresh_built :
  SparkleRG.__init__ 8 256 = Ok tt example_fresh.
Proof. reflexivity. Qed.

Lemma example_seeded_built :
  SparkleRG.absorb seed example_fresh = Ok tt example_seeded.
Proof. vm_compute. reflexivity. Qed.

Lemma fits_unsigned_spec (bits v : Z) :
  fits_unsigned bits v = true <-> 0 <= v < 2 ^ bits.
Proof. unfold fits_unsigned. rewrite andb_true_iff, Z.leb_le, Z.ltb_lt. tauto. Qed.

(** When a call of the wrapper returns. *)
Lemma call_returns_iff (fuel : nat) (lower upper : Z) (g : SparkleRG.t)
    (v : Z) (g' : SparkleRG.t) :
  lower < upper ->
  SparkleRG.__call__ fuel lower upper g = Ok v g' <->
  0 <= lower /\ upper < 2 ^ 64 /\
  exists b rejected draw,
    Sparkle512core.bit_length_of lower upper = Some b
    /\ (length rejected < fuel)%nat
    /\ draws (S (length rejected)) (Z.to_nat b) g = Ok (rejected ++ [draw]) g'
    /\ Forall (fun d => upper - lower <= d) rejected
    /\ 0 <= draw < upper - lower
    /\ v = lower + draw.
Proof.
  intros Hlt.
  unfold SparkleRG.__call__.
  rewrite (proj2 (Z.leb_gt _ _)) by lia.
  destruct (fits_unsigned 64 lower && fits_unsigned 64 upper) eqn:Hfit.
  - apply andb_true_iff in Hfit. destruct Hfit as [Hl Hu].
    apply fits_unsigned_spec in Hl, Hu.
    assert (Hrange : u64 (upper - lower) = upper - lower)
      by (unfold u64; apply Z.mod_small; lia).
    unfold Sparkle512core.get_unsigned_integer_in_range.
    rewrite Hrange.
    split.
    + intros H.
      destruct (Sparkle512core.bit_length_of lower upper) as [b|];
        [|discriminate].
      destruct (Sparkle512core.rejection_loop fuel b (upper - lower) g)
        as [draw g1| | |] eqn:Hloop; try discriminate.
      cbn [bind] in H. inversion H; subst.
      destruct (rejection_loop_draws _ _ _ _ _ _ Hloop)
        as (rejected & Hlen & Hd & Hall & Hv).
      split; [lia|]. split; [lia|].
      exists b, rejected, draw. repeat split; try assumption; try lia.
      unfold u64. apply Z.mod_small. lia.
    + intros (_ & _ & b & rejected & draw & Hb & Hlen & Hd & Hall & Hv & ->).
      rewrite Hb.
      rewrite (draws_rejection_loop rejected fuel b (upper - lower) g draw g')
        by (try assumption; lia).
      cbn [bind]. f_equal. unfold u64. apply Z.mod_small. lia.
  - split; [discriminate|].
    intros (Hl & Hu & _).
    assert (fits_unsigned 64 lower = true) by (apply fits_unsigned_spec; lia).
    assert (fits_unsigned 64 upper = true) by (apply fits_unsigned_spec; lia).
    rewrite andb_false_iff in Hfit. destruct Hfit; congruence.
Qed.

(** ** A range of one *)

Lemma unit_bit_length (lower : Z) :
  Sparkle512core.bit_length_of lower (lower + 1) = Some 1.
Proof.
  unfold Sparkle512core.bit_length_of.
  replace (lower + 1 - lower) with 1 by lia. reflexivity.
Qed.

Lemma one_bit_false (g : Sparkle512core.t) :
  Sparkle512core.entropy_tank g !! Sparkle512core.entropy_cursor g = Some false ->
  Sparkle512core.get_n_bit_unsigned_integer 1 g = Ok 0 (Sparkle512core.advance g).
Proof.
  intros Hbit.
  unfold Sparkle512core.get_n_bit_unsigned_integer.
  cbn [Sparkle512core.get_bits_loop].
  apply lookup_lt_Some in Hbit as Hlt.
  unfold Sparkle512core.refill.
  rewrite (proj2 (Nat.eqb_neq _ _)) by lia.
  cbn [bind]. rewrite Hbit. reflexivity.
Qed.

Lemma unit_range_next_false (fuel : nat) (lower : Z) (g : SparkleRG.t) :
  0 <= lower -> lower + 1 < 2 ^ 64 ->
  Sparkle512core.entropy_tank g !! Sparkle512core.entropy_cursor g = Some false ->
  SparkleRG.__call__ (S fuel) lower (lower + 1) g = Ok lower (Sparkle512core.advance g).
Proof.
  intros Hl Hu Hbit.
  apply call_returns_iff; [lia|].
  split; [lia|]. split; [lia|].
  exists 1, [], 0. repeat split; try lia.
  - apply unit_bit_length.
  - simpl. lia.
  - cbn [draws length app]. change (Z.to_nat 1) with 1%nat.
    rewrite (one_bit_false g Hbit). reflexivity.
  - constructor.
Qed.

(** C2 fails on the object that [SparkleRG(8, 256)] builds:
    [get_uniform(5, 6)] returns 5 with the cursor moved from 0 to 1. *)
Lemma unit_range_moves_cursor : ~ unit_range_consumes_nothing 5 example_fresh.
Proof.
  intros (fuel & g' & Hcall & Hcursor & _).
  destruct fuel as [|fuel]; [discriminate|].
  rewrite (unit_range_next_false fuel 5 example_fresh) in Hcall
    by (try lia; reflexivity).
  inversion Hcall; subst. discriminate.
Qed.

(** C2, amended: with a range of 1 the sampler has no shortcut.  It asks for
    one bit per pass of the rejection loop and returns [lower] once a 0 bit is
    drawn, every pass consuming a tank unit; when the unit under the cursor is
    0 the call returns [lower] at once with the cursor moved by one. *)
Theorem unit_range_draws_bits (fuel : nat) (lower : Z) (g : SparkleRG.t) :
  Sparkle512core.bit_length_of lower (lower + 1) = Some 1
  /\ (forall v g',
        SparkleRG.__call__ fuel lower (lower + 1) g = Ok v g' ->
        v = lower
        /\ exists rejected,
             draws (S (length rejected)) 1 g = Ok (rejected ++ [0]) g'
             /\ Forall (fun d => 1 <= d) rejected)
  /\ (0 <= lower -> lower + 1 < 2 ^ 64 ->
      Sparkle512core.entropy_tank g !! Sparkle512core.entropy_cursor g
        = Some false ->
      SparkleRG.__call__ (S fuel) lower (lower + 1) g = Ok lower (Sparkle512core.advance g)).
Proof.
  split; [apply unit_bit_length|]. split.
  - intros v g' H.
    apply call_returns_iff in H; [|lia].
    destruct H as (_ & _ & b & rejected & draw & Hb & _ & Hd & Hall & Hv & ->).
    rewrite unit_bit_length in Hb. inversion Hb; subst b.
    assert (draw = 0) by lia. subst draw.
    split; [lia|].
    exists rejected. split; [exact Hd|].
    eapply Forall_impl; [exact Hall|]. simpl. intros d Hd'. lia.
  - apply unit_range_next_false.
Qed.

Lemma unit_range_draws_bits_witness :
  SparkleRG.__call__ 1 5 6 example_fresh = Ok 5 (Sparkle512core.advance example_fresh).
Proof.
  apply (proj2 (proj2 (unit_range_draws_bits 0 5 example_fresh)));
    [lia | lia | reflexivity].
Defined.

(** ** Absorption *)

Lemma byte_bounds (b : byte) : 0 <= Z.of_N (Byte.to_N b) < 256.
Proof. pose proof (Byte.to_N_bounded b). lia. Qed.

Lemma land_disjoint (a c n : Z) :
  0 <= n -> 0 <= a < 2 ^ n -> Z.land a (c * 2 ^ n) = 0.
Proof.
  intros Hn Ha. apply Z.bits_inj'. intros m Hm.
  rewrite Z.land_spec, Z.bits_0.
  destruct (Z.lt_ge_cases m n) as [Hlt|Hge].
  - rewrite Z.mul_pow2_bits_low by lia. apply andb_false_r.
  - rewrite <- (Z.mod_small a (2 ^ n)) by lia.
    rewrite Z.mod_pow2_bits_high by lia. reflexivity.
Qed.

Lemma lxor_disjoint (a c n : Z) :
  0 <= n -> 0 <= a < 2 ^ n -> Z.lxor a (c * 2 ^ n) = a + c * 2 ^ n.
Proof.
  intros Hn Ha. symmetry. apply Z.add_nocarry_lxor. now apply land_disjoint.
Qed.

Lemma lor_disjoint (a c n : Z) :
  0 <= n -> 0 <= a < 2 ^ n -> Z.lor a (c * 2 ^ n) = a + c * 2 ^ n.
Proof.
  intros Hn Ha. rewrite <- Z.lxor_lor by now apply land_disjoint.
  now apply lxor_disjoint.
Qed.

Lemma shifted_byte (b : byte) (j : Z) :
  0 <= j <= 3 ->
  u32 (Z.shiftl (Z.of_N (Byte.to_N b)) (8 * j)) = Z.of_N (Byte.to_N b) * 2 ^ (8 * j).
Proof.
  intros Hj. pose proof (byte_bounds b) as Hb.
  rewrite Z.shiftl_mul_pow2 by lia.
  unfold u32. apply Z.mod_small.
  assert (2 ^ (8 * j) <= 2 ^ 24) by (apply Z.pow_le_mono_r; lia).
  assert (0 < 2 ^ (8 * j)) by (apply Z.pow_pos_nonneg; lia).
  change (2 ^ 32) with (256 * 2 ^ 24). nia.
Qed.

Lemma xor_bytes_little_endian (w : Z) (b0 b1 b2 b3 : byte) :
  Z.lxor (Z.lxor (Z.lxor (Z.lxor w
    (u32 (Z.shiftl (Z.of_N (Byte.to_N b0)) (8 * 0))))
    (u32 (Z.shiftl (Z.of_N (Byte.to_N b1)) (8 * 1))))
    (u32 (Z.shiftl (Z.of_N (Byte.to_N b2)) (8 * 2))))
    (u32 (Z.shiftl (Z.of_N (Byte.to_N b3)) (8 * 3)))
  = Z.lxor w (little_endian [b0; b1; b2; b3]).
Proof.
  rewrite !shifted_byte by lia.
  pose proof (byte_bounds b0). pose proof (byte_bounds b1).
  pose proof (byte_bounds b2). pose proof (byte_bounds b3).
  rewrite !Z.lxor_assoc. f_equal. rewrite <- !Z.lxor_assoc.
  change (8 * 0) with 0. change (8 * 1) with 8.
  change (8 * 2) with 16. change (8 * 3) with 24.
  rewrite Z.pow_0_r, Z.mul_1_r.
  rewrite (lxor_disjoint _ _ 8) by lia.
  rewrite (lxor_disjoint _ _ 16) by lia.
  rewrite (lxor_disjoint _ _ 24) by lia.
  cbn [little_endian]. lia.
Qed.

(** The four passes of the inner loop of [absorb] on one chunk. *)
Lemma absorb_chunk (byte_array : list byte) (i : nat) (state : list Z)
    (b0 b1 b2 b3 : byte) (w : Z) :
  byte_array !! i = Some b0 ->
  byte_array !! (i + 1)%nat = Some b1 ->
  byte_array !! (i + 2)%nat = Some b2 ->
  byte_array !! (i + 3)%nat = Some b3 ->
  state !! (i / 4)%nat = Some w ->
  for_range_opt 0 4 1
    (fun j state =>
       b ← byte_array !! (i + j)%nat;
       w ← state !! (i / 4)%nat;
       Some (<[(i / 4)%nat :=
                 Z.lxor w (u32 (Z.shiftl (Z.of_N (Byte.to_N b))
                                         (8 * Z.of_nat j)))]> state))
    state
  = Some (xor_at (i / 4) (little_endian [b0; b1; b2; b3]) state).
Proof.
  intros H0 H1 H2 H3 Hw.
  apply lookup_lt_Some in Hw as Hlt.
  unfold for_range_opt.
  change (4 - 0)%nat with 4%nat.
  cbn [for_from_opt Nat.ltb Nat.leb Nat.add].
  rewrite Nat.add_0_r, H0, H1, H2, H3. cbn [mbind option_bind].
  rewrite Hw. cbn [mbind option_bind].
  rewrite list_lookup_insert_eq by lia. cbn [mbind option_bind].
  rewrite list_lookup_insert_eq by (rewrite length_insert; lia).
  cbn [mbind option_bind].
  rewrite list_lookup_insert_eq by (rewrite !length_insert; lia).
  cbn [mbind option_bind].
  rewrite !list_insert_insert_eq.
  unfold xor_at. rewrite (list_lookup_total_correct _ _ _ Hw).
  do 2 f_equal.
  apply xor_bytes_little_endian.
Qed.

Lemma absorb_loop_from :
  forall (m : nat) (done rest : list byte) (count c : nat) (state : list Z),
    length rest = (4 * m)%nat ->
    length done = (4 * c)%nat ->
    (c + m <= length state)%nat ->
    (m <= count)%nat ->
    for_from_opt count (4 * c) (length (done ++ rest)) 4
      (fun i state =>
         for_range_opt 0 4 1
           (fun j state =>
              b ← (done ++ rest) !! (i + j)%nat;
              w ← state !! (i / 4)%nat;
              Some (<[(i / 4)%nat :=
                        Z.lxor w (u32 (Z.shiftl (Z.of_N (Byte.to_N b))
                                                (8 * Z.of_nat j)))]> state))
           state)
      state
    = Some (xor_words (words_of rest) c state).
Proof.
  induction m as [|m IH]; intros done rest count c state Hrest Hdone Hc Hcount.
  - destruct rest; [|discriminate].
    rewrite app_nil_r, Hdone.
    destruct count; [reflexivity|].
    cbn [for_from_opt]. rewrite Nat.ltb_irrefl. reflexivity.
  - destruct rest as [|b0 [|b1 [|b2 [|b3 rest]]]]; simpl in Hrest; try lia.
    destruct count as [|count]; [lia|].
    cbn [for_from_opt].
    rewrite (proj2 (Nat.ltb_lt _ _))
      by (rewrite length_app, Hdone; simpl; lia).
    assert (Hdiv : (4 * c / 4 = c)%nat)
      by (rewrite Nat.mul_comm; apply Nat.div_mul; lia).
    destruct (lookup_lt_is_Some_2 state c ltac:(lia)) as [w Hw].
    rewrite (absorb_chunk _ _ _ b0 b1 b2 b3 w).
    + cbn [mbind option_bind].
      replace (4 * c + 4)%nat with (4 * S c)%nat by lia.
      replace (done ++ b0 :: b1 :: b2 :: b3 :: rest)
        with ((done ++ [b0; b1; b2; b3]) ++ rest)
        by (rewrite <- app_assoc; reflexivity).
      rewrite Hdiv.
      rewrite IH.
      * reflexivity.
      * lia.
      * rewrite length_app, Hdone. simpl. lia.
      * unfold xor_at. rewrite length_insert. lia.
      * lia.
    + rewrite lookup_app_r by lia.
      replace (4 * c - length done)%nat with 0%nat by lia. reflexivity.
    + rewrite lookup_app_r by lia.
      replace (4 * c + 1 - length done)%nat with 1%nat by lia. reflexivity.
    + rewrite lookup_app_r by lia.
      replace (4 * c + 2 - length done)%nat with 2%nat by lia. reflexivity.
    + rewrite lookup_app_r by lia.
      replace (4 * c + 3 - length done)%nat with 3%nat by lia. reflexivity.
    + rewrite Hdiv. exact Hw.
Qed.

Lemma absorb_loop_words (byte_array : list byte) (m : nat) (state : list Z) :
  length byte_array = (4 * m)%nat ->
  (m <= length state)%nat ->
  Sparkle512core.absorb_loop byte_array state
  = Some (xor_words (words_of byte_array) 0 state).
Proof.
  intros Hlen Hm. unfold Sparkle512core.absorb_loop, for_range_opt.
  rewrite Nat.sub_0_r.
  apply (absorb_loop_from m [] byte_array (length byte_array) 0 state);
    simpl; lia.
Qed.

(** ** The state keeps its sixteen words *)

Lemma for_from_invariant {S : Type} (P : S -> Prop) (body : nat -> S -> S) :
  (forall j s, P s -> P (body j s)) ->
  forall (count j stop step : nat) (s : S),
    P s -> P (for_from count j stop step body s).
Proof.
  intros Hbody. induction count as [|count IH]; intros j stop step s Hs; simpl;
    [exact Hs|].
  destruct (j <? stop)%nat; [|exact Hs]. apply IH, Hbody, Hs.
Qed.

Lemma length_arxbox (j : nat) (state : list Z) :
  length (arxbox j state) = length state.
Proof. unfold arxbox, add_at, xor_at. now rewrite !length_insert. Qed.

Lemma length_round (i : nat) (state : list Z) :
  length (Sparkle512core.round i state) = length state.
Proof.
  unfold Sparkle512core.round.
  match goal with
  | |- context [let '(tmpx, tmpy) := ?p in _] => destruct p as [tmpx tmpy]
  end.
  unfold set_at. rewrite !length_insert.
  unfold for_range.
  rewrite (for_from_invariant
             (fun s => length s = length state)); [reflexivity| |].
  - intros j s Hs. now rewrite !length_insert.
  - apply (for_from_invariant (fun s => length s = length state)).
    + intros j s Hs. now rewrite length_arxbox.
    + unfold xor_at. now rewrite !length_insert.
Qed.

Lemma length_rounds (steps : Z) (state : list Z) :
  length (Sparkle512core.rounds steps state) = length state.
Proof.
  unfold Sparkle512core.rounds, for_range.
  apply (for_from_invariant (fun s => length s = length state));
    [|reflexivity].
  intros j s Hs. now rewrite length_round.
Qed.

(** ** Squeezing *)

Lemma length_squeezed (state : list Z) (u : nat) :
  length (squeezed state u) = u.
Proof. unfold squeezed. now rewrite length_map, length_seq. Qed.

Lemma length_filled (state : list Z) (u : nat) (tank : list bool) :
  (u <= length tank)%nat -> length (filled state u tank) = length tank.
Proof.
  intros Hu. unfold filled.
  rewrite length_app, length_squeezed, length_drop. lia.
Qed.

Lemma filled_step (state : list Z) (u : nat) (tank : list bool) :
  (u < length tank)%nat ->
  <[u := squeezed_unit state u]> (filled state u tank) = filled state (S u) tank.
Proof.
  intros Hu. unfold filled.
  destruct (lookup_lt_is_Some_2 tank u Hu) as [y Hy].
  rewrite (drop_S _ _ _ Hy).
  rewrite insert_app_r_alt by (rewrite length_squeezed; lia).
  rewrite length_squeezed, Nat.sub_diag. cbn [insert list_insert].
  unfold squeezed. rewrite seq_S, map_app, <- app_assoc. reflexivity.
Qed.

Lemma squeeze_word (state : list Z) (tank0 : list bool) (a : nat) (w : Z) :
  state !! a = Some w ->
  (32 * a + 32 <= length tank0)%nat ->
  forall (count j : nat),
    (j <= 32)%nat -> (32 - j <= count)%nat ->
    for_from_opt count j 32 1
      (fun j tank =>
         w ← state !! (32 * a / 32)%nat;
         if (32 * a + j <? length tank)%nat
         then Some (<[(32 * a + j)%nat :=
                        __builtin_parityll (Z.shiftr w (Z.of_nat j))]> tank)
         else None)
      (filled state (32 * a + j) tank0)
    = Some (filled state (32 * a + 32) tank0).
Proof.
  intros Hw Hlen.
  assert (Hdiv : (32 * a / 32 = a)%nat)
    by (rewrite Nat.mul_comm; apply Nat.div_mul; lia).
  rewrite Hdiv, Hw. cbn [mbind option_bind].
  induction count as [|count IH]; intros j Hj Hcount.
  - replace j with 32%nat by lia. reflexivity.
  - cbn [for_from_opt].
    destruct (Nat.ltb_spec j 32) as [Hlt|Hge].
    + rewrite length_filled by lia.
      rewrite (proj2 (Nat.ltb_lt _ _)) by lia.
      cbn [mbind option_bind].
      replace (__builtin_parityll (Z.shiftr w (Z.of_nat j)))
        with (squeezed_unit state (32 * a + j)).
      * rewrite filled_step by lia.
        replace (S (32 * a + j)) with (32 * a + (j + 1))%nat by lia.
        apply IH; lia.
      * unfold squeezed_unit.
        replace ((32 * a + j) / 32)%nat with a
          by (apply Nat.div_unique with j; lia).
        replace ((32 * a + j) mod 32)%nat with j
          by (apply Nat.mod_unique with a; lia).
        now rewrite (list_lookup_total_correct _ _ _ Hw).
    + replace j with 32%nat by lia. reflexivity.
Qed.

Lemma squeeze_loop_from (state : list Z) (tank0 : list bool) (m : nat) :
  length tank0 = (32 * m)%nat ->
  (m <= length state)%nat ->
  forall (count a : nat),
    (a <= m)%nat -> (m - a <= count)%nat ->
    for_from_opt count (32 * a) (32 * m) 32
      (fun i tank =>
         let k := (i / 32)%nat in
         tmp ← state !! k;
         for_range_opt 0 32 1
           (fun j tank =>
              w ← state !! k;
              if (i + j <? length tank)%nat
              then Some (<[(i + j)%nat :=
                             __builtin_parityll (Z.shiftr w (Z.of_nat j))]> tank)
              else None)
           tank)
      (filled state (32 * a) tank0)
    = Some (filled state (32 * m) tank0).
Proof.
  intros Hlen Hm.
  induction count as [|count IH]; intros a Ha Hcount.
  - replace a with m by lia. reflexivity.
  - cbn [for_from_opt].
    destruct (Nat.ltb_spec (32 * a) (32 * m)) as [Hlt|Hge].
    + destruct (lookup_lt_is_Some_2 state a ltac:(lia)) as [w Hw].
      cbv zeta.
      replace (state !! (32 * a / 32)%nat) with (Some w)
        by (rewrite Nat.mul_comm, Nat.div_mul by lia; now rewrite Hw).
      cbn [mbind option_bind]. unfold for_range_opt.
      change (32 - 0)%nat with 32%nat.
      pose proof (squeeze_word state tank0 a w Hw ltac:(lia) 32 0
                    ltac:(lia) ltac:(lia)) as Hinner.
      rewrite Nat.add_0_r in Hinner.
      replace (state !! (32 * a / 32)%nat) with (Some w) in Hinner
        by (rewrite Nat.mul_comm, Nat.div_mul by lia; now rewrite Hw).
      cbn [mbind option_bind] in Hinner.
      rewrite Hinner. cbn [mbind option_bind].
      replace (32 * a + 32)%nat with (32 * S a)%nat by lia.
      apply IH; lia.
    + replace a with m by lia. reflexivity.
Qed.

Lemma squeeze_loop_squeezed (state : list Z) (tank : list bool) (m : nat) :
  length tank = (32 * m)%nat ->
  (m <= length state)%nat ->
  Sparkle512core.squeeze_loop state tank = Some (squeezed state (length tank)).
Proof.
  intros Hlen Hm. unfold Sparkle512core.squeeze_loop, for_range_opt.
  rewrite Nat.sub_0_r.
  pose proof (squeeze_loop_from state tank m Hlen Hm (length tank) 0
                ltac:(lia) ltac:(lia)) as H.
  rewrite Nat.mul_0_r in H. change (filled state 0 tank) with tank in H.
  rewrite <- Hlen in H. etransitivity; [exact H|].
  unfold filled. now rewrite drop_all, app_nil_r.
Qed.

Lemma squeeze_squeezed (g : Sparkle512core.t) (m : nat) :
  length (Sparkle512core.entropy_tank g) = (32 * m)%nat ->
  (m <= length (Sparkle512core.state g))%nat ->
  Sparkle512core._squeeze g
  = Ok tt (Sparkle512core.Build (Sparkle512core.steps g)
             (Sparkle512core.state g)
             (squeezed (Sparkle512core.state g)
                (length (Sparkle512core.entropy_tank g))) 0).
Proof.
  intros Hlen Hm. unfold Sparkle512core._squeeze.
  now rewrite (squeeze_loop_squeezed _ _ m Hlen Hm).
Qed.

Lemma length_padded (data : list byte) :
  (length data <= 48)%nat -> length (zero_pad block_width data) = 48%nat.
Proof.
  intros H. unfold zero_pad, block_width.
  rewrite length_app, length_replicate. lia.
Qed.





(** Between 48 bytes and the state width, data that is no whole number of
    words makes the core read past its end: no padding reaches it. *)
Lemma absorb_reads_past_unpadded :
  SparkleRG.absorb (replicate 49 xff) example_fresh = Undefined.
Proof. vm_compute. reflexivity. Qed.

(** ** What the calls reject *)

Lemma squeeze_never_raises (g : Sparkle512core.t) e g' :
  Sparkle512core._squeeze g <> Raise e g'.
Proof.
  unfold Sparkle512core._squeeze.
  destruct (Sparkle512core.squeeze_loop _ _); discriminate.
Qed.

Lemma core_absorb_never_raises (byte_array : list byte) (g : Sparkle512core.t)
    e g' :
  Sparkle512core.absorb byte_array g <> Raise e g'.
Proof.
  unfold Sparkle512core.absorb.
  destruct (Sparkle512core.absorb_loop _ _); [|discriminate].
  apply squeeze_never_raises.
Qed.

(** The guard of [EschRG._absorb_block]. *)
Lemma absorb_block_guard (x : list byte) (self : EschRG.t) :
  (31 < length x)%nat ->
  EschRG._absorb_block (EschRG.of_bytes x) self
  = Raise (Exception "block is too big, max length is 31 bytes") self.
Proof.
  intros H. unfold EschRG._absorb_block. cbn [EschRG.to_absorb_of].
  now rewrite (proj2 (Nat.ltb_lt _ _)) by exact H.
Qed.

(** C6 against the code: neither wrapper checks the length of the payload.
    No payload makes [SparkleRG.absorb] raise; 64 bytes, four more than the
    state less its reserved word, are absorbed and the call returns; 61 bytes
    make the core read past the end of the vector.  The wrapper of
    sparklyRG.org pads 61 bytes to 64 and returns as well. *)
Theorem absorb_accepts_oversized :
  (forall x g e g', SparkleRG.absorb x g <> Raise e g')
  /\ (forall x g e g', Wrapper.absorb x g <> Raise e g')
  /\ (exists g', SparkleRG.absorb (replicate 64 xff) example_fresh = Ok tt g')
  /\ SparkleRG.absorb (replicate 61 xff) example_fresh = Undefined
  /\ (exists g', Wrapper.absorb (replicate 61 xff) example_fresh = Ok tt g').
Proof.
  split; [|split; [|split; [|split]]].
  - intros x g e g'. apply core_absorb_never_raises.
  - intros x g e g'. apply core_absorb_never_raises.
  - eexists. vm_compute. reflexivity.
  - vm_compute. reflexivity.
  - eexists. vm_compute. reflexivity.
Qed.

(** C7 fails on the core as constructed: [absorb] of a padded block before
    [setup] returns. *)
Lemma absorb_before_setup_returns :
  ~ absorb_before_setup_fails (zero_pad block_width seed).
Proof. intros (e & g' & H). vm_compute in H. discriminate. Qed.

(** C7, amended: the core has no configuration check.  [absorb] before
    [setup] returns: with zero steps the permutation changes nothing, so the
    state is the data XORed into the zero state with 3 in the last word, and
    the tank stays empty.  [setup] accepts every step count and output rate,
    zero included, and the constructor of [SparkleRG] always calls it. *)
Theorem no_configuration_check :
  (forall byte_array c,
      length byte_array = (4 * c)%nat -> (c <= 16)%nat ->
      Sparkle512core.absorb byte_array Sparkle512core.new
      = Ok tt (Sparkle512core.Build 0
                 (xor_at 15 2
                    (xor_words (words_of byte_array) 0
                       (xor_at 15 1 (replicate 16 0))))
                 [] 0))
  /\ (forall steps output_rate g,
        Sparkle512core.setup steps output_rate g
        = Ok tt (Sparkle512core.Build steps (Sparkle512core.state g)
                   (replicate output_rate false)
                   (Sparkle512core.entropy_cursor g)))
  /\ (forall steps output_rate,
        0 <= steps < 2 ^ 32 -> 0 <= output_rate < 2 ^ 32 ->
        SparkleRG.__init__ steps output_rate
        = Ok tt (Sparkle512core.Build steps (replicate 16 0)
                   (replicate (Z.to_nat output_rate) false) 0)).
Proof.
  split; [|split].
  - intros byte_array c Hlen Hc.
    unfold Sparkle512core.absorb.
    change (2 * Sparkle512core.N_BRANCHES - 1)%nat with 15%nat.
    change (Sparkle512core.state Sparkle512core.new) with (replicate 16 0).
    rewrite (absorb_loop_words _ c)
      by (try assumption; unfold xor_at; rewrite length_insert; simpl; lia).
    reflexivity.
  - reflexivity.
  - intros steps output_rate Hs Hr. unfold SparkleRG.__init__.
    rewrite (proj2 (fits_unsigned_spec 64 steps)) by lia.
    rewrite (proj2 (fits_unsigned_spec 64 output_rate)) by lia.
    unfold u32. now rewrite !Z.mod_small by lia.
Qed.

Lemma no_configuration_check_witness :
  Sparkle512core.absorb [] Sparkle512core.new
  = Ok tt (Sparkle512core.Build 0 (replicate 15 0 ++ [3]) [] 0)
  /\ SparkleRG.__init__ 0 0
     = Ok tt (Sparkle512core.Build 0 (replicate 16 0) [] 0).
Proof.
  destruct no_configuration_check as (Habsorb & _ & Hinit).
  split.
  - apply (Habsorb [] 0%nat); [reflexivity | lia].
  - apply (Hinit 0 0); lia.
Defined.

(** C8: [get_bits(n)] with [n > 64] and [get_uniform(lower, upper)] with
    [upper <= lower] raise at the call and leave the generator as it was, so
    that the calls that follow run as if the rejected one had not been
    made. *)
Theorem rejected_calls_leave_generator (g : SparkleRG.t) :
  (forall n,
      64 < n ->
      SparkleRG.get_n_bit_unsigned_integer n g
      = Raise (Exception "Cannot return integers more than 64-bit long") g)
  /\ (forall fuel lower upper,
        upper <= lower ->
        SparkleRG.__call__ fuel lower upper g
        = Raise (Exception "`upper` must be strictly higher than `lower`") g)
  /\ (forall fuel c calls,
        match c with
        | sample_bits n => 64 < n
        | sample_uniform lower upper => upper <= lower
        end ->
        exists e,
          run_call fuel c g = Raise e g
          /\ run_calls fuel (c :: calls) g
             = bind (run_calls fuel calls g)
                 (fun trace g' => Ok ((Raised e, g) :: trace) g')).
Proof.
  assert (Hbits : forall n, 64 < n ->
            SparkleRG.get_n_bit_unsigned_integer n g
            = Raise (Exception "Cannot return integers more than 64-bit long") g).
  { intros n Hn. unfold SparkleRG.get_n_bit_unsigned_integer.
    now rewrite (proj2 (Z.ltb_lt _ _)) by exact Hn. }
  assert (Hcall : forall fuel lower upper, upper <= lower ->
            SparkleRG.__call__ fuel lower upper g
            = Raise (Exception "`upper` must be strictly higher than `lower`") g).
  { intros fuel lower upper Hle. unfold SparkleRG.__call__.
    now rewrite (proj2 (Z.leb_le _ _)) by exact Hle. }
  split; [exact Hbits|]. split; [exact Hcall|].
  intros fuel c calls Hc. destruct c as [n|lower upper].
  - eexists. split; [apply Hbits, Hc|].
    cbn [run_calls run_call]. now rewrite Hbits by exact Hc.
  - eexists. split; [apply Hcall, Hc|].
    cbn [run_calls run_call]. now rewrite Hcall by exact Hc.
Qed.

Lemma rejected_calls_leave_generator_witness :
  SparkleRG.get_n_bit_unsigned_integer 65 example_seeded
  = Raise (Exception "Cannot return integers more than 64-bit long")
      example_seeded
  /\ SparkleRG.__call__ 10 5 5 example_seeded
     = Raise (Exception "`upper` must be strictly higher than `lower`")
         example_seeded
  /\ SparkleRG.__call__ 10 5 3 example_seeded
     = Raise (Exception "`upper` must be strictly higher than `lower`")
         example_seeded.
Proof.
  destruct (rejected_calls_leave_generator example_seeded) as (Hbits & Hcall & _).
  split; [apply Hbits; lia|].
  split; apply Hcall; lia.
Defined.

(** ** The bound on the rejection loop

    The bound is a device of the model: a run that completes does not depend
    on it. *)

Lemma bind_timeout {G A B : Type} (r : outcome G A) (k : A -> G -> outcome G B) :
  bind r k <> Timeout -> r <> Timeout.
Proof. intros H Hr. apply H. now rewrite Hr. Qed.

Lemma rejection_loop_mono :
  forall (fuel fuel' : nat) (b range : Z) (g : Sparkle512core.t),
    (fuel <= fuel')%nat ->
    Sparkle512core.rejection_loop fuel b range g <> Timeout ->
    Sparkle512core.rejection_loop fuel' b range g
    = Sparkle512core.rejection_loop fuel b range g.
Proof.
  induction fuel as [|fuel IH]; intros fuel' b range g Hle Hdone.
  - now contradiction Hdone.
  - destruct fuel' as [|fuel']; [lia|].
    cbn [Sparkle512core.rejection_loop] in *.
    destruct (Sparkle512core.get_n_bit_unsigned_integer (Z.to_nat b) g)
      as [output g1| | |]; try reflexivity.
    cbn [bind] in *.
    destruct (range <=? output); [|reflexivity].
    apply IH; [lia|exact Hdone].
Qed.

Section MoreFuel.

Variables fuel fuel' : nat.
Hypothesis Hfuel : (fuel <= fuel')%nat.

Lemma in_range_mono (lower upper : Z) (g : Sparkle512core.t) :
  Sparkle512core.get_unsigned_integer_in_range fuel lower upper g <> Timeout ->
  Sparkle512core.get_unsigned_integer_in_range fuel' lower upper g
  = Sparkle512core.get_unsigned_integer_in_range fuel lower upper g.
Proof.
  intros Hdone. unfold Sparkle512core.get_unsigned_integer_in_range in *.
  destruct (Sparkle512core.bit_length_of lower upper) as [b|]; [|reflexivity].
  apply bind_timeout in Hdone.
  now rewrite (rejection_loop_mono fuel fuel') by assumption.
Qed.

Lemma run_call_mono (c : call) (g : SparkleRG.t) :
  run_call fuel c g <> Timeout ->
  run_call fuel' c g = run_call fuel c g.
Proof.
  intros Hdone. destruct c as [n|lower upper]; [reflexivity|].
  cbn [run_call] in *. unfold SparkleRG.__call__ in *.
  destruct (upper <=? lower); [reflexivity|].
  destruct (fits_unsigned 64 lower && fits_unsigned 64 upper); [|reflexivity].
  now apply in_range_mono.
Qed.

Lemma run_calls_mono :
  forall (calls : list call) (g : SparkleRG.t),
    run_calls fuel calls g <> Timeout ->
    run_calls fuel' calls g = run_calls fuel calls g.
Proof.
  induction calls as [|c calls IH]; intros g Hdone; [reflexivity|].
  cbn [run_calls] in *.
  assert (Hc : run_call fuel c g <> Timeout).
  { intros Hc. rewrite Hc in Hdone. now apply Hdone. }
  rewrite run_call_mono by assumption.
  destruct (run_call fuel c g) as [v g1|e g1| |]; try reflexivity.
  - apply bind_timeout in Hdone. now rewrite IH.
  - apply bind_timeout in Hdone. now rewrite IH.
Qed.

Lemma session_mono (steps output_rate : Z)
    (blocks : list (list byte)) (calls : list call) :
  session fuel steps output_rate blocks calls <> Timeout ->
  session fuel' steps output_rate blocks calls
  = session fuel steps output_rate blocks calls.
Proof.
  intros Hdone. unfold session in *.
  destruct (SparkleRG.__init__ steps output_rate) as [[] g| | |];
    try reflexivity.
  cbn [bind] in *.
  destruct (absorb_all blocks g) as [seeded g1| | |]; try reflexivity.
  cbn [bind] in *. apply bind_timeout in Hdone.
  now rewrite run_calls_mono by assumption.
Qed.

End MoreFuel.

(** ** Fixed bit-length outputs *)

Lemma accumulate_bounds (bits : list bool) :
  0 <= accumulate bits < 2 ^ Z.of_nat (length bits).
Proof.
  induction bits as [|b bits IH]; [simpl; lia|].
  cbn [accumulate length]. rewrite Nat2Z.inj_succ, Z.pow_succ_r by lia.
  destruct b; simpl Z.b2z; lia.
Qed.

Lemma accumulate_testbit (bits : list bool) (i : nat) :
  Z.testbit (accumulate bits) (Z.of_nat i) = default false (bits !! i).
Proof.
  revert i. induction bits as [|b bits IH]; intros i.
  - simpl. rewrite Z.bits_0. now destruct i.
  - cbn [accumulate]. rewrite Z.add_comm. destruct i as [|i].
    + apply Z.testbit_0_r.
    + rewrite Nat2Z.inj_succ, Z.testbit_succ_r by lia. apply IH.
Qed.

Lemma lor_pow2 (result : Z) (i : Z) :
  0 <= i -> 0 <= result < 2 ^ i ->
  Z.lor result (2 ^ i) = result + 2 ^ i.
Proof.
  intros Hi Hr. rewrite <- (Z.mul_1_l (2 ^ i)). now apply lor_disjoint.
Qed.

Lemma get_bits_loop_consume :
  forall (count i : nat) (result : Z) (g : Sparkle512core.t),
    (i + count <= 31)%nat ->
    0 <= result < 2 ^ Z.of_nat i ->
    Sparkle512core.get_bits_loop count i result g
    = bind (consume count g)
        (fun bits g' => Ok (result + 2 ^ Z.of_nat i * accumulate bits) g').
Proof.
  induction count as [|count IH]; intros i result g Hi Hr.
  - cbn [Sparkle512core.get_bits_loop consume bind accumulate].
    f_equal. lia.
  - cbn [Sparkle512core.get_bits_loop consume].
    destruct (Sparkle512core.refill g) as [[] g1| | |]; try reflexivity.
    cbn [bind].
    destruct (Sparkle512core.entropy_tank g1
              !! Sparkle512core.entropy_cursor g1) as [unit_bit|];
      [|reflexivity].
    assert (Hpow : 2 ^ Z.of_nat (i + 1) = 2 * 2 ^ Z.of_nat i)
      by (rewrite Nat2Z.inj_add, Z.pow_add_r by lia; lia).
    destruct unit_bit.
    + unfold int_one_shl. rewrite (proj2 (Nat.ltb_lt _ _)) by lia.
      unfold u64. rewrite (Z.mod_small (2 ^ Z.of_nat i)).
      * rewrite lor_pow2 by lia.
        rewrite IH by lia.
        destruct (consume count (Sparkle512core.advance g1)) as [bits g2| | |];
          try reflexivity.
        cbn [bind accumulate Z.b2z]. f_equal. lia.
      * split; [apply Z.pow_nonneg; lia|].
        apply Z.pow_lt_mono_r; lia.
    + rewrite IH by lia.
      destruct (consume count (Sparkle512core.advance g1)) as [bits g2| | |];
        try reflexivity.
      cbn [bind accumulate Z.b2z]. f_equal. lia.
Qed.

Lemma length_consume :
  forall (n : nat) (g : Sparkle512core.t) bits g',
    consume n g = Ok bits g' -> length bits = n.
Proof.
  induction n as [|n IH]; intros g bits g' H; cbn [consume] in H.
  - now inversion H.
  - destruct (Sparkle512core.refill g) as [[] g1| | |]; try discriminate.
    cbn [bind] in H.
    destruct (Sparkle512core.entropy_tank g1
              !! Sparkle512core.entropy_cursor g1) as [unit_bit|];
      [|discriminate].
    destruct (consume n (Sparkle512core.advance g1)) as [bits1 g2| | |] eqn:Hc;
      try discriminate.
    cbn [bind] in H. inversion H; subst. simpl. f_equal. eapply IH, Hc.
Qed.

(** Up to 31 bits the accumulator is what section 4.3 describes: bit [i] is
    the [i]-th unit consumed, the bits from [n] on are zero. *)
Lemma get_bits_up_to_31 (n : nat) (g : Sparkle512core.t) :
  (n <= 31)%nat ->
  Sparkle512core.get_n_bit_unsigned_integer n g
  = bind (consume n g) (fun bits g' => Ok (accumulate bits) g').
Proof.
  intros Hn. unfold Sparkle512core.get_n_bit_unsigned_integer.
  rewrite get_bits_loop_consume by (simpl; lia).
  destruct (consume n g); try reflexivity.
  cbn [bind]. f_equal. simpl (2 ^ Z.of_nat 0). lia.
Qed.

Lemma get_bits_loop_32 :
  forall (count i : nat) (result : Z) (g : Sparkle512core.t),
    (i + count = 32)%nat -> (1 <= count)%nat ->
    0 <= result < 2 ^ Z.of_nat i ->
    Sparkle512core.get_bits_loop count i result g
    = bind (consume count g)
        (fun bits g' =>
           Ok (sign_extended (result + 2 ^ Z.of_nat i * accumulate bits)) g').
Proof.
  induction count as [|count IH]; intros i result g Hi Hcount Hr; [lia|].
  - cbn [Sparkle512core.get_bits_loop consume].
    destruct (Sparkle512core.refill g) as [[] g1| | |]; try reflexivity.
    cbn [bind].
    destruct (Sparkle512core.entropy_tank g1
              !! Sparkle512core.entropy_cursor g1) as [unit_bit|];
      [|reflexivity].
    assert (Hpow : 2 ^ Z.of_nat (i + 1) = 2 * 2 ^ Z.of_nat i)
      by (rewrite Nat2Z.inj_add, Z.pow_add_r by lia; lia).
    destruct unit_bit.
    + destruct (Nat.eq_dec i 31%nat) as [->|Hne].
      * replace count with 0%nat by lia.
        change (Z.of_nat 31) with 31 in *.
        cbn [int_one_shl Nat.ltb Nat.leb Nat.eqb
             Sparkle512core.get_bits_loop consume bind accumulate Z.b2z].
        change (u64 (- 2 ^ 31)) with ((2 ^ 33 - 1) * 2 ^ 31).
        rewrite lor_disjoint by lia.
        unfold sign_extended. f_equal.
        rewrite (proj2 (Z.ltb_ge _ _)) by lia. lia.
      * unfold int_one_shl. rewrite (proj2 (Nat.ltb_lt _ _)) by lia.
        unfold u64. rewrite (Z.mod_small (2 ^ Z.of_nat i)).
        -- rewrite lor_pow2 by lia.
           rewrite IH by lia.
           destruct (consume count (Sparkle512core.advance g1))
             as [bits g2| | |]; try reflexivity.
           cbn [bind accumulate Z.b2z]. do 2 f_equal. lia.
        -- split; [apply Z.pow_nonneg; lia|].
           apply Z.pow_lt_mono_r; lia.
    + destruct (Nat.eq_dec i 31%nat) as [->|Hne].
      * replace count with 0%nat by lia.
        change (Z.of_nat 31) with 31 in *.
        cbn [Sparkle512core.get_bits_loop consume bind accumulate Z.b2z].
        unfold sign_extended. f_equal.
        rewrite (proj2 (Z.ltb_lt _ _)) by lia. lia.
      * rewrite IH by lia.
        destruct (consume count (Sparkle512core.advance g1))
          as [bits g2| | |]; try reflexivity.
        cbn [bind accumulate Z.b2z]. do 2 f_equal. lia.
Qed.

(** With 32 bits the accumulator is the value of the 32 units consumed,
    sign-extended: whenever the last unit is 1 the bits 32 to 63 come out
    set. *)
Lemma get_32_bits_sign_extended (g : Sparkle512core.t) :
  Sparkle512core.get_n_bit_unsigned_integer 32 g
  = bind (consume 32 g) (fun bits g' => Ok (sign_extended (accumulate bits)) g').
Proof.
  unfold Sparkle512core.get_n_bit_unsigned_integer.
  rewrite (get_bits_loop_32 32 0 0 g) by (simpl; lia).
  destruct (consume 32 g); try reflexivity.
  cbn [bind]. do 2 f_equal. simpl (2 ^ Z.of_nat 0). lia.
Qed.

(** C3 against the code, on the generator seeded with [b"seed"]: 31 bits are
    returned as described; with 32 bits the last unit consumed is 1 and
    [1 << 31], an [int], reaches the accumulator sign-extended, so that its
    bits 32 to 63 are all ones; from 33 bits on the next unit is 1 and the
    shift has no defined value. *)
Theorem get_bits_past_31 :
  SparkleRG.get_n_bit_unsigned_integer 31 example_seeded
  = Ok 0x4D928CF6 (Nat.iter 31 Sparkle512core.advance example_seeded)
  /\ SparkleRG.get_n_bit_unsigned_integer 32 example_seeded
     = Ok 0xFFFFFFFFCD928CF6 (Nat.iter 32 Sparkle512core.advance example_seeded)
  /\ (exists bits,
        consume 32 example_seeded
        = Ok bits (Nat.iter 32 Sparkle512core.advance example_seeded)
        /\ accumulate bits = 0xCD928CF6)
  /\ Z.shiftr 0xFFFFFFFFCD928CF6 32 = 0xFFFFFFFF
  /\ SparkleRG.get_n_bit_unsigned_integer 33 example_seeded = Undefined
  /\ SparkleRG.get_n_bit_unsigned_integer 64 example_seeded = Undefined.
Proof.
  split; [vm_compute; reflexivity|].
  split; [vm_compute; reflexivity|].
  split.
  { exists (take 32 (Sparkle512core.entropy_tank example_seeded)).
    split; vm_compute; reflexivity. }
  split; [reflexivity|].
  split; vm_compute; reflexivity.
Qed.

(** ** Bookkeeping of the tank *)

Lemma set_up_spec (g : Sparkle512core.t) :
  set_up g = true <->
  length (Sparkle512core.state g) = 16%nat
  /\ (exists m, (1 <= m <= 16)%nat
                /\ length (Sparkle512core.entropy_tank g) = (32 * m)%nat)
  /\ (Sparkle512core.entropy_cursor g
      <= length (Sparkle512core.entropy_tank g))%nat.
Proof.
  unfold set_up.
  rewrite !andb_true_iff, !Nat.eqb_eq, !Nat.leb_le.
  split.
  - intros ((((Hs & Hmod) & H1) & H512) & Hc).
    split; [exact Hs|]. split; [|exact Hc].
    exists (length (Sparkle512core.entropy_tank g) / 32)%nat.
    pose proof (Nat.div_mod_eq (length (Sparkle512core.entropy_tank g)) 32).
    lia.
  - intros (Hs & (m & Hm & Hlen) & Hc).
    rewrite Hlen in *.
    repeat split; try lia.
    rewrite Nat.mul_comm. apply Nat.Div0.mod_mul.
Qed.

Lemma lookup_squeezed (state : list Z) (capacity u : nat) :
  (u < capacity)%nat ->
  squeezed state capacity !! u = Some (squeezed_unit state u).
Proof.
  intros Hu. unfold squeezed.
  rewrite list_lookup_fmap, lookup_seq_lt by exact Hu. reflexivity.
Qed.

(** The generator before the read of a unit. *)
Lemma refill_set_up (g : Sparkle512core.t) :
  set_up g = true ->
  Sparkle512core.refill g
  = Ok tt
      (if (Sparkle512core.entropy_cursor g
           =? length (Sparkle512core.entropy_tank g))%nat
       then
         let state :=
           Sparkle512core.rounds (Sparkle512core.steps g)
             (Sparkle512core.state g) in
         Sparkle512core.Build (Sparkle512core.steps g) state
           (squeezed state (length (Sparkle512core.entropy_tank g))) 0
       else g).
Proof.
  intros Hg. apply set_up_spec in Hg as (Hs & (m & Hm & Hlen) & Hc).
  unfold Sparkle512core.refill.
  destruct (_ =? _)%nat; [|reflexivity].
  rewrite (squeeze_squeezed _ m).
  - reflexivity.
  - exact Hlen.
  - cbn [Sparkle512core._permute Sparkle512core.state].
    rewrite length_rounds. lia.
Qed.

Lemma consume_after_units :
  forall (n : nat) (g : Sparkle512core.t),
    set_up g = true ->
    exists bits, consume n g = Ok bits (after_units g n)
                 /\ set_up (after_units g n) = true.
Proof.
  induction n as [|n IH]; intros g Hg.
  - exists []. cbn [consume].
    assert (Hq : refills g 0 = 0%nat).
    { apply set_up_spec in Hg as (_ & (m & Hm & Hlen) & Hc).
      unfold refills. apply Nat.div_small. lia. }
    unfold after_units. rewrite Hq. cbn [Nat.iter Nat.eqb].
    rewrite Nat.add_0_r, Nat.sub_0_r.
    destruct g; split; [reflexivity|exact Hg].
  - cbn [consume]. rewrite (refill_set_up g Hg). cbn [bind].
    pose proof Hg as Hwf.
    apply set_up_spec in Hwf as (Hs & (m & Hm & Hlen) & Hc).
    destruct g as [steps state tank cursor].
    cbn [Sparkle512core.steps Sparkle512core.state Sparkle512core.entropy_tank
         Sparkle512core.entropy_cursor] in *.
    destruct (Nat.eqb_spec cursor (length tank)) as [Heq|Hne].
    + cbv zeta.
      cbn [Sparkle512core.entropy_tank Sparkle512core.entropy_cursor].
      rewrite lookup_squeezed by lia.
      set (state1 := Sparkle512core.rounds steps state).
      set (g1 := Sparkle512core.advance _).
      assert (Hg1 : set_up g1 = true).
      { apply set_up_spec. subst g1. cbn. rewrite length_squeezed.
        subst state1. rewrite length_rounds.
        split; [exact Hs|]. split; [exists m; split; [lia|exact Hlen]|lia]. }
      destruct (IH g1 Hg1) as (bits & Hbits & Hafter).
      rewrite Hbits. cbn [bind].
      assert (Hsame : after_units g1 n
                      = after_units
                          (Sparkle512core.Build steps state tank cursor) (S n)).
      { unfold after_units, refills. subst g1.
        cbn [Sparkle512core.advance Sparkle512core.steps Sparkle512core.state
             Sparkle512core.entropy_tank Sparkle512core.entropy_cursor].
        rewrite length_squeezed. subst cursor.
        replace (0 + 1 + n - 1)%nat with n by lia.
        replace (length tank + S n - 1)%nat
          with (n + 1 * length tank)%nat by lia.
        rewrite Nat.div_add by lia.
        replace (n / length tank + 1)%nat with (S (n / length tank)) by lia.
        rewrite Nat.iter_succ_r. fold state1.
        cbn [Nat.eqb].
        pose proof (Nat.Div0.mul_div_le n (length tank)) as Hle.
        rewrite (Nat.mul_comm (length tank)) in Hle.
        f_equal.
        - destruct (n / length tank)%nat; reflexivity.
        - rewrite Nat.mul_succ_l. lia. }
      rewrite <- Hsame. eexists. split; [reflexivity|exact Hafter].
    + cbn [Sparkle512core.entropy_tank Sparkle512core.entropy_cursor].
      destruct (lookup_lt_is_Some_2 tank cursor ltac:(lia)) as [unit_bit Hbit].
      rewrite Hbit.
      set (g1 := Sparkle512core.advance _).
      assert (Hg1 : set_up g1 = true).
      { apply set_up_spec. subst g1. cbn.
        split; [exact Hs|]. split; [exists m; split; [lia|exact Hlen]|lia]. }
      destruct (IH g1 Hg1) as (bits & Hbits & Hafter).
      rewrite Hbits. cbn [bind].
      assert (Hsame : after_units g1 n
                      = after_units
                          (Sparkle512core.Build steps state tank cursor) (S n)).
      { unfold after_units, refills. subst g1.
        cbn [Sparkle512core.advance Sparkle512core.steps Sparkle512core.state
             Sparkle512core.entropy_tank Sparkle512core.entropy_cursor].
        replace (cursor + 1 + n - 1)%nat with (cursor + S n - 1)%nat by lia.
        f_equal. lia. }
      rewrite <- Hsame. eexists. split; [reflexivity|exact Hafter].
Qed.

(** Whatever the accumulator becomes, the loop of [get_n_bit_unsigned_integer]
    moves the generator as the consumption of its units does. *)
Lemma get_bits_loop_generator :
  forall (count i : nat) (result : Z) (g : Sparkle512core.t) v g',
    Sparkle512core.get_bits_loop count i result g = Ok v g' ->
    exists bits, consume count g = Ok bits g'.
Proof.
  induction count as [|count IH]; intros i result g v g' H;
    cbn [Sparkle512core.get_bits_loop consume] in *.
  - inversion H; subst. now exists [].
  - destruct (Sparkle512core.refill g) as [[] g1| | |]; try discriminate.
    cbn [bind] in *.
    destruct (Sparkle512core.entropy_tank g1
              !! Sparkle512core.entropy_cursor g1) as [unit_bit|];
      [|discriminate].
    assert (Hrest : exists i' r',
               Sparkle512core.get_bits_loop count i' r'
                 (Sparkle512core.advance g1) = Ok v g').
    { destruct unit_bit.
      - destruct (int_one_shl i); [|discriminate]. eauto.
      - eauto. }
    destruct Hrest as (i' & r' & Hrest).
    destruct (IH _ _ _ _ _ Hrest) as (bits & Hbits).
    rewrite Hbits. cbn [bind]. eauto.
Qed.

(** X1: on a generator that is set up, a call [get_bits(n)] that returns has
    refilled the tank [(cursor + n - 1) / capacity] times, each time after one
    more permutation of the state, and leaves the cursor at
    [cursor + n - refills * capacity], within the tank; up to 32 bits the call
    always returns, below [2^n] up to 31 bits. *)
Theorem tank_accounting (g : Sparkle512core.t) (n : nat) :
  set_up g = true ->
  (forall v g',
      Sparkle512core.get_n_bit_unsigned_integer n g = Ok v g' ->
      g' = after_units g n)
  /\ ((n <= 32)%nat ->
      exists v,
        Sparkle512core.get_n_bit_unsigned_integer n g = Ok v (after_units g n)
        /\ 0 <= v /\ ((n <= 31)%nat -> v < 2 ^ Z.of_nat n))
  /\ set_up (after_units g n) = true.
Proof.
  intros Hg.
  destruct (consume_after_units n g Hg) as (bits & Hbits & Hafter).
  pose proof (length_consume _ _ _ _ Hbits) as Hlen.
  split; [|split; [|exact Hafter]].
  - intros v g' H.
    destruct (get_bits_loop_generator _ _ _ _ _ _ H) as (bits' & Hbits').
    rewrite Hbits in Hbits'. now inversion Hbits'.
  - intros Hn.
    destruct (Nat.eq_dec n 32%nat) as [->|Hne].
    + rewrite get_32_bits_sign_extended, Hbits. cbn [bind].
      eexists. split; [reflexivity|].
      pose proof (accumulate_bounds bits) as Hb.
      split; [|lia]. unfold sign_extended.
      destruct (_ <? _); lia.
    + rewrite get_bits_up_to_31, Hbits by lia. cbn [bind].
      eexists. split; [reflexivity|].
      pose proof (accumulate_bounds bits) as Hb. rewrite Hlen in Hb.
      split; [lia|]. intros _. lia.
Qed.

Lemma tank_accounting_witness :
  exists v,
    Sparkle512core.get_n_bit_unsigned_integer 20
      (Nat.iter 250 Sparkle512core.advance example_seeded)
    = Ok v (after_units (Nat.iter 250 Sparkle512core.advance example_seeded) 20)
    /\ 0 <= v < 2 ^ 20.
Proof.
  destruct (tank_accounting
              (Nat.iter 250 Sparkle512core.advance example_seeded) 20
              ltac:(vm_compute; reflexivity))
    as (_ & Hreturns & _).
  destruct (Hreturns ltac:(lia)) as (v & Hv & Hpos & Hlt).
  exists v. split; [exact Hv|]. split; [exact Hpos|]. apply Hlt. lia.
Defined.

(** ** Draws in pieces *)

Lemma consume_app :
  forall (a b : nat) (g : Sparkle512core.t),
    consume (a + b) g
    = bind (consume a g)
        (fun l1 g1 => bind (consume b g1) (fun l2 g2 => Ok (l1 ++ l2) g2)).
Proof.
  induction a as [|a IH]; intros b g.
  - cbn [Nat.add consume bind]. destruct (consume b g); reflexivity.
  - cbn [Nat.add consume].
    destruct (Sparkle512core.refill g) as [[] g1| | |]; try reflexivity.
    cbn [bind].
    destruct (Sparkle512core.entropy_tank g1
              !! Sparkle512core.entropy_cursor g1) as [unit_bit|];
      [|reflexivity].
    rewrite IH.
    destruct (consume a (Sparkle512core.advance g1)) as [l1 g2| | |];
      try reflexivity.
    cbn [bind]. destruct (consume b g2); reflexivity.
Qed.

Lemma accumulate_app (l1 l2 : list bool) :
  accumulate (l1 ++ l2)
  = accumulate l1 + 2 ^ Z.of_nat (length l1) * accumulate l2.
Proof.
  induction l1 as [|b l1 IH].
  - cbn [app accumulate length]. change (2 ^ Z.of_nat 0) with 1. lia.
  - cbn [app accumulate length]. rewrite IH.
    rewrite Nat2Z.inj_succ, Z.pow_succ_r by lia. lia.
Qed.

(** X2: up to 31 bits a draw can be made in two pieces: [get_bits(a)]
    followed by [get_bits(b)] consumes the units of [get_bits(a + b)] and
    leaves the same generator, the first output being the low [a] bits of the
    whole and the second the bits above. *)
Theorem draw_in_two_pieces (a b : nat) (g : Sparkle512core.t) :
  (a + b <= 31)%nat ->
  Sparkle512core.get_n_bit_unsigned_integer (a + b) g
  = bind (Sparkle512core.get_n_bit_unsigned_integer a g)
      (fun low g1 =>
         bind (Sparkle512core.get_n_bit_unsigned_integer b g1)
           (fun high g2 => Ok (low + 2 ^ Z.of_nat a * high) g2)).
Proof.
  intros Hab.
  rewrite !get_bits_up_to_31 by lia.
  rewrite consume_app.
  destruct (consume a g) as [l1 g1| | |] eqn:H1; try reflexivity.
  cbn [bind]. rewrite get_bits_up_to_31 by lia.
  destruct (consume b g1) as [l2 g2| | |]; try reflexivity.
  cbn [bind]. rewrite accumulate_app.
  now rewrite (length_consume _ _ _ _ H1).
Qed.

Lemma draw_in_two_pieces_witness :
  Sparkle512core.get_n_bit_unsigned_integer (12 + 19) example_seeded
  = bind (Sparkle512core.get_n_bit_unsigned_integer 12 example_seeded)
      (fun low g1 =>
         bind (Sparkle512core.get_n_bit_unsigned_integer 19 g1)
           (fun high g2 => Ok (low + 2 ^ Z.of_nat 12 * high) g2)).
Proof. apply (draw_in_two_pieces 12 19 example_seeded). lia. Defined.

(** ** Tanks that [_squeeze] cannot fill *)

Lemma squeeze_word_short (state : list Z) (tank0 : list bool) (a r : nat) (w : Z) :
  state !! a = Some w ->
  length tank0 = (32 * a + r)%nat ->
  (r < 32)%nat ->
  forall (count j : nat),
    (j <= r)%nat -> (r - j < count)%nat ->
    for_from_opt count j 32 1
      (fun j tank =>
         w ← state !! (32 * a / 32)%nat;
         if (32 * a + j <? length tank)%nat
         then Some (<[(32 * a + j)%nat :=
                        __builtin_parityll (Z.shiftr w (Z.of_nat j))]> tank)
         else None)
      (filled state (32 * a + j) tank0)
    = None.
Proof.
  intros Hw Hlen Hr.
  assert (Hdiv : (32 * a / 32 = a)%nat)
    by (rewrite Nat.mul_comm; apply Nat.div_mul; lia).
  rewrite Hdiv, Hw. cbn [mbind option_bind].
  induction count as [|count IH]; intros j Hj Hcount; [lia|].
  cbn [for_from_opt].
  rewrite (proj2 (Nat.ltb_lt j 32)) by lia.
  rewrite length_filled by lia.
  destruct (Nat.ltb_spec (32 * a + j) (length tank0)) as [Hlt|Hge].
  - cbn [mbind option_bind].
    replace (__builtin_parityll (Z.shiftr w (Z.of_nat j)))
      with (squeezed_unit state (32 * a + j)).
    + rewrite filled_step by lia.
      replace (S (32 * a + j)) with (32 * a + (j + 1))%nat by lia.
      apply IH; lia.
    + unfold squeezed_unit.
      replace ((32 * a + j) / 32)%nat with a
        by (apply Nat.div_unique with j; lia).
      replace ((32 * a + j) mod 32)%nat with j
        by (apply Nat.mod_unique with a; lia).
      now rewrite (list_lookup_total_correct _ _ _ Hw).
  - reflexivity.
Qed.

Lemma squeeze_loop_fails (state : list Z) (tank0 : list bool) :
  length state = 16%nat ->
  (length tank0 mod 32 <> 0 \/ 512 < length tank0)%nat ->
  forall (count a : nat),
    (32 * a <= length tank0)%nat -> (a <= 16)%nat ->
    (length tank0 <= count + 32 * a)%nat ->
    for_from_opt count (32 * a) (length tank0) 32
      (fun i tank =>
         let k := (i / 32)%nat in
         tmp ← state !! k;
         for_range_opt 0 32 1
           (fun j tank =>
              w ← state !! k;
              if (i + j <? length tank)%nat
              then Some (<[(i + j)%nat :=
                             __builtin_parityll (Z.shiftr w (Z.of_nat j))]> tank)
              else None)
           tank)
      (filled state (32 * a) tank0)
    = None.
Proof.
  intros Hstate Hbad.
  induction count as [|count IH]; intros a Ha Ha16 Hcount.
  - exfalso. assert (length tank0 = 32 * a)%nat as Heq by lia.
    rewrite Heq in Hbad.
    rewrite Nat.mul_comm, Nat.Div0.mod_mul in Hbad. lia.
  - assert (Hlt : (32 * a < length tank0)%nat).
    { destruct (Nat.eq_dec (32 * a)%nat (length tank0)) as [Heq|]; [|lia].
      exfalso. rewrite <- Heq in Hbad.
      rewrite Nat.mul_comm, Nat.Div0.mod_mul in Hbad. lia. }
    cbn [for_from_opt]. rewrite (proj2 (Nat.ltb_lt _ _)) by exact Hlt.
    assert (Hdiv : (32 * a / 32 = a)%nat)
      by (rewrite Nat.mul_comm; apply Nat.div_mul; lia).
    cbv zeta. rewrite Hdiv.
    destruct (state !! a) as [w|] eqn:Hw; [|reflexivity].
    cbn [mbind option_bind]. unfold for_range_opt.
    change (32 - 0)%nat with 32%nat.
    destruct (Nat.le_gt_cases (32 * a + 32) (length tank0)) as [Hfull|Hshort].
    + pose proof (squeeze_word state tank0 a w Hw Hfull 32 0
                    ltac:(lia) ltac:(lia)) as Hinner.
      rewrite Nat.add_0_r, Hdiv, Hw in Hinner.
      cbn [mbind option_bind] in Hinner.
      rewrite Hinner. cbn [mbind option_bind].
      replace (32 * a + 32)%nat with (32 * S a)%nat by lia.
      apply IH; try lia.
      apply lookup_lt_Some in Hw. lia.
    + pose proof (squeeze_word_short state tank0 a
                    (length tank0 - 32 * a) w Hw ltac:(lia) ltac:(lia) 32 0
                    ltac:(lia) ltac:(lia)) as Hinner.
      rewrite Nat.add_0_r, Hdiv, Hw in Hinner.
      cbn [mbind option_bind] in Hinner.
      now rewrite Hinner.
Qed.

(** X3: with a state of sixteen words, [_squeeze] has defined behaviour
    exactly when the capacity of the tank is a multiple of 32 and at most 512;
    then it rewrites every unit as the parity of the state word it belongs to,
    shifted, and resets the cursor.  Otherwise it writes past the end of the
    tank or reads past the end of the state. *)
Theorem squeeze_defined_iff (g : Sparkle512core.t) :
  length (Sparkle512core.state g) = 16%nat ->
  (Sparkle512core._squeeze g = Undefined <->
   (length (Sparkle512core.entropy_tank g) mod 32 <> 0
    \/ 512 < length (Sparkle512core.entropy_tank g))%nat)
  /\ ((length (Sparkle512core.entropy_tank g) mod 32 = 0
       /\ length (Sparkle512core.entropy_tank g) <= 512)%nat ->
      Sparkle512core._squeeze g
      = Ok tt (Sparkle512core.Build (Sparkle512core.steps g)
                 (Sparkle512core.state g)
                 (squeezed (Sparkle512core.state g)
                    (length (Sparkle512core.entropy_tank g))) 0)).
Proof.
  intros Hstate.
  assert (Hgood :
    (length (Sparkle512core.entropy_tank g) mod 32 = 0
     /\ length (Sparkle512core.entropy_tank g) <= 512)%nat ->
    Sparkle512core._squeeze g
    = Ok tt (Sparkle512core.Build (Sparkle512core.steps g)
               (Sparkle512core.state g)
               (squeezed (Sparkle512core.state g)
                  (length (Sparkle512core.entropy_tank g))) 0)).
  { intros [Hmod Hle].
    pose proof (Nat.div_mod_eq (length (Sparkle512core.entropy_tank g)) 32).
    apply (squeeze_squeezed g (length (Sparkle512core.entropy_tank g) / 32));
      lia. }
  split; [|exact Hgood].
  split.
  - intros Hundef.
    destruct (Nat.eq_dec (length (Sparkle512core.entropy_tank g) mod 32)%nat 0%nat)
      as [Hmod|Hmod]; [|now left].
    destruct (Nat.le_gt_cases (length (Sparkle512core.entropy_tank g)) 512)
      as [Hle|Hgt]; [|now right].
    rewrite Hgood in Hundef by (split; assumption). discriminate.
  - intros Hbad. unfold Sparkle512core._squeeze.
    assert (Hloop : Sparkle512core.squeeze_loop (Sparkle512core.state g)
                      (Sparkle512core.entropy_tank g) = None).
    { unfold Sparkle512core.squeeze_loop, for_range_opt.
      rewrite Nat.sub_0_r.
      pose proof (squeeze_loop_fails _ _ Hstate Hbad
                    (length (Sparkle512core.entropy_tank g)) 0%nat) as Hfail.
      apply Hfail; lia. }
    now rewrite Hloop.
Qed.

Lemma squeeze_defined_iff_witness :
  Sparkle512core._squeeze
    (Sparkle512core.Build 8 (replicate 16 0) (replicate 100 false) 0)
  = Undefined
  /\ Sparkle512core._squeeze
       (Sparkle512core.Build 8 (replicate 16 0) (replicate 544 false) 0)
     = Undefined
  /\ Sparkle512core._squeeze example_seeded
     = Ok tt (Sparkle512core.Build 8 (Sparkle512core.state example_seeded)
                (squeezed (Sparkle512core.state example_seeded) 256) 0).
Proof.
  split; [|split].
  - apply (squeeze_defined_iff
             (Sparkle512core.Build 8 (replicate 16 0) (replicate 100 false) 0));
      [reflexivity|].
    left. vm_compute. lia.
  - apply (squeeze_defined_iff
             (Sparkle512core.Build 8 (replicate 16 0) (replicate 544 false) 0));
      [reflexivity|].
    right. vm_compute. lia.
  - apply (squeeze_defined_iff example_seeded); [reflexivity|].
    split; vm_compute; [reflexivity|lia].
Defined.

(** ** What the tank tells of the state *)

Lemma parity_below_shift :
  forall (n : nat) (x : Z),
    parity_below (S n) x
    = xorb (Z.testbit x 0) (parity_below n (Z.shiftr x 1)).
Proof.
  induction n as [|n IH]; intros x.
  - reflexivity.
  - change (parity_below (S (S n)) x)
      with (xorb (Z.testbit x (Z.of_nat (S n))) (parity_below (S n) x)).
    rewrite IH. cbn [parity_below].
    rewrite Z.shiftr_spec by lia.
    replace (Z.of_nat n + 1) with (Z.of_nat (S n)) by lia.
    destruct (Z.testbit x (Z.of_nat (S n))), (Z.testbit x 0),
      (parity_below n (Z.shiftr x 1)); reflexivity.
Qed.

Lemma testbit_high (w i : Z) :
  0 <= w < 2 ^ 32 -> 32 <= i -> Z.testbit w i = false.
Proof.
  intros Hw Hi. rewrite <- (Z.mod_small w (2 ^ 32)) by lia.
  apply Z.mod_pow2_bits_high. lia.
Qed.

(** Two neighbouring units of the tank differ by one bit of the word. *)
Lemma parity_neighbours (w : Z) (j : nat) :
  0 <= w < 2 ^ 32 ->
  xorb (__builtin_parityll (Z.shiftr w (Z.of_nat j)))
       (__builtin_parityll (Z.shiftr w (Z.of_nat (S j))))
  = Z.testbit w (Z.of_nat j).
Proof.
  intros Hw. unfold __builtin_parityll.
  rewrite (parity_below_shift 63 (Z.shiftr w (Z.of_nat j))).
  rewrite Z.shiftr_shiftr by lia.
  replace (Z.of_nat j + 1) with (Z.of_nat (S j)) by lia.
  change (parity_below 64 (Z.shiftr w (Z.of_nat (S j))))
    with (xorb (Z.testbit (Z.shiftr w (Z.of_nat (S j))) (Z.of_nat 63))
            (parity_below 63 (Z.shiftr w (Z.of_nat (S j))))).
  rewrite !Z.shiftr_spec by lia.
  rewrite (testbit_high w (Z.of_nat 63 + Z.of_nat (S j))) by lia.
  rewrite Z.add_0_l.
  destruct (Z.testbit w (Z.of_nat j)),
    (parity_below 63 (Z.shiftr w (Z.of_nat (S j)))); reflexivity.
Qed.

Lemma parity_of_zero (n : nat) : parity_below n 0 = false.
Proof.
  induction n as [|n IH]; [reflexivity|].
  cbn [parity_below]. now rewrite IH, Z.bits_0.
Qed.

Lemma unsqueeze_word_units (w : Z) :
  0 <= w < 2 ^ 32 ->
  unsqueeze_word
    ((fun j => __builtin_parityll (Z.shiftr w (Z.of_nat j))) <$> seq 0 32)
  = w.
Proof.
  intros Hw. unfold unsqueeze_word.
  set (unit_of := fun j : nat => __builtin_parityll (Z.shiftr w (Z.of_nat j))).
  assert (Hlast : unit_of 32%nat = false).
  { unfold unit_of, __builtin_parityll.
    rewrite Z.shiftr_div_pow2, Z.div_small by (change (Z.of_nat 32) with 32; lia).
    apply parity_of_zero. }
  assert (Hshifted : forall n, (n < 32)%nat ->
            (drop 1 (unit_of <$> seq 0 32) ++ [false]) !! n
            = Some (unit_of (S n))).
  { intros n Hn. destruct (Nat.eq_dec n 31%nat) as [->|Hne].
    - rewrite Hlast. reflexivity.
    - rewrite lookup_app_l
        by (rewrite length_drop, length_fmap, length_seq; lia).
      rewrite lookup_drop, list_lookup_fmap, lookup_seq_lt by lia.
      reflexivity. }
  apply Z.bits_inj'. intros i Hi.
  rewrite <- (Z2Nat.id i) by exact Hi.
  rewrite accumulate_testbit, lookup_zip_with.
  destruct (Nat.lt_ge_cases (Z.to_nat i) 32) as [Hlt|Hge].
  - rewrite list_lookup_fmap, lookup_seq_lt by exact Hlt.
    cbn [fmap option_fmap option_map mbind option_bind].
    rewrite (Hshifted _ Hlt). cbn [mbind option_bind default].
    change (0 + Z.to_nat i)%nat with (Z.to_nat i).
    apply (parity_neighbours w (Z.to_nat i) Hw).
  - rewrite (proj2 (lookup_ge_None (unit_of <$> seq 0 32) (Z.to_nat i)))
      by (rewrite length_fmap, length_seq; lia).
    cbn [mbind option_bind default].
    symmetry. apply testbit_high; [exact Hw|]. lia.
Qed.

Lemma units_of_word (state : list Z) (capacity k : nat) (w : Z) :
  state !! k = Some w ->
  (32 * k + 32 <= capacity)%nat ->
  take 32 (drop (32 * k) (squeezed state capacity))
  = (fun j => __builtin_parityll (Z.shiftr w (Z.of_nat j))) <$> seq 0 32.
Proof.
  intros Hw Hk. apply list_eq. intros j.
  destruct (Nat.lt_ge_cases j 32) as [Hlt|Hge].
  - rewrite lookup_take_lt, lookup_drop, lookup_squeezed by lia.
    rewrite list_lookup_fmap, lookup_seq_lt by lia.
    cbn [fmap option_fmap option_map]. f_equal.
    unfold squeezed_unit.
    replace ((32 * k + j) / 32)%nat with k
      by (apply Nat.div_unique with j; lia).
    replace ((32 * k + j) mod 32)%nat with j
      by (apply Nat.mod_unique with k; lia).
    now rewrite (list_lookup_total_correct _ _ _ Hw).
  - rewrite lookup_take_ge by lia.
    symmetry. apply lookup_ge_None.
    rewrite length_fmap, length_seq. lia.
Qed.

(** X4: the squeeze hides nothing of the words it reads.  After [_squeeze]
    on a state of 32-bit words, each of the first [capacity / 32] state words
    is read back from its 32 tank units, bit [j] of the word being the sum of
    the units [j] and [j + 1]. *)
Theorem tank_reveals_state (g : Sparkle512core.t) (m : nat) (g' : Sparkle512core.t) :
  words32 (Sparkle512core.state g) ->
  length (Sparkle512core.entropy_tank g) = (32 * m)%nat ->
  (m <= length (Sparkle512core.state g))%nat ->
  Sparkle512core._squeeze g = Ok tt g' ->
  unsqueeze m (Sparkle512core.entropy_tank g')
  = take m (Sparkle512core.state g').
Proof.
  intros Hwords Hlen Hm Hsq.
  rewrite (squeeze_squeezed g m Hlen Hm) in Hsq. inversion Hsq; subst g'.
  cbn [Sparkle512core.entropy_tank Sparkle512core.state].
  unfold unsqueeze. apply list_eq. intros k.
  rewrite list_lookup_fmap.
  destruct (Nat.lt_ge_cases k m) as [Hlt|Hge].
  - rewrite lookup_seq_lt, lookup_take_lt by exact Hlt.
    cbn [fmap option_fmap option_map].
    destruct (lookup_lt_is_Some_2 (Sparkle512core.state g) k ltac:(lia))
      as [w Hw].
    rewrite Hw, Hlen. f_equal.
    change (0 + k)%nat with k.
    rewrite (units_of_word _ _ k w Hw) by lia.
    apply unsqueeze_word_units.
    unfold words32 in Hwords. rewrite Forall_lookup in Hwords.
    exact (Hwords k w Hw).
  - rewrite lookup_take_ge by lia.
    rewrite (proj2 (lookup_ge_None _ _)) by (rewrite length_seq; lia).
    reflexivity.
Qed.

Lemma tank_reveals_state_witness :
  unsqueeze 8 (Sparkle512core.entropy_tank example_seeded)
  = take 8 (Sparkle512core.state example_seeded).
Proof.
  assert (H : Sparkle512core._squeeze example_seeded = Ok tt example_seeded)
    by (vm_compute; reflexivity).
  apply (tank_reveals_state example_seeded 8 example_seeded).
  - unfold words32. apply Forall_forall. intros w Hin.
    cbn in Hin. rewrite !elem_of_cons in Hin.
    repeat (destruct Hin as [->|Hin]; [lia|]).
    now apply elem_of_nil in Hin.
  - reflexivity.
  - simpl. lia.
  - exact H.
Defined.

(** ** Paddings *)

Lemma zero_pad_trailing (x : list byte) (k : nat) :
  (length x + k <= 48)%nat ->
  SparkleRG.padding (x ++ replicate k x00) = SparkleRG.padding x.
Proof.
  intros Hk. unfold SparkleRG.padding.
  rewrite length_app, length_replicate, <- app_assoc.
  f_equal. rewrite <- replicate_add. f_equal. lia.
Qed.

(** X5: the zero padding of [SparkleRG.absorb] does not tell a block from the
    same block followed by zero bytes: up to 48 bytes in all, both leave the
    same generator. *)
Theorem zero_padding_collides (x : list byte) (k : nat) (g : SparkleRG.t) :
  (length x + k <= 48)%nat ->
  SparkleRG.absorb (x ++ replicate k x00) g = SparkleRG.absorb x g.
Proof.
  intros Hk. unfold SparkleRG.absorb. now rewrite zero_pad_trailing.
Qed.

Lemma zero_padding_collides_witness :
  SparkleRG.absorb (seed ++ replicate 3 x00) example_fresh
  = SparkleRG.absorb seed example_fresh.
Proof. apply (zero_padding_collides seed 3 example_fresh). simpl. lia. Defined.

Lemma wrapper_padding_length (x : list byte) :
  (length x <= 63)%nat -> length (Wrapper.padding x) = 64%nat.
Proof.
  intros Hx. unfold Wrapper.padding.
  rewrite !length_app, length_replicate. simpl. lia.
Qed.

Lemma wrapper_padding_mark (x : list byte) :
  Wrapper.padding x !! length x = Some x31.
Proof.
  unfold Wrapper.padding.
  rewrite lookup_app_r, Nat.sub_diag by lia. reflexivity.
Qed.

Lemma wrapper_padding_tail (x : list byte) (i : nat) :
  (length x < i <= 63)%nat -> Wrapper.padding x !! i = Some x30.
Proof.
  intros Hi. unfold Wrapper.padding.
  rewrite lookup_app_r by lia.
  rewrite lookup_app_r by (simpl; lia).
  apply lookup_replicate_2. simpl. lia.
Qed.

(** X6: the padding of sparklyRG.org, the character 1 followed by
    characters 0, brings every block of at most 63 bytes to 64 bytes and
    keeps distinct blocks distinct. *)
Theorem wrapper_padding_injective (x y : list byte) :
  (length x <= 63)%nat -> (length y <= 63)%nat ->
  length (Wrapper.padding x) = 64%nat
  /\ (Wrapper.padding x = Wrapper.padding y -> x = y).
Proof.
  intros Hx Hy. split; [now apply wrapper_padding_length|].
  intros Heq.
  assert (Hlen : length x = length y).
  { destruct (Nat.lt_trichotomy (length x) (length y)) as [Hlt|[Heq'|Hgt]];
      [|exact Heq'|].
    - pose proof (wrapper_padding_mark y) as Hmark.
      rewrite <- Heq, wrapper_padding_tail in Hmark by lia. discriminate.
    - pose proof (wrapper_padding_mark x) as Hmark.
      rewrite Heq, wrapper_padding_tail in Hmark by lia. discriminate. }
  unfold Wrapper.padding in Heq.
  now apply app_inj_1 in Heq as [Hxy _].
Qed.

Lemma wrapper_padding_injective_witness :
  length (Wrapper.padding seed) = 64%nat
  /\ (Wrapper.padding seed = Wrapper.padding (seed ++ [x30]) ->
      seed = seed ++ [x30]).
Proof.
  apply (wrapper_padding_injective seed (seed ++ [x30])); simpl; lia.
Defined.

(** ** Absorbing keeps the generator set up *)

Lemma length_xor_words :
  forall (words : list Z) (k : nat) (state : list Z),
    length (xor_words words k state) = length state.
Proof.
  induction words as [|w words IH]; intros k state; simpl; [reflexivity|].
  rewrite IH. unfold xor_at. apply length_insert.
Qed.

Lemma core_absorb_set_up (byte_array : list byte) (c : nat)
    (g : Sparkle512core.t) :
  set_up g = true ->
  length byte_array = (4 * c)%nat -> (c <= 16)%nat ->
  exists g',
    Sparkle512core.absorb byte_array g = Ok tt g'
    /\ set_up g' = true
    /\ Sparkle512core.entropy_cursor g' = 0%nat
    /\ Sparkle512core.steps g' = Sparkle512core.steps g
    /\ length (Sparkle512core.entropy_tank g')
       = length (Sparkle512core.entropy_tank g).
Proof.
  intros Hg Hlen Hc.
  apply set_up_spec in Hg as (Hs & (m & Hm & Htank) & Hcur).
  unfold Sparkle512core.absorb.
  change (2 * Sparkle512core.N_BRANCHES - 1)%nat with 15%nat.
  rewrite (absorb_loop_words _ c)
    by (try assumption; unfold xor_at; rewrite length_insert; lia).
  unfold Sparkle512core._permute.
  cbn [Sparkle512core.steps Sparkle512core.state
       Sparkle512core.entropy_tank Sparkle512core.entropy_cursor].
  assert (Hfinal :
    length (Sparkle512core.rounds (Sparkle512core.steps g)
              (xor_at 15 2
                 (Sparkle512core.rounds (Sparkle512core.steps g)
                    (xor_words (words_of byte_array) 0
                       (xor_at 15 1 (Sparkle512core.state g))))))
    = 16%nat).
  { rewrite length_rounds. unfold xor_at at 1. rewrite length_insert.
    rewrite length_rounds, length_xor_words.
    unfold xor_at. now rewrite length_insert. }
  rewrite (squeeze_squeezed _ m);
    cbn [Sparkle512core.steps Sparkle512core.state
         Sparkle512core.entropy_tank Sparkle512core.entropy_cursor];
    [|exact Htank|rewrite Hfinal; lia].
  eexists. split; [reflexivity|].
  cbn [Sparkle512core.steps Sparkle512core.state
       Sparkle512core.entropy_tank Sparkle512core.entropy_cursor].
  rewrite length_squeezed.
  split; [|repeat split].
  apply set_up_spec.
  cbn [Sparkle512core.steps Sparkle512core.state
       Sparkle512core.entropy_tank Sparkle512core.entropy_cursor].
  rewrite length_squeezed.
  split; [exact Hfinal|]. split; [exists m; split; [lia|exact Htank]|lia].
Qed.

Lemma wrapper_absorb_set_up (x : list byte) (g : Wrapper.t) :
  set_up g = true -> (length x <= 63)%nat ->
  exists g', Wrapper.absorb x g = Ok tt g' /\ set_up g' = true.
Proof.
  intros Hg Hx. unfold Wrapper.absorb.
  destruct (core_absorb_set_up (Wrapper.padding x) 16 g Hg
              (wrapper_padding_length x Hx) ltac:(lia))
    as (g' & Habs & Hset & _).
  eauto.
Qed.

(** ** [EschRG] *)

Lemma esch_init_blocks (seeds : EschRG.seeds) (time_string : option (list byte)) :
  EschRG.__init__ seeds time_string
  = EschRG.absorb_blocks (blocks_of seeds time_string)
      (EschRG.Build example_fresh []).
Proof.
  unfold EschRG.__init__, blocks_of.
  change (Wrapper.__init__ 8 256) with (@Ok Wrapper.t unit tt example_fresh).
  cbv iota beta zeta.
  destruct seeds, time_string; rewrite ?app_nil_r; reflexivity.
Qed.

(** A block that [_absorb_block] lets through. *)
Lemma absorb_block_returns (x : EschRG.object) (self self' : EschRG.t) :
  EschRG._absorb_block x self = Ok tt self' ->
  exists b,
    EschRG.to_absorb_of x = Some b /\ (length b <= 31)%nat
    /\ EschRG.absorbed self' = EschRG.absorbed self ++ [b].
Proof.
  unfold EschRG._absorb_block. intros H.
  destruct (EschRG.to_absorb_of x) as [b|]; [|discriminate].
  destruct (Nat.ltb_spec 31 (length b)) as [Hbig|Hsmall]; [discriminate|].
  destruct (Wrapper.absorb b (EschRG.core self)) as [[] core| | |];
    try discriminate.
  inversion H; subst. exists b. cbn [EschRG.absorbed]. auto.
Qed.

Lemma absorb_block_accepts (x : EschRG.object) (b : list byte)
    (self : EschRG.t) :
  set_up (EschRG.core self) = true ->
  EschRG.to_absorb_of x = Some b -> (length b <= 31)%nat ->
  exists core',
    EschRG._absorb_block x self
    = Ok tt (EschRG.Build core' (EschRG.absorbed self ++ [b]))
    /\ set_up core' = true.
Proof.
  intros Hself Hx Hb. unfold EschRG._absorb_block. rewrite Hx.
  rewrite (proj2 (Nat.ltb_ge _ _)) by exact Hb.
  destruct (wrapper_absorb_set_up b (EschRG.core self) Hself ltac:(lia))
    as (core' & Habs & Hset).
  rewrite Habs. eauto.
Qed.

Lemma absorb_blocks_absorbed :
  forall (blocks : list EschRG.object) (self self' : EschRG.t),
    EschRG.absorb_blocks blocks self = Ok tt self' ->
    exists kept,
      EschRG.absorbed self' = EschRG.absorbed self ++ kept
      /\ kept_as blocks kept
      /\ Forall (fun b => (length b <= 31)%nat) kept.
Proof.
  induction blocks as [|x blocks IH]; intros self self' H;
    cbn [EschRG.absorb_blocks] in H.
  - inversion H; subst. exists []. rewrite app_nil_r.
    repeat split; constructor.
  - destruct (EschRG._absorb_block x self) as [[] self1| | |] eqn:Hx;
      try discriminate.
    cbn [bind] in H.
    destruct (absorb_block_returns _ _ _ Hx) as (b & Hb & Hlen & Habs1).
    destruct (IH _ _ H) as (kept & Habs & Hkept & Hall).
    exists (b :: kept). rewrite Habs, Habs1, <- app_assoc.
    split; [reflexivity|]. split; constructor; assumption.
Qed.

Lemma absorb_blocks_of_bytes :
  forall (kept : list (list byte)) (blocks : list EschRG.object)
         (self self' : EschRG.t),
    kept_as blocks kept ->
    EschRG.absorb_blocks blocks self = Ok tt self' ->
    EschRG.absorb_blocks (EschRG.of_bytes <$> kept) self = Ok tt self'.
Proof.
  induction kept as [|b kept IH]; intros blocks self self' Hkept H;
    inversion Hkept as [|x ? blocks' ? Hx Hrest]; subst.
  - exact H.
  - cbn [fmap list_fmap EschRG.absorb_blocks] in *.
    unfold EschRG._absorb_block in *. cbn [EschRG.to_absorb_of].
    rewrite Hx in H.
    destruct (31 <? length b)%nat; [discriminate|].
    destruct (Wrapper.absorb b (EschRG.core self)) as [[] core| | |];
      try discriminate.
    cbn [bind] in *. now apply (IH blocks').
Qed.

(** X7: an [EschRG] that was built keeps in [self.absorbed] the bytes of
    every object it was given, in order: a [bytes] object as it is, a [str]
    encoded in UTF-8, any other object through [str(x)]; each has at most 31
    bytes, and building a new [EschRG] from that list (what [__str__]
    prints) gives the same generator and the same list. *)
Theorem esch_rebuilds_from_absorbed (seeds : EschRG.seeds)
    (time_string : option (list byte)) (self : EschRG.t) :
  EschRG.__init__ seeds time_string = Ok tt self ->
  kept_as (blocks_of seeds time_string) (EschRG.absorbed self)
  /\ Forall (fun b => (length b <= 31)%nat) (EschRG.absorbed self)
  /\ EschRG.__init__
       (EschRG.several (EschRG.of_bytes <$> EschRG.absorbed self)) None
     = Ok tt self.
Proof.
  intros H. rewrite esch_init_blocks in H.
  destruct (absorb_blocks_absorbed _ _ _ H) as (kept & Habs & Hkept & Hall).
  cbn [EschRG.absorbed app] in Habs. subst kept.
  split; [exact Hkept|]. split; [exact Hall|].
  rewrite esch_init_blocks. unfold blocks_of. rewrite app_nil_r.
  exact (absorb_blocks_of_bytes _ _ _ _ Hkept H).
Qed.

Lemma esch_rebuilds_from_absorbed_witness :
  kept_as [EschRG.of_other (ascii_str "12345"); EschRG.of_str (ascii_str "seed")]
    [[x31; x32; x33; x34; x35]; seed]
  /\ exists self,
       EschRG.__init__
         (EschRG.several [EschRG.of_other (ascii_str "12345");
                          EschRG.of_str (ascii_str "seed")]) None
       = Ok tt self
       /\ EschRG.absorbed self = [[x31; x32; x33; x34; x35]; seed]
       /\ EschRG.__init__
            (EschRG.several (EschRG.of_bytes <$> EschRG.absorbed self)) None
          = Ok tt self.
Proof.
  split; [repeat constructor|].
  destruct (EschRG.__init__
              (EschRG.several [EschRG.of_other (ascii_str "12345");
                               EschRG.of_str (ascii_str "seed")]) None)
    as [[] self| | |] eqn:H; try (vm_compute in H; discriminate).
  exists self. split; [reflexivity|].
  destruct (esch_rebuilds_from_absorbed _ _ _ H) as (Hkept & _ & Hre).
  split; [|exact Hre].
  unfold kept_as, blocks_of in Hkept. rewrite app_nil_r in Hkept.
  remember (EschRG.absorbed self) as kept eqn:Hk. clear Hk.
  inversion Hkept as [|? b1 ? rest1 Hfirst Hrest1]; subst.
  inversion Hrest1 as [|? b2 ? rest2 Hsecond Hrest2]; subst.
  inversion Hrest2; subst.
  injection Hfirst as <-. injection Hsecond as <-. reflexivity.
Defined.

Lemma absorb_blocks_returns :
  forall (blocks : list EschRG.object) (self : EschRG.t),
    set_up (EschRG.core self) = true ->
    Forall absorbable blocks ->
    exists self',
      EschRG.absorb_blocks blocks self = Ok tt self'
      /\ set_up (EschRG.core self') = true.
Proof.
  induction blocks as [|x blocks IH]; intros self Hself Hall;
    cbn [EschRG.absorb_blocks].
  - eauto.
  - inversion Hall as [|? ? (b & Hx & Hb) Hrest]; subst.
    destruct (absorb_block_accepts x b self Hself Hx Hb)
      as (core' & Habs & Hset).
    rewrite Habs. cbn [bind].
    apply IH; assumption.
Qed.
Lemma absorbable_or_not (x : EschRG.object) : absorbable x \/ ~ absorbable x.
Proof.
  unfold absorbable.
  destruct (EschRG.to_absorb_of x) as [b|].
  - destruct (le_lt_dec (length b) 31) as [Hle|Hgt].
    + left. eauto.
    + right. intros (b' & Hb' & Hlen). inversion Hb'; subst. lia.
  - right. intros (b' & Hb' & _). discriminate.
Qed.

Lemma absorb_block_refuses (x : EschRG.object) (self : EschRG.t) :
  ~ absorbable x -> EschRG._absorb_block x self = Raise (refusal x) self.
Proof.
  intros Hx. unfold EschRG._absorb_block, refusal.
  destruct (EschRG.to_absorb_of x) as [b|] eqn:Hb; [|reflexivity].
  destruct (Nat.ltb_spec 31 (length b)) as [Hbig|Hsmall]; [reflexivity|].
  exfalso. apply Hx. exists b. split; [exact Hb|lia].
Qed.

Lemma absorb_blocks_raises :
  forall (blocks : list EschRG.object) (self : EschRG.t),
    set_up (EschRG.core self) = true ->
    ~ Forall absorbable blocks ->
    exists self' kept x rest bs,
      blocks = kept ++ x :: rest
      /\ Forall absorbable kept /\ ~ absorbable x
      /\ EschRG.absorb_blocks blocks self = Raise (refusal x) self'
      /\ EschRG.absorbed self' = EschRG.absorbed self ++ bs
      /\ kept_as kept bs.
Proof.
  induction blocks as [|x blocks IH]; intros self Hself Hbad.
  - contradiction Hbad. constructor.
  - cbn [EschRG.absorb_blocks].
    destruct (absorbable_or_not x) as [(b & Hx & Hb)|Hx].
    + destruct (absorb_block_accepts x b self Hself Hx Hb)
        as (core' & Habs & Hset).
      rewrite Habs. cbn [bind].
      destruct (IH (EschRG.Build core' (EschRG.absorbed self ++ [b])) Hset)
        as (self' & kept & y & rest & bs & Hsplit & Hall & Hy & Hraise
            & Hkept & Has).
      { intros Hall. apply Hbad. constructor; [exists b; auto|exact Hall]. }
      exists self', (x :: kept), y, rest, (b :: bs).
      cbn [EschRG.absorbed] in Hkept.
      rewrite <- app_assoc in Hkept.
      split; [now rewrite Hsplit|].
      split; [constructor; [exists b; auto|exact Hall]|].
      split; [exact Hy|]. split; [exact Hraise|].
      split; [exact Hkept|constructor; assumption].
    + rewrite (absorb_block_refuses x self Hx). cbn [bind].
      exists self, [], x, blocks, []. rewrite app_nil_r.
      split; [reflexivity|]. split; [constructor|].
      split; [exact Hx|]. split; [reflexivity|].
      split; [reflexivity|constructor].
Qed.

(** X8: [EschRG(seeds)] is built exactly when every object it is given has
    bytes ([str] and other objects through UTF-8) and at most 31 of them, and
    the generator it holds is then set up.  Otherwise the constructor raises
    at the first object that has not: "block is too big" when its bytes are
    more than 31, [UnicodeEncodeError] when it has none; the bytes of the
    objects before it are absorbed and kept. *)
Theorem esch_init_when (seeds : EschRG.seeds) (time_string : option (list byte)) :
  (Forall absorbable (blocks_of seeds time_string) ->
   exists self,
     EschRG.__init__ seeds time_string = Ok tt self
     /\ set_up (EschRG.core self) = true)
  /\ (~ Forall absorbable (blocks_of seeds time_string) ->
      exists self kept x rest,
        blocks_of seeds time_string = kept ++ x :: rest
        /\ Forall absorbable kept /\ ~ absorbable x
        /\ EschRG.__init__ seeds time_string = Raise (refusal x) self
        /\ kept_as kept (EschRG.absorbed self)).
Proof.
  rewrite esch_init_blocks. split.
  - intros Hall. apply absorb_blocks_returns; [reflexivity|exact Hall].
  - intros Hbad.
    destruct (absorb_blocks_raises _ (EschRG.Build example_fresh [])
                ltac:(reflexivity) Hbad)
      as (self & kept & x & rest & bs & Hsplit & Hall & Hx & Hraise
          & Hkept & Has).
    exists self, kept, x, rest. cbn [EschRG.absorbed app] in Hkept.
    rewrite Hkept. auto.
Qed.

Lemma esch_init_when_witness :
  (exists self,
      EschRG.__init__
        (EschRG.several [EschRG.of_bytes seed; EschRG.of_str (ascii_str "seed")])
        (Some (replicate 19 x30))
      = Ok tt self
      /\ set_up (EschRG.core self) = true)
  /\ (exists self kept x rest,
        blocks_of
          (EschRG.one
             (EschRG.of_other (ascii_str "bytearray(b'aaaaaaaaaaaaaaaaaaaa')")))
          None
        = kept ++ x :: rest
        /\ Forall absorbable kept /\ ~ absorbable x
        /\ EschRG.__init__
             (EschRG.one
                (EschRG.of_other
                   (ascii_str "bytearray(b'aaaaaaaaaaaaaaaaaaaa')")))
             None
           = Raise (refusal x) self
        /\ kept_as kept (EschRG.absorbed self)).
Proof.
  split.
  - apply (proj1 (esch_init_when
                    (EschRG.several [EschRG.of_bytes seed;
                                     EschRG.of_str (ascii_str "seed")])
                    (Some (replicate 19 x30)))).
    repeat constructor; eexists; (split; [vm_compute; reflexivity|simpl; lia]).
  - apply (proj2 (esch_init_when
                    (EschRG.one
                       (EschRG.of_other
                          (ascii_str "bytearray(b'aaaaaaaaaaaaaaaaaaaa')")))
                    None)).
    intros Hall. inversion Hall as [|? ? (b & Hb & Hlen) _]; subst.
    vm_compute in Hb. inversion Hb; subst. simpl in Hlen. lia.
Defined.

(** ** The shuffle *)

Lemma wrapper_call_bounds (fuel : nat) (lower upper : Z) (g : Wrapper.t) j g' :
  lower < upper ->
  Wrapper.__call__ fuel lower upper g = Ok j g' ->
  lower <= j < upper.
Proof.
  intros Hlt H.
  change (SparkleRG.__call__ fuel lower upper g = Ok j g') in H.
  apply call_returns_iff in H; [|exact Hlt].
  destruct H as (_ & _ & b & rejected & draw & _ & _ & _ & _ & Hd & ->). lia.
Qed.

Lemma wrapper_call_raises (fuel : nat) (lower upper : Z) (g : Wrapper.t) e g' :
  0 <= lower < upper -> upper < 2 ^ 64 ->
  Wrapper.__call__ fuel lower upper g <> Raise e g'.
Proof.
  intros Hl Hu. unfold Wrapper.__call__.
  rewrite (proj2 (Z.leb_gt _ _)) by lia.
  rewrite (proj2 (fits_unsigned_spec 64 lower)) by lia.
  rewrite (proj2 (fits_unsigned_spec 64 upper)) by lia.
  cbn [andb]. unfold Sparkle512core.get_unsigned_integer_in_range.
  destruct (Sparkle512core.bit_length_of lower upper) as [b|]; [|discriminate].
  assert (Hloop : forall fuel r g0,
            Sparkle512core.rejection_loop fuel b r g0 <> Raise e g').
  { clear. induction fuel as [|fuel IH]; intros r g0; [discriminate|].
    cbn [Sparkle512core.rejection_loop].
    destruct (Sparkle512core.get_n_bit_unsigned_integer (Z.to_nat b) g0)
      as [output g1|e1 g1| |] eqn:Hd; try discriminate.
    - cbn [bind]. destruct (r <=? output); [apply IH|discriminate].
    - exfalso. clear IH. revert Hd.
      unfold Sparkle512core.get_n_bit_unsigned_integer.
      generalize 0%nat at 1. generalize 0 at 1.
      generalize (Z.to_nat b). intros count. revert g0.
      induction count as [|count IHc]; intros g0 acc i Hd;
        cbn [Sparkle512core.get_bits_loop] in Hd; [discriminate|].
      unfold Sparkle512core.refill in Hd.
      destruct (_ =? _)%nat.
      + destruct (Sparkle512core._squeeze (Sparkle512core._permute g0))
          as [[] g2|e2 g2| |] eqn:Hsq; try discriminate.
        * cbn [bind] in Hd.
          destruct (Sparkle512core.entropy_tank g2
                    !! Sparkle512core.entropy_cursor g2) as [[|]|];
            try discriminate.
          -- destruct (int_one_shl i); [|discriminate]. eapply IHc, Hd.
          -- eapply IHc, Hd.
        * now apply squeeze_never_raises in Hsq.
      + cbn [bind] in Hd.
        destruct (Sparkle512core.entropy_tank g0
                  !! Sparkle512core.entropy_cursor g0) as [[|]|];
          try discriminate.
        * destruct (int_one_shl i); [|discriminate]. eapply IHc, Hd.
        * eapply IHc, Hd. }
  intros H.
  destruct (Sparkle512core.rejection_loop fuel b (u64 (upper - lower)) g)
    as [output g1|e1 g1| |] eqn:Hr; try discriminate.
  cbn [bind] in H. inversion H; subst. now apply Hloop in Hr.
Qed.

Lemma shuffle_loop_permutes :
  forall (fuel count i : nat) (v_size : Z) (result : list Z)
         (self : EschRG.t) out self',
    (i + count = Z.to_nat v_size)%nat ->
    length result = Z.to_nat v_size ->
    EschRG.shuffle_loop fuel count i v_size result self = Ok out self' ->
    out ≡ₚ result /\ EschRG.absorbed self' = EschRG.absorbed self.
Proof.
  induction count as [|count IH];
    intros i v_size result self out self' Hi Hlen H;
    cbn [EschRG.shuffle_loop] in H.
  - inversion H; subst. split; reflexivity.
  - destruct (Wrapper.__call__ fuel (Z.of_nat i) v_size (EschRG.core self))
      as [j core| | |] eqn:Hcall; try discriminate.
    apply wrapper_call_bounds in Hcall; [|lia].
    destruct (result !! Z.to_nat j) as [at_j|] eqn:Hj;
      [|apply lookup_ge_None in Hj; lia].
    destruct (result !! i) as [at_i|] eqn:Hati;
      [|apply lookup_ge_None in Hati; lia].
    apply IH in H.
    + destruct H as [Hperm Habs]. cbn [EschRG.absorbed] in Habs.
      split; [|exact Habs].
      rewrite Hperm. now apply Permutation_insert_swap.
    + lia.
    + now rewrite !length_insert.
Qed.

Lemma shuffle_loop_no_raise :
  forall (fuel count i : nat) (v_size : Z) (result : list Z)
         (self : EschRG.t) e self',
    v_size < 2 ^ 63 ->
    (i + count = Z.to_nat v_size)%nat ->
    length result = Z.to_nat v_size ->
    EschRG.shuffle_loop fuel count i v_size result self <> Raise e self'.
Proof.
  induction count as [|count IH];
    intros i v_size result self e self' Hv Hi Hlen H;
    cbn [EschRG.shuffle_loop] in H; [discriminate|].
  destruct (Wrapper.__call__ fuel (Z.of_nat i) v_size (EschRG.core self))
    as [j core|e1 core| |] eqn:Hcall; try discriminate.
  - apply wrapper_call_bounds in Hcall; [|lia].
    destruct (result !! Z.to_nat j) as [at_j|] eqn:Hj;
      [|apply lookup_ge_None in Hj; lia].
    destruct (result !! i) as [at_i|] eqn:Hati;
      [|apply lookup_ge_None in Hati; lia].
    revert H. apply IH; [exact Hv|lia|now rewrite !length_insert].
  - now apply wrapper_call_raises in Hcall; [|lia|lia].
Qed.

(** X9: when [random_permutation(v_size)] returns, its result is a
    permutation of [0, ..., v_size - 1] and the list of absorbed blocks is
    untouched.  The one exception that leaves it is the [OverflowError] of
    [list(range(0, v_size))], exactly from [v_size = 2^63] on and before the
    generator is asked anything: below, no index is ever out of the list and
    no call of the generator is refused.  For [v_size <= 0] it returns the
    empty list without asking the generator. *)
Theorem random_permutation_permutes (fuel : nat) (v_size : Z) (self : EschRG.t) :
  (forall out self',
      EschRG.random_permutation fuel v_size self = Ok out self' ->
      out ≡ₚ Z.of_nat <$> seq 0 (Z.to_nat v_size)
      /\ EschRG.absorbed self' = EschRG.absorbed self)
  /\ (forall e self',
        EschRG.random_permutation fuel v_size self = Raise e self' <->
        2 ^ 63 <= v_size /\ e = OverflowError /\ self' = self)
  /\ (v_size <= 0 -> EschRG.random_permutation fuel v_size self = Ok [] self).
Proof.
  unfold EschRG.random_permutation.
  destruct (Z.leb_spec (2 ^ 63) v_size) as [Hbig|Hsmall].
  - split; [discriminate|]. split; [|lia].
    intros e self'. split.
    + intros H. inversion H; subst. auto.
    + intros (_ & -> & ->). reflexivity.
  - split; [|split].
    + intros out self' H.
      apply shuffle_loop_permutes in H;
        [exact H|lia|now rewrite length_fmap, length_seq].
    + intros e self'. split; [|lia].
      intros H. exfalso. revert H.
      apply shuffle_loop_no_raise;
        [exact Hsmall|lia|now rewrite length_fmap, length_seq].
    + intros Hv. replace (Z.to_nat v_size) with 0%nat by lia. reflexivity.
Qed.

Lemma random_permutation_permutes_witness :
  (exists out self',
      EschRG.random_permutation 20 6 example_esch = Ok out self'
      /\ out ≡ₚ [0; 1; 2; 3; 4; 5])
  /\ EschRG.random_permutation 20 (2 ^ 63) example_esch
     = Raise OverflowError example_esch.
Proof.
  split.
  - destruct (EschRG.random_permutation 20 6 example_esch)
      as [out self'| | |] eqn:H; try (vm_compute in H; discriminate).
    exists out, self'. split; [reflexivity|].
    apply (proj1 (random_permutation_permutes 20 6 example_esch) out self' H).
  - apply (proj1 (proj2 (random_permutation_permutes 20 (2 ^ 63) example_esch))).
    split; [lia|]. split; reflexivity.
Defined.

(** ** The permutation is one *)

Lemma round_in_layers (i : nat) (state : list Z) :
  Sparkle512core.round i state
  = linear_layer (arx_layer (add_constants i state)).
Proof.
  unfold Sparkle512core.round, linear_layer, arx_layer, add_constants.
  cbv zeta beta. reflexivity.
Qed.

Lemma arxbox_statements (j : nat) (state : list Z) :
  arxbox j state = run_statements j (RCON !!! (j / 2)%nat) arx_statements state.
Proof.
  unfold run_statements, arx_statements. cbn [fold_left run_statement].
  unfold arxbox. reflexivity.
Qed.

Lemma u32_range (z : Z) : 0 <= u32 z < 2 ^ 32.
Proof. unfold u32. apply Z.mod_pos_bound. reflexivity. Qed.

Lemma lxor_range (a b : Z) :
  0 <= a < 2 ^ 32 -> 0 <= b < 2 ^ 32 -> 0 <= Z.lxor a b < 2 ^ 32.
Proof.
  intros Ha Hb.
  assert (Hnn : 0 <= Z.lxor a b) by (apply Z.lxor_nonneg; lia).
  split; [exact Hnn|].
  destruct (Z.eq_dec (Z.lxor a b) 0) as [->|Hne]; [reflexivity|].
  apply Z.log2_lt_pow2; [lia|].
  pose proof (Z.log2_lxor a b ltac:(lia) ltac:(lia)) as Hlog.
  assert (Hla : Z.log2 a < 32).
  { destruct (Z.eq_dec a 0) as [->|]; [reflexivity|].
    apply Z.log2_lt_pow2; lia. }
  assert (Hlb : Z.log2 b < 32).
  { destruct (Z.eq_dec b 0) as [->|]; [reflexivity|].
    apply Z.log2_lt_pow2; lia. }
  lia.
Qed.

Lemma lor_range (a b : Z) :
  0 <= a < 2 ^ 32 -> 0 <= b < 2 ^ 32 -> 0 <= Z.lor a b < 2 ^ 32.
Proof.
  intros Ha Hb.
  assert (Hnn : 0 <= Z.lor a b) by (apply Z.lor_nonneg; lia).
  split; [exact Hnn|].
  destruct (Z.eq_dec (Z.lor a b) 0) as [->|Hne]; [reflexivity|].
  apply Z.log2_lt_pow2; [lia|].
  rewrite Z.log2_lor by lia.
  assert (Hla : Z.log2 a < 32).
  { destruct (Z.eq_dec a 0) as [->|]; [reflexivity|].
    apply Z.log2_lt_pow2; lia. }
  assert (Hlb : Z.log2 b < 32).
  { destruct (Z.eq_dec b 0) as [->|]; [reflexivity|].
    apply Z.log2_lt_pow2; lia. }
  lia.
Qed.

Lemma ROT_range (x n : Z) :
  0 <= x < 2 ^ 32 -> 0 <= n -> 0 <= ROT x n < 2 ^ 32.
Proof.
  intros Hx Hn. unfold ROT. apply lor_range; [|apply u32_range].
  rewrite Z.shiftr_div_pow2 by exact Hn.
  assert (0 < 2 ^ n) by (apply Z.pow_pos_nonneg; lia).
  split; [apply Z.div_pos; lia|].
  apply Z.div_lt_upper_bound; [lia|]. nia.
Qed.

Lemma ELL_range (x : Z) : 0 <= x < 2 ^ 32 -> 0 <= ELL x < 2 ^ 32.
Proof.
  intros Hx. unfold ELL. apply ROT_range; [|lia].
  apply lxor_range; [exact Hx|apply u32_range].
Qed.

Lemma RCON_range (k : nat) : 0 <= RCON !!! k < 2 ^ 32.
Proof.
  do 8 (destruct k as [|k]; [vm_compute; split; [discriminate|reflexivity]|]).
  vm_compute. split; [discriminate|reflexivity].
Qed.

Lemma add_sub_u32 (x v : Z) : 0 <= x < 2 ^ 32 -> u32 (u32 (x + v) - v) = x.
Proof.
  intros Hx. unfold u32. rewrite Zminus_mod_idemp_l.
  replace (x + v - v) with x by lia. now apply Z.mod_small.
Qed.

Lemma sub_add_u32 (x v : Z) : 0 <= x < 2 ^ 32 -> u32 (u32 (x - v) + v) = x.
Proof.
  intros Hx. unfold u32. rewrite Zplus_mod_idemp_l.
  replace (x - v + v) with x by lia. now apply Z.mod_small.
Qed.

Lemma lxor_twice (a b : Z) : Z.lxor (Z.lxor a b) b = a.
Proof. now rewrite Z.lxor_assoc, Z.lxor_nilpotent, Z.lxor_0_r. Qed.

(** The statements on the two words they touch. *)

Lemma run_on_pair_range (rc : Z) (r_ok : 0 <= rc < 2 ^ 32)
    (st : arx_statement) (p : Z * Z) :
  (match st with
   | add_rot r | xor_rot r | sub_rot r => 0 <= r
   | _ => True
   end) ->
  pair32 p -> pair32 (run_on_pair rc st p).
Proof.
  destruct p as [x y]. intros Hr [Hx Hy]. cbn [fst snd] in *.
  destruct st; cbn [run_on_pair]; split; cbn [fst snd];
    auto using u32_range, lxor_range, ROT_range.
Qed.

Lemma undo_run_on_pair (rc : Z) (st : arx_statement) (p : Z * Z) :
  pair32 p -> run_on_pair rc (undo st) (run_on_pair rc st p) = p.
Proof.
  destruct p as [x y]. intros [Hx Hy]. cbn [fst snd] in *.
  destruct st; cbn [run_on_pair undo];
    rewrite ?add_sub_u32, ?sub_add_u32, ?lxor_twice by assumption;
    reflexivity.
Qed.

Lemma undo_program_on_pair (rc : Z) (r_ok : 0 <= rc < 2 ^ 32) :
  forall (program : list arx_statement) (p : Z * Z),
    Forall (fun st => match st with
                      | add_rot r | xor_rot r | sub_rot r => 0 <= r
                      | _ => True
                      end) program ->
    pair32 p ->
    fold_left (fun p st => run_on_pair rc st p) (rev (undo <$> program))
      (fold_left (fun p st => run_on_pair rc st p) program p)
    = p
    /\ pair32 (fold_left (fun p st => run_on_pair rc st p) program p).
Proof.
  induction program as [|st program IH]; intros p Hprog Hp.
  - split; [reflexivity|exact Hp].
  - inversion Hprog as [|? ? Hst Hrest]; subst.
    cbn [fold_left fmap list_fmap rev].
    destruct (IH (run_on_pair rc st p) Hrest
                (run_on_pair_range rc r_ok st p Hst Hp)) as [Hback Hrange].
    split; [|exact Hrange].
    rewrite fold_left_app. cbn [fold_left].
    change (list_fmap arx_statement arx_statement undo program)
      with (undo <$> program).
    rewrite Hback. now apply undo_run_on_pair.
Qed.

(** ... and on the state. *)

Lemma pair_at_own (j : nat) (state : list Z) :
  (j + 1 < length state)%nat ->
  pair_at j (state !!! j, state !!! (j + 1)%nat) state = state.
Proof.
  intros Hj. unfold pair_at. cbn [fst snd].
  rewrite (list_insert_id state j)
    by (apply list_lookup_lookup_total_lt; lia).
  apply list_insert_id. apply list_lookup_lookup_total_lt. lia.
Qed.

Lemma pair_at_fst (j : nat) (p : Z * Z) (state : list Z) :
  (j + 1 < length state)%nat -> pair_at j p state !!! j = fst p.
Proof.
  intros Hj. unfold pair_at.
  rewrite list_lookup_total_insert_ne by lia.
  apply list_lookup_total_insert_eq. lia.
Qed.

Lemma pair_at_snd (j : nat) (p : Z * Z) (state : list Z) :
  (j + 1 < length state)%nat -> pair_at j p state !!! (j + 1)%nat = snd p.
Proof.
  intros Hj. unfold pair_at.
  apply list_lookup_total_insert_eq. rewrite length_insert. lia.
Qed.

Lemma pair_at_set_fst (j : nat) (p : Z * Z) (v : Z) (state : list Z) :
  <[j := v]> (pair_at j p state) = pair_at j (v, snd p) state.
Proof.
  unfold pair_at. cbn [fst snd].
  rewrite list_insert_insert_ne by lia.
  now rewrite list_insert_insert_eq.
Qed.

Lemma pair_at_set_snd (j : nat) (p : Z * Z) (v : Z) (state : list Z) :
  <[(j + 1)%nat := v]> (pair_at j p state) = pair_at j (fst p, v) state.
Proof.
  unfold pair_at. cbn [fst snd]. now rewrite list_insert_insert_eq.
Qed.

Lemma run_statement_pair (j : nat) (rc : Z) (st : arx_statement)
    (p : Z * Z) (state : list Z) :
  (j + 1 < length state)%nat ->
  run_statement j rc st (pair_at j p state)
  = pair_at j (run_on_pair rc st p) state.
Proof.
  intros Hj. destruct p as [x y].
  destruct st; cbn [run_statement run_on_pair];
    unfold add_at, xor_at, sub_at;
    rewrite ?pair_at_fst, ?pair_at_snd by exact Hj;
    cbn [fst snd];
    rewrite ?pair_at_set_fst, ?pair_at_set_snd; reflexivity.
Qed.

Lemma run_statements_pair (j : nat) (rc : Z) :
  forall (program : list arx_statement) (p : Z * Z) (state : list Z),
    (j + 1 < length state)%nat ->
    run_statements j rc program (pair_at j p state)
    = pair_at j (fold_left (fun p st => run_on_pair rc st p) program p) state.
Proof.
  unfold run_statements.
  induction program as [|st program IH]; intros p state Hj; [reflexivity|].
  cbn [fold_left]. rewrite run_statement_pair by exact Hj. now apply IH.
Qed.

Lemma arx_statements_shifts :
  Forall (fun st => match st with
                    | add_rot r | xor_rot r | sub_rot r => 0 <= r
                    | _ => True
                    end) arx_statements.
Proof. unfold arx_statements. repeat constructor; lia. Qed.

Lemma words32_lookup (state : list Z) (k : nat) :
  words32 state -> (k < length state)%nat -> 0 <= state !!! k < 2 ^ 32.
Proof.
  intros Hw Hk. unfold words32 in Hw. rewrite Forall_lookup in Hw.
  apply (Hw k). apply list_lookup_lookup_total_lt. exact Hk.
Qed.

Lemma words32_pair_at (j : nat) (p : Z * Z) (state : list Z) :
  words32 state -> pair32 p -> words32 (pair_at j p state).
Proof.
  intros Hw [Hx Hy]. unfold pair_at, words32.
  apply Forall_insert; [apply Forall_insert|]; assumption.
Qed.

(** One ARXBOX and its inverse. *)
Lemma arxbox_undone (j : nat) (state : list Z) :
  (j + 1 < length state)%nat -> words32 state ->
  arxbox_inverse j (arxbox j state) = state
  /\ words32 (arxbox j state)
  /\ length (arxbox j state) = length state.
Proof.
  intros Hj Hw.
  assert (Hp : pair32 (state !!! j, state !!! (j + 1)%nat))
    by (split; cbn [fst snd]; apply words32_lookup; (assumption || lia)).
  destruct (undo_program_on_pair (RCON !!! (j / 2)%nat) (RCON_range _)
              arx_statements _ arx_statements_shifts Hp) as [Hback Hrange].
  pose proof (run_statements_pair j (RCON !!! (j / 2)%nat) arx_statements
                (state !!! j, state !!! (j + 1)%nat) state Hj) as Hrun.
  rewrite (pair_at_own j state Hj) in Hrun.
  rewrite arxbox_statements. unfold arxbox_inverse.
  rewrite Hrun, run_statements_pair by exact Hj.
  rewrite Hback.
  split; [apply pair_at_own, Hj|].
  split; [now apply words32_pair_at|].
  unfold pair_at. now rewrite !length_insert.
Qed.

(** The layer of ARXBOXes and its inverse. *)
Lemma arx_layer_boxes (state : list Z) :
  arx_layer state
  = arxbox 14 (arxbox 12 (arxbox 10 (arxbox 8
      (arxbox 6 (arxbox 4 (arxbox 2 (arxbox 0 state))))))).
Proof.
  unfold arx_layer.
  cbv [for_range for_from Sparkle512core.N_BRANCHES
       Nat.mul Nat.add Nat.sub Nat.ltb Nat.leb].
  reflexivity.
Qed.

Lemma arxbox_undone_16 (j : nat) (state : list Z) :
  length state = 16%nat -> (j + 1 < 16)%nat -> words32 state ->
  arxbox_inverse j (arxbox j state) = state
  /\ words32 (arxbox j state)
  /\ length (arxbox j state) = 16%nat.
Proof.
  intros Hlen Hj Hw.
  destruct (arxbox_undone j state ltac:(lia) Hw) as (E & W & L).
  rewrite Hlen in L. now repeat split.
Qed.

Lemma arx_layer_undone (state : list Z) :
  length state = 16%nat -> words32 state ->
  arx_layer_inverse (arx_layer state) = state
  /\ words32 (arx_layer state)
  /\ length (arx_layer state) = 16%nat.
Proof.
  intros Hlen Hw. rewrite arx_layer_boxes. unfold arx_layer_inverse.
  cbn [fold_right].
  destruct (arxbox_undone_16 0 _ Hlen ltac:(lia) Hw) as (E0 & W0 & L0).
  destruct (arxbox_undone_16 2 _ L0 ltac:(lia) W0) as (E2 & W2 & L2).
  destruct (arxbox_undone_16 4 _ L2 ltac:(lia) W2) as (E4 & W4 & L4).
  destruct (arxbox_undone_16 6 _ L4 ltac:(lia) W4) as (E6 & W6 & L6).
  destruct (arxbox_undone_16 8 _ L6 ltac:(lia) W6) as (E8 & W8 & L8).
  destruct (arxbox_undone_16 10 _ L8 ltac:(lia) W8) as (E10 & W10 & L10).
  destruct (arxbox_undone_16 12 _ L10 ltac:(lia) W10) as (E12 & W12 & L12).
  destruct (arxbox_undone_16 14 _ L12 ltac:(lia) W12) as (E14 & W14 & L14).
  split; [|split; assumption].
  rewrite E14, E12, E10, E8, E6, E4, E2. exact E0.
Qed.

(** The linear layer and its inverse, on the sixteen words. *)
Lemma sixteen_words (state : list Z) :
  length state = 16%nat ->
  exists a0 a1 a2 a3 a4 a5 a6 a7 a8 a9 a10 a11 a12 a13 a14 a15,
    state = [a0; a1; a2; a3; a4; a5; a6; a7;
             a8; a9; a10; a11; a12; a13; a14; a15].
Proof.
  intros Hlen.
  do 16 (destruct state as [|? state]; [discriminate|]).
  destruct state; [|discriminate].
  repeat eexists.
Qed.

Lemma linear_layer_words (a0 a1 a2 a3 a4 a5 a6 a7
                          a8 a9 a10 a11 a12 a13 a14 a15 : Z) :
  linear_layer [a0; a1; a2; a3; a4; a5; a6; a7;
                a8; a9; a10; a11; a12; a13; a14; a15]
  = let tmpx := ELL (Z.lxor (Z.lxor (Z.lxor a0 a2) a4) a6) in
    let tmpy := ELL (Z.lxor (Z.lxor (Z.lxor a1 a3) a5) a7) in
    [ Z.lxor (Z.lxor a10 a2) tmpy; Z.lxor (Z.lxor a11 a3) tmpx;
      Z.lxor (Z.lxor a12 a4) tmpy; Z.lxor (Z.lxor a13 a5) tmpx;
      Z.lxor (Z.lxor a14 a6) tmpy; Z.lxor (Z.lxor a15 a7) tmpx;
      Z.lxor (Z.lxor a8 a0) tmpy; Z.lxor (Z.lxor a9 a1) tmpx;
      a0; a1; a2; a3; a4; a5; a6; a7 ].
Proof. cbv -[Z.lxor ELL]. reflexivity. Qed.

Lemma lxor_undo (a b c : Z) : Z.lxor (Z.lxor (Z.lxor (Z.lxor a b) c) b) c = a.
Proof.
  apply Z.bits_inj'. intros n _. rewrite !Z.lxor_spec.
  now destruct (Z.testbit a n), (Z.testbit b n), (Z.testbit c n).
Qed.

Lemma linear_layer_undone (state : list Z) :
  length state = 16%nat ->
  linear_layer_inverse (linear_layer state) = state
  /\ (words32 state -> words32 (linear_layer state))
  /\ length (linear_layer state) = 16%nat.
Proof.
  intros Hlen.
  destruct (sixteen_words state Hlen)
    as (a0 & a1 & a2 & a3 & a4 & a5 & a6 & a7
        & a8 & a9 & a10 & a11 & a12 & a13 & a14 & a15 & ->).
  rewrite linear_layer_words. cbv zeta.
  split; [|split; [|reflexivity]].
  - unfold linear_layer_inverse. cbv zeta.
    cbn [lookup_total list_lookup_total].
    now rewrite !lxor_undo.
  - unfold words32. rewrite !Forall_cons. intros Hw.
    assert (Hx : 0 <= ELL (Z.lxor (Z.lxor (Z.lxor a0 a2) a4) a6) < 2 ^ 32)
      by (apply ELL_range; repeat apply lxor_range; tauto).
    assert (Hy : 0 <= ELL (Z.lxor (Z.lxor (Z.lxor a1 a3) a5) a7) < 2 ^ 32)
      by (apply ELL_range; repeat apply lxor_range; tauto).
    repeat split; try apply Forall_nil;
      try (repeat apply lxor_range; tauto); tauto.
Qed.

Lemma add_constants_undone (i : nat) (state : list Z) :
  length state = 16%nat ->
  add_constants i (add_constants i state) = state
  /\ (words32 state -> words32 (add_constants i state))
  /\ length (add_constants i state) = 16%nat.
Proof.
  intros Hlen. unfold add_constants, xor_at.
  destruct (sixteen_words state Hlen)
    as (a0 & a1 & a2 & a3 & a4 & a5 & a6 & a7
        & a8 & a9 & a10 & a11 & a12 & a13 & a14 & a15 & ->).
  generalize (RCON_range (i mod Sparkle512core.N_BRANCHES)).
  generalize (RCON !!! (i mod Sparkle512core.N_BRANCHES)%nat) as rc.
  generalize (u32_range (Z.of_nat i)).
  generalize (u32 (Z.of_nat i)) as round_number.
  intros round_number Hround rc Hrc.
  cbn [lookup_total list_lookup_total insert list_insert].
  rewrite !lxor_twice.
  split; [reflexivity|split; [|reflexivity]].
  unfold words32. rewrite !Forall_cons. intros Hw.
  repeat split; try apply Forall_nil;
    try (apply lxor_range; tauto); tauto.
Qed.

(** A round, and the rounds. *)
Lemma round_undone (i : nat) (state : list Z) :
  length state = 16%nat -> words32 state ->
  round_inverse i (Sparkle512core.round i state) = state
  /\ words32 (Sparkle512core.round i state)
  /\ length (Sparkle512core.round i state) = 16%nat.
Proof.
  intros Hlen Hw. rewrite round_in_layers. unfold round_inverse.
  destruct (add_constants_undone i state Hlen) as (Ec & Wc & Lc).
  destruct (arx_layer_undone _ Lc (Wc Hw)) as (Ea & Wa & La).
  destruct (linear_layer_undone _ La) as (El & Wl & Ll).
  rewrite El, Ea, Ec. auto.
Qed.

Lemma for_from_last {S : Type} (body : nat -> S -> S) :
  forall (count j : nat) (s : S),
    for_from (Datatypes.S count) j (j + Datatypes.S count) 1 body s
    = body (j + count)%nat (for_from count j (j + count) 1 body s).
Proof.
  induction count as [|count IH]; intros j s.
  - cbn [for_from]. rewrite Nat.add_0_r.
    now rewrite (proj2 (Nat.ltb_lt j (j + 1)) ltac:(lia)).
  - remember (Datatypes.S count) as c eqn:Hc.
    cbn [for_from].
    rewrite (proj2 (Nat.ltb_lt j (j + Datatypes.S c)) ltac:(lia)).
    replace (j + Datatypes.S c)%nat with (j + 1 + c)%nat by lia.
    subst c. rewrite IH.
    replace (j + 1 + count)%nat with (j + Datatypes.S count)%nat by lia.
    cbn [for_from].
    now rewrite (proj2 (Nat.ltb_lt j (j + Datatypes.S count)) ltac:(lia)).
Qed.

Lemma for_range_last {S : Type} (body : nat -> S -> S) (n : nat) (s : S) :
  for_range 0 (Datatypes.S n) 1 body s = body n (for_range 0 n 1 body s).
Proof.
  unfold for_range. rewrite !Nat.sub_0_r. exact (for_from_last body n 0 s).
Qed.

Lemma for_down_S {S : Type} (body : nat -> S -> S) (n : nat) (s : S) :
  for_down (Datatypes.S n) body s = for_down n body (body n s).
Proof. reflexivity. Qed.

Lemma rounds_undone (steps : nat) (state : list Z) :
  length state = 16%nat -> words32 state ->
  rounds_inverse steps (for_range 0 steps 1 Sparkle512core.round state) = state
  /\ words32 (for_range 0 steps 1 Sparkle512core.round state)
  /\ length (for_range 0 steps 1 Sparkle512core.round state) = 16%nat.
Proof.
  intros Hlen Hw. unfold rounds_inverse.
  induction steps as [|steps IH].
  - unfold for_range. cbn [Nat.sub for_from for_down]. auto.
  - destruct IH as (E & W & L).
    rewrite for_range_last.
    destruct (round_undone steps _ L W) as (Er & Wr & Lr).
    split; [|split; assumption].
    rewrite for_down_S, Er. exact E.
Qed.

(** X10.  [_permute] is a permutation of the 512-bit states: on sixteen 32-bit
    words the rounds can be run backwards ([rounds_inverse] undoes the linear
    layer, the ARXBOXes and the constants of each round, last round first),
    the result is again sixteen 32-bit words, and so two generators with the
    same step count that leave [_permute] with the same state entered it with
    the same state; the tank and the cursor are not touched. *)
Theorem permute_invertible (g : Sparkle512core.t) :
  length (Sparkle512core.state g) = 16%nat ->
  words32 (Sparkle512core.state g) ->
  let g' := Sparkle512core._permute g in
  rounds_inverse (Z.to_nat (Sparkle512core.steps g)) (Sparkle512core.state g')
  = Sparkle512core.state g
  /\ length (Sparkle512core.state g') = 16%nat
  /\ words32 (Sparkle512core.state g')
  /\ Sparkle512core.entropy_tank g' = Sparkle512core.entropy_tank g
  /\ Sparkle512core.entropy_cursor g' = Sparkle512core.entropy_cursor g
  /\ forall h : Sparkle512core.t,
       length (Sparkle512core.state h) = 16%nat ->
       words32 (Sparkle512core.state h) ->
       Sparkle512core.steps h = Sparkle512core.steps g ->
       Sparkle512core.state (Sparkle512core._permute h)
       = Sparkle512core.state g' ->
       Sparkle512core.state h = Sparkle512core.state g.
Proof.
  intros Hlen Hw g'. subst g'.
  unfold Sparkle512core._permute, Sparkle512core.rounds.
  cbn [Sparkle512core.state Sparkle512core.entropy_tank
       Sparkle512core.entropy_cursor Sparkle512core.steps].
  destruct (rounds_undone (Z.to_nat (Sparkle512core.steps g)) _ Hlen Hw)
    as (E & W & L).
  repeat (split; [assumption || reflexivity|]).
  intros h Hlen' Hw' Hsteps Hsame.
  destruct (rounds_undone (Z.to_nat (Sparkle512core.steps g)) _ Hlen' Hw')
    as (E' & _ & _).
  rewrite Hsteps in Hsame.
  etransitivity; [symmetry; exact E'|]. rewrite Hsame. exact E.
Qed.

Lemma permute_invertible_witness :
  rounds_inverse 8
    (Sparkle512core.state (Sparkle512core._permute example_seeded))
  = Sparkle512core.state example_seeded.
Proof.
  apply (permute_invertible example_seeded).
  - reflexivity.
  - unfold words32. apply Forall_forall. intros w Hin.
    cbn in Hin. rewrite !elem_of_cons in Hin.
    repeat (destruct Hin as [->|Hin]; [lia|]).
    now apply elem_of_nil in Hin.
Defined.

(** ** Seeds that collide *)

Lemma rounds_injective (steps : Z) (state state' : list Z) :
  length state = 16%nat -> words32 state ->
  length state' = 16%nat -> words32 state' ->
  Sparkle512core.rounds steps state = Sparkle512core.rounds steps state' ->
  state = state'.
Proof.
  unfold Sparkle512core.rounds. intros Hlen Hw Hlen' Hw' Hsame.
  destruct (rounds_undone (Z.to_nat steps) state Hlen Hw) as (E & _ & _).
  destruct (rounds_undone (Z.to_nat steps) state' Hlen' Hw') as (E' & _ & _).
  rewrite <- E, <- E'. now rewrite Hsame.
Qed.

Lemma words32_rounds (steps : Z) (state : list Z) :
  length state = 16%nat -> words32 state ->
  words32 (Sparkle512core.rounds steps state).
Proof.
  intros Hlen Hw. unfold Sparkle512core.rounds.
  now destruct (rounds_undone (Z.to_nat steps) state Hlen Hw) as (_ & W & _).
Qed.

Lemma xor_at_twice (k : nat) (v : Z) (state : list Z) :
  (k < length state)%nat -> xor_at k v (xor_at k v state) = state.
Proof.
  intros Hk. unfold xor_at.
  rewrite list_lookup_total_insert_eq by exact Hk.
  rewrite list_insert_insert_eq, lxor_twice.
  apply list_insert_id, list_lookup_lookup_total_lt, Hk.
Qed.

Lemma xor_at_injective (k : nat) (v : Z) (state state' : list Z) :
  (k < length state)%nat -> (k < length state')%nat ->
  xor_at k v state = xor_at k v state' -> state = state'.
Proof.
  intros Hk Hk' Hsame.
  rewrite <- (xor_at_twice k v state Hk), <- (xor_at_twice k v state' Hk').
  now rewrite Hsame.
Qed.

Lemma words32_xor_at (k : nat) (v : Z) (state : list Z) :
  (k < length state)%nat -> 0 <= v < 2 ^ 32 -> words32 state ->
  words32 (xor_at k v state).
Proof.
  intros Hk Hv Hw. unfold xor_at, words32.
  apply Forall_insert; [exact Hw|].
  apply lxor_range; [now apply words32_lookup|exact Hv].
Qed.

Lemma little_endian_word (b0 b1 b2 b3 : byte) :
  0 <= little_endian [b0; b1; b2; b3] < 2 ^ 32.
Proof.
  pose proof (byte_bounds b0). pose proof (byte_bounds b1).
  pose proof (byte_bounds b2). pose proof (byte_bounds b3).
  cbn [little_endian]. lia.
Qed.

Lemma words32_words_of :
  forall (c : nat) (data : list byte),
    length data = (4 * c)%nat ->
    words32 (words_of data) /\ length (words_of data) = c.
Proof.
  induction c as [|c IH]; intros data Hlen.
  - destruct data; [|discriminate]. split; [constructor|reflexivity].
  - destruct data as [|b0 [|b1 [|b2 [|b3 data]]]]; try (simpl in Hlen; lia).
    destruct (IH data) as (W & L); [simpl in Hlen; lia|].
    cbn [words_of]. split; [|now rewrite length_cons, L].
    constructor; [apply little_endian_word|exact W].
Qed.

Lemma byte_of_value (a b : byte) :
  Z.of_N (Byte.to_N a) = Z.of_N (Byte.to_N b) -> a = b.
Proof.
  intros H. apply N2Z.inj in H.
  pose proof (Byte.of_to_N a) as Ha. rewrite H, Byte.of_to_N in Ha.
  congruence.
Qed.

Lemma words_of_injective :
  forall (c : nat) (data data' : list byte),
    length data = (4 * c)%nat -> length data' = (4 * c)%nat ->
    words_of data = words_of data' -> data = data'.
Proof.
  induction c as [|c IH]; intros data data' Hlen Hlen' Hsame.
  - destruct data, data'; try discriminate. reflexivity.
  - destruct data as [|a0 [|a1 [|a2 [|a3 data]]]]; try (simpl in Hlen; lia).
    destruct data' as [|b0 [|b1 [|b2 [|b3 data']]]];
      try (simpl in Hlen'; lia).
    cbn [words_of] in Hsame. injection Hsame as Hword Hrest.
    rewrite (IH data data') by (simpl in Hlen, Hlen'; lia || exact Hrest).
    pose proof (byte_bounds a0). pose proof (byte_bounds a1).
    pose proof (byte_bounds a2). pose proof (byte_bounds a3).
    pose proof (byte_bounds b0). pose proof (byte_bounds b1).
    pose proof (byte_bounds b2). pose proof (byte_bounds b3).
    cbn [little_endian] in Hword.
    rewrite (byte_of_value a0 b0), (byte_of_value a1 b1),
      (byte_of_value a2 b2), (byte_of_value a3 b3) by lia.
    reflexivity.
Qed.

Lemma xor_words_below :
  forall (words : list Z) (k j : nat) (state : list Z),
    (j < k)%nat -> xor_words words k state !!! j = state !!! j.
Proof.
  induction words as [|w words IH]; intros k j state Hj; [reflexivity|].
  cbn [xor_words]. rewrite IH by lia. unfold xor_at.
  apply list_lookup_total_insert_ne. lia.
Qed.

Lemma words32_xor_words :
  forall (words : list Z) (k : nat) (state : list Z),
    (k + length words <= length state)%nat ->
    words32 words -> words32 state -> words32 (xor_words words k state).
Proof.
  induction words as [|w words IH]; intros k state Hk Hws Hw; [exact Hw|].
  cbn [xor_words]. inversion Hws as [|? ? Hword Hrest]; subst.
  rewrite length_cons in Hk.
  apply IH; [unfold xor_at; rewrite length_insert; lia|exact Hrest|].
  apply words32_xor_at; [lia|exact Hword|exact Hw].
Qed.

Lemma xor_words_injective :
  forall (words words' : list Z) (k : nat) (state : list Z),
    length words = length words' ->
    (k + length words <= length state)%nat ->
    xor_words words k state = xor_words words' k state ->
    words = words'.
Proof.
  induction words as [|w words IH]; intros words' k state Hlen Hk Hsame.
  - now destruct words'.
  - destruct words' as [|w' words']; [discriminate|].
    rewrite length_cons in Hk. cbn [xor_words] in Hsame.
    assert (Hw : w = w').
    { pose proof (f_equal (fun s => s !!! k) Hsame) as Hat.
      cbn beta in Hat. rewrite !xor_words_below in Hat by lia.
      unfold xor_at in Hat.
      rewrite !list_lookup_total_insert_eq in Hat by lia.
      rewrite <- (lxor_twice w (state !!! k)), <- (lxor_twice w' (state !!! k)).
      rewrite (Z.lxor_comm w), (Z.lxor_comm w'). now rewrite Hat. }
    subst w'. f_equal.
    apply (IH words' (Datatypes.S k) (xor_at k w state));
      [simpl in Hlen; lia|unfold xor_at; rewrite length_insert; lia
      |exact Hsame].
Qed.

(** The state that [absorb] leaves. *)
Lemma core_absorb_state (byte_array : list byte) (c : nat)
    (g : Sparkle512core.t) :
  set_up g = true ->
  length byte_array = (4 * c)%nat -> (c <= 16)%nat ->
  exists g',
    Sparkle512core.absorb byte_array g = Ok tt g'
    /\ Sparkle512core.state g'
       = Sparkle512core.rounds (Sparkle512core.steps g)
           (xor_at 15 2
              (Sparkle512core.rounds (Sparkle512core.steps g)
                 (xor_words (words_of byte_array) 0
                    (xor_at 15 1 (Sparkle512core.state g))))).
Proof.
  intros Hg Hlen Hc.
  apply set_up_spec in Hg as (Hs & (m & Hm & Htank) & Hcur).
  unfold Sparkle512core.absorb.
  change (2 * Sparkle512core.N_BRANCHES - 1)%nat with 15%nat.
  rewrite (absorb_loop_words _ c)
    by (try assumption; unfold xor_at; rewrite length_insert; lia).
  unfold Sparkle512core._permute.
  cbn [Sparkle512core.steps Sparkle512core.state
       Sparkle512core.entropy_tank Sparkle512core.entropy_cursor].
  rewrite (squeeze_squeezed _ m);
    cbn [Sparkle512core.steps Sparkle512core.state
         Sparkle512core.entropy_tank Sparkle512core.entropy_cursor];
    [|exact Htank|].
  - eexists. split; reflexivity.
  - rewrite length_rounds. unfold xor_at at 1. rewrite length_insert.
    rewrite length_rounds, length_xor_words.
    unfold xor_at. rewrite length_insert. lia.
Qed.

(** X11.  On a generator that is set up, two seeds of at most 48 bytes leave
    [absorb] with the same state exactly when they are the same once padded
    with zero bytes: the permutation and the XORs lose nothing, so the only
    seeds that collide are those that differ by trailing zero bytes. *)
Theorem seeds_collide_only_by_padding (x y : list byte) (g : SparkleRG.t) :
  set_up g = true -> words32 (Sparkle512core.state g) ->
  (length x <= 48)%nat -> (length y <= 48)%nat ->
  exists g1 g2,
    SparkleRG.absorb x g = Ok tt g1
    /\ SparkleRG.absorb y g = Ok tt g2
    /\ (Sparkle512core.state g1 = Sparkle512core.state g2
        <-> zero_pad block_width x = zero_pad block_width y).
Proof.
  intros Hg Hw Hx Hy. unfold SparkleRG.absorb.
  change (SparkleRG.padding x) with (zero_pad block_width x).
  change (SparkleRG.padding y) with (zero_pad block_width y).
  pose proof (length_padded x Hx) as Lx.
  pose proof (length_padded y Hy) as Ly.
  destruct (core_absorb_state _ 12 g Hg Lx ltac:(lia)) as (g1 & E1 & S1).
  destruct (core_absorb_state _ 12 g Hg Ly ltac:(lia)) as (g2 & E2 & S2).
  exists g1, g2. split; [exact E1|]. split; [exact E2|].
  split; [|intros Hsame; rewrite Hsame in E1; congruence].
  rewrite S1, S2. intros Hsame.
  apply set_up_spec in Hg as (Hs & _ & _).
  destruct (words32_words_of 12 _ Lx) as (Wx & Nx).
  destruct (words32_words_of 12 _ Ly) as (Wy & Ny).
  assert (H1 : length (xor_at 15 1 (Sparkle512core.state g)) = 16%nat)
    by (unfold xor_at; now rewrite length_insert).
  assert (W1 : words32 (xor_at 15 1 (Sparkle512core.state g)))
    by (apply words32_xor_at; [lia|lia|exact Hw]).
  assert (Hin : forall words,
             length words = 12%nat -> words32 words ->
             length (Sparkle512core.rounds (Sparkle512core.steps g)
                       (xor_words words 0
                          (xor_at 15 1 (Sparkle512core.state g)))) = 16%nat
             /\ words32 (Sparkle512core.rounds (Sparkle512core.steps g)
                           (xor_words words 0
                              (xor_at 15 1 (Sparkle512core.state g))))
             /\ length (xor_words words 0
                          (xor_at 15 1 (Sparkle512core.state g))) = 16%nat
             /\ words32 (xor_words words 0
                           (xor_at 15 1 (Sparkle512core.state g)))).
  { intros words Hn Hws.
    assert (Hl : length (xor_words words 0
                           (xor_at 15 1 (Sparkle512core.state g))) = 16%nat)
      by now rewrite length_xor_words.
    assert (Hww : words32 (xor_words words 0
                             (xor_at 15 1 (Sparkle512core.state g))))
      by (apply words32_xor_words; [lia|exact Hws|exact W1]).
    rewrite length_rounds. repeat split; try assumption.
    now apply words32_rounds. }
  destruct (Hin _ Nx Wx) as (Lrx & Wrx & Lwx & Wwx).
  destruct (Hin _ Ny Wy) as (Lry & Wry & Lwy & Wwy).
  apply rounds_injective in Hsame;
    [|unfold xor_at; now rewrite length_insert
     |apply words32_xor_at; [lia|lia|assumption]
     |unfold xor_at; now rewrite length_insert
     |apply words32_xor_at; [lia|lia|assumption]].
  apply xor_at_injective in Hsame; [|lia|lia].
  apply rounds_injective in Hsame; try assumption.
  apply xor_words_injective in Hsame; [|lia|lia].
  now apply (words_of_injective 12).
Qed.

Lemma seeds_collide_only_by_padding_witness :
  exists g1 g2,
    SparkleRG.absorb [x01; x02] example_seeded = Ok tt g1
    /\ SparkleRG.absorb [x01; x02; x00] example_seeded = Ok tt g2
    /\ (Sparkle512core.state g1 = Sparkle512core.state g2
        <-> zero_pad block_width [x01; x02]
            = zero_pad block_width [x01; x02; x00]).
Proof.
  apply (seeds_collide_only_by_padding [x01; x02] [x01; x02; x00]
           example_seeded).
  - reflexivity.
  - unfold words32. apply Forall_forall. intros w Hin.
    cbn in Hin. rewrite !elem_of_cons in Hin.
    repeat (destruct Hin as [->|Hin]; [lia|]).
    now apply elem_of_nil in Hin.
  - simpl. lia.
  - simpl. lia.
Defined.

(** ** The byte tank of [Sparkle512EDF] *)

Lemma word_byte (w : Z) (j : nat) :
  Z.land (Z.shiftr w (Z.of_nat j * 8)) 255 = byte_at w j.
Proof.
  unfold byte_at. change 255 with (Z.ones 8).
  rewrite Z.land_ones by lia. rewrite Z.shiftr_div_pow2 by lia.
  change 256 with (2 ^ 8). rewrite <- Z.pow_mul_r by lia.
  now rewrite (Z.mul_comm 8).
Qed.

Lemma byte_at_range (w : Z) (j : nat) : 0 <= byte_at w j < 256.
Proof. unfold byte_at. apply Z.mod_pos_bound. reflexivity. Qed.

Lemma fill_tank_bytes (state tank : list Z) :
  length tank = 48%nat ->
  Sparkle512EDF.fill_tank state tank = rate_bytes state.
Proof.
  intros Hlen.
  do 48 (destruct tank as [|? tank]; [discriminate|]).
  destruct tank; [|discriminate]. clear Hlen.
  unfold Sparkle512EDF.fill_tank, rate_bytes.
  cbv -[Z.land Z.shiftr lookup_total Z.mul Z.of_nat byte_at].
  rewrite !word_byte. reflexivity.
Qed.

Lemma rate_bytes_tank (state : list Z) :
  length (rate_bytes state) = 48%nat /\ bytes256 (rate_bytes state).
Proof.
  split; [reflexivity|].
  unfold rate_bytes, bytes256. cbn [flat_map seq app].
  repeat (apply List.Forall_cons; [apply byte_at_range|]).
  apply List.Forall_nil.
Qed.

Lemma edf_update_state_tank (e : Sparkle512EDF.t) :
  length (Sparkle512EDF.entropy_tank e) = 48%nat ->
  Sparkle512EDF.entropy_tank (Sparkle512EDF._update_state e)
  = rate_bytes (Sparkle512EDF.state (Sparkle512EDF._update_state e))
  /\ Sparkle512EDF.entropy_cursor (Sparkle512EDF._update_state e) = 0%nat.
Proof.
  intros Hlen. unfold Sparkle512EDF._update_state.
  cbn [Sparkle512EDF.entropy_tank Sparkle512EDF.state
       Sparkle512EDF.entropy_cursor].
  split; [now apply fill_tank_bytes|reflexivity].
Qed.

Lemma edf_get_byte_some (e : Sparkle512EDF.t) :
  length (Sparkle512EDF.entropy_tank e) = 48%nat ->
  exists b e',
    Sparkle512EDF._get_byte e = Ok b e'
    /\ length (Sparkle512EDF.entropy_tank e') = 48%nat.
Proof.
  intros Hlen. unfold Sparkle512EDF._get_byte, Sparkle512EDF.TANK_SIZE.
  destruct (48 <=? Sparkle512EDF.entropy_cursor e)%nat eqn:Hc.
  - destruct (edf_update_state_tank e Hlen) as (Ht & Hcur).
    destruct (rate_bytes_tank
                (Sparkle512EDF.state (Sparkle512EDF._update_state e)))
      as (Hl & _).
    rewrite <- Ht in Hl. rewrite Hcur.
    destruct (lookup_lt_is_Some_2
                (Sparkle512EDF.entropy_tank (Sparkle512EDF._update_state e))
                0%nat ltac:(lia)) as (b & Hb).
    rewrite Hb. eexists _, _. split; [reflexivity|exact Hl].
  - apply Nat.leb_gt in Hc.
    destruct (lookup_lt_is_Some_2 (Sparkle512EDF.entropy_tank e)
                (Sparkle512EDF.entropy_cursor e) ltac:(lia)) as (b & Hb).
    rewrite Hb. eexists _, _. split; [reflexivity|exact Hlen].
Qed.

Lemma edf_get_bytes_some :
  forall (count : nat) (result : Z) (e : Sparkle512EDF.t),
    length (Sparkle512EDF.entropy_tank e) = 48%nat ->
    exists v e',
      Sparkle512EDF.get_bytes_loop count result e = Ok v e'
      /\ length (Sparkle512EDF.entropy_tank e') = 48%nat.
Proof.
  induction count as [|count IH]; intros result e Hlen.
  - eexists _, _. split; [reflexivity|exact Hlen].
  - cbn [Sparkle512EDF.get_bytes_loop].
    destruct (edf_get_byte_some e Hlen) as (b & e1 & -> & Hl1).
    cbn [bind]. now apply IH.
Qed.

Lemma edf_get_bytes_in_tank :
  forall (count j : nat) (result : Z) (e : Sparkle512EDF.t),
    (Sparkle512EDF.entropy_cursor e + count <= 48)%nat ->
    length (Sparkle512EDF.entropy_tank e) = 48%nat ->
    bytes256 (Sparkle512EDF.entropy_tank e) ->
    0 <= result < 256 ^ Z.of_nat j -> (j + count <= 8)%nat ->
    Sparkle512EDF.get_bytes_loop count result e
    = Ok (fold_left (fun acc b => 256 * acc + b)
            (take count (drop (Sparkle512EDF.entropy_cursor e)
                           (Sparkle512EDF.entropy_tank e)))
            result)
         (Sparkle512EDF.Build (Sparkle512EDF.steps e) (Sparkle512EDF.state e)
            (Sparkle512EDF.entropy_tank e)
            (Sparkle512EDF.entropy_cursor e + count)).
Proof.
  induction count as [|count IH]; intros j result e Hc Hlen Hb Hr Hj.
  - destruct e. cbn. now rewrite Nat.add_0_r.
  - cbn [Sparkle512EDF.get_bytes_loop].
    destruct (lookup_lt_is_Some_2 (Sparkle512EDF.entropy_tank e)
                (Sparkle512EDF.entropy_cursor e) ltac:(lia)) as (b & Hlook).
    assert (Hbyte : 0 <= b < 256).
    { unfold bytes256 in Hb. rewrite Forall_lookup in Hb.
      exact (Hb _ _ Hlook). }
    unfold Sparkle512EDF._get_byte, Sparkle512EDF.TANK_SIZE.
    rewrite (proj2 (Nat.leb_gt 48 (Sparkle512EDF.entropy_cursor e)))
      by lia.
    rewrite Hlook. cbn [bind].
    assert (Hpow : 256 ^ Z.of_nat (Datatypes.S j) = 256 * 256 ^ Z.of_nat j)
      by (rewrite Nat2Z.inj_succ; apply Z.pow_succ_r; lia).
    assert (Hmax : 256 ^ Z.of_nat (Datatypes.S j) <= 2 ^ 64).
    { change 256 with (2 ^ 8). rewrite <- Z.pow_mul_r by lia.
      apply Z.pow_le_mono_r; lia. }
    assert (Hnext : Z.lor (u64 (Z.shiftl result 8)) b = 256 * result + b).
    { rewrite Z.shiftl_mul_pow2 by lia. unfold u64.
      rewrite Z.mod_small by (change (2 ^ 8) with 256; lia).
      rewrite Z.lor_comm, lor_disjoint by (change (2 ^ 8) with 256; lia).
      change (2 ^ 8) with 256. lia. }
    rewrite Hnext.
    rewrite (IH (Datatypes.S j));
      cbn [Sparkle512EDF.entropy_cursor Sparkle512EDF.entropy_tank
           Sparkle512EDF.steps Sparkle512EDF.state];
      [|lia|exact Hlen|exact Hb|lia|lia].
    rewrite (drop_S _ _ _ Hlook). cbn [take fold_left].
    replace (Sparkle512EDF.entropy_cursor e + 1 + count)%nat
      with (Sparkle512EDF.entropy_cursor e + Datatypes.S count)%nat by lia.
    now rewrite Nat.add_1_r.
Qed.

Lemma big_endian_from :
  forall (bytes : list Z) (acc : Z),
    fold_left (fun acc b => 256 * acc + b) bytes acc
    = acc * 256 ^ Z.of_nat (length bytes) + big_endian bytes.
Proof.
  unfold big_endian.
  induction bytes as [|b bytes IH]; intros acc; [cbn; lia|].
  cbn [fold_left]. rewrite IH, (IH (256 * 0 + b)).
  rewrite length_cons, Nat2Z.inj_succ, Z.pow_succ_r by lia. lia.
Qed.

Lemma big_endian_range (bytes : list Z) :
  bytes256 bytes -> 0 <= big_endian bytes < 256 ^ Z.of_nat (length bytes).
Proof.
  unfold bytes256.
  induction bytes as [|b bytes IH] using rev_ind; intros Hb.
  - cbn. lia.
  - apply Forall_app in Hb as (Hb & Hlast).
    inversion Hlast as [|? ? Hbyte _]; subst.
    unfold big_endian. rewrite fold_left_app. cbn [fold_left].
    fold (big_endian bytes).
    rewrite length_app, Nat2Z.inj_add, Z.pow_add_r by lia.
    change (256 ^ Z.of_nat (length [b])) with 256.
    specialize (IH Hb). lia.
Qed.

Lemma edf_mask (n : nat) (v : Z) :
  (n < 64)%nat ->
  Z.land v (u64 (Z.shiftl 1 (Z.of_nat n)) - 1) = v mod 2 ^ Z.of_nat n.
Proof.
  intros Hn. rewrite Z.shiftl_1_l. unfold u64.
  rewrite Z.mod_small
    by (split; [apply Z.pow_nonneg; lia|apply Z.pow_lt_mono_r; lia]).
  rewrite <- Z.land_ones by lia. now rewrite Z.ones_equiv.
Qed.

Lemma edf_get_bits_in_tank (n : nat) (e : Sparkle512EDF.t) :
  length (Sparkle512EDF.entropy_tank e) = 48%nat -> (n < 64)%nat ->
  (Sparkle512EDF.entropy_cursor e + (n / 8 + 1) <= 48)%nat ->
  bytes256 (Sparkle512EDF.entropy_tank e) ->
  Sparkle512EDF.get_n_bit_unsigned_integer n e
  = Ok (big_endian
          (take (n / 8 + 1) (drop (Sparkle512EDF.entropy_cursor e)
                               (Sparkle512EDF.entropy_tank e)))
        mod 2 ^ Z.of_nat n)
       (Sparkle512EDF.Build (Sparkle512EDF.steps e)
          (Sparkle512EDF.state e) (Sparkle512EDF.entropy_tank e)
          (Sparkle512EDF.entropy_cursor e + (n / 8 + 1))).
Proof.
  intros Hlen Hn Hc Hb.
  assert (Hcount : (n / 8 + 1 <= 8)%nat)
    by (pose proof (Nat.div_mod_eq n 8); lia).
  unfold Sparkle512EDF.get_n_bit_unsigned_integer.
  rewrite (proj2 (Nat.leb_gt 64 n)) by lia.
  rewrite (edf_get_bytes_in_tank (n / 8 + 1) 0 0 e)
    by (try assumption; cbn; lia).
  cbn [bind]. now rewrite edf_mask.
Qed.

(** X12.  [Sparkle512EDF::get_n_bit_unsigned_integer] on a 48-byte tank, for
    [n < 64]: it always returns, a value below [2^n]; while the bytes it needs
    are in the tank it takes [n / 8 + 1] of them, reads them most significant
    byte first and keeps the low [n] bits, leaving state and tank as they
    were; so when [n] is a multiple of 8 the first byte taken is thrown away
    whole. *)
Theorem edf_reads_whole_bytes (n : nat) (e : Sparkle512EDF.t) :
  length (Sparkle512EDF.entropy_tank e) = 48%nat -> (n < 64)%nat ->
  (exists v e',
     Sparkle512EDF.get_n_bit_unsigned_integer n e = Ok v e'
     /\ 0 <= v < 2 ^ Z.of_nat n
     /\ length (Sparkle512EDF.entropy_tank e') = 48%nat)
  /\ ((Sparkle512EDF.entropy_cursor e + (n / 8 + 1) <= 48)%nat ->
      bytes256 (Sparkle512EDF.entropy_tank e) ->
      let taken :=
        take (n / 8 + 1) (drop (Sparkle512EDF.entropy_cursor e)
                            (Sparkle512EDF.entropy_tank e)) in
      Sparkle512EDF.get_n_bit_unsigned_integer n e
      = Ok (big_endian taken mod 2 ^ Z.of_nat n)
           (Sparkle512EDF.Build (Sparkle512EDF.steps e)
              (Sparkle512EDF.state e) (Sparkle512EDF.entropy_tank e)
              (Sparkle512EDF.entropy_cursor e + (n / 8 + 1)))
      /\ ((n mod 8 = 0)%nat ->
          big_endian taken mod 2 ^ Z.of_nat n = big_endian (tail taken))).
Proof.
  intros Hlen Hn.
  split.
  - unfold Sparkle512EDF.get_n_bit_unsigned_integer.
    rewrite (proj2 (Nat.leb_gt 64 n)) by lia.
    destruct (edf_get_bytes_some (n / 8 + 1) 0 e Hlen) as (v & e' & -> & Hl).
    cbn [bind]. eexists _, _. split; [reflexivity|]. split; [|exact Hl].
    rewrite edf_mask by exact Hn.
    apply Z.mod_pos_bound. apply Z.pow_pos_nonneg; lia.
  - intros Hc Hb taken. subst taken.
    split; [now apply edf_get_bits_in_tank|].
    intros Hmod.
    assert (Hbytes :
      bytes256 (take (n / 8 + 1) (drop (Sparkle512EDF.entropy_cursor e)
                                    (Sparkle512EDF.entropy_tank e))))
      by (apply Forall_take, Forall_drop, Hb).
    assert (Htaken :
      length (take (n / 8 + 1) (drop (Sparkle512EDF.entropy_cursor e)
                                  (Sparkle512EDF.entropy_tank e)))
      = (n / 8 + 1)%nat)
      by (rewrite length_take, length_drop; lia).
    destruct (take (n / 8 + 1) (drop (Sparkle512EDF.entropy_cursor e)
                                  (Sparkle512EDF.entropy_tank e)))
      as [|b rest]; [cbn in Htaken; lia|].
    rewrite length_cons in Htaken.
    cbn [tail]. unfold big_endian at 1. cbn [fold_left].
    rewrite big_endian_from.
    inversion Hbytes as [|? ? _ Hrest]; subst.
    pose proof (big_endian_range rest Hrest) as Hrange.
    assert (Hpow : 256 ^ Z.of_nat (length rest) = 2 ^ Z.of_nat n).
    { change 256 with (2 ^ 8). rewrite <- Z.pow_mul_r by lia.
      f_equal. pose proof (Nat.div_mod_eq n 8). lia. }
    rewrite Hpow in *.
    rewrite Z.add_comm, Z.mod_add by lia.
    now apply Z.mod_small.
Qed.

Lemma edf_reads_whole_bytes_witness :
  exists v e',
    Sparkle512EDF.get_n_bit_unsigned_integer 8 Sparkle512EDF.new = Ok v e'
    /\ 0 <= v < 2 ^ Z.of_nat 8
    /\ length (Sparkle512EDF.entropy_tank e') = 48%nat.
Proof.
  apply (edf_reads_whole_bytes 8 Sparkle512EDF.new).
  - reflexivity.
  - lia.
Defined.

(** X13.  [PySparkle512EDF.absorb] of at most 48 bytes XORs the zero-padded
    seed into the first twelve state words and runs the rounds once; whatever
    the tank and the cursor were, the tank is then the bytes of those twelve
    words of the new state, least significant byte first, and the cursor is 0.
    The next [n]-bit output ([n < 64]) is therefore the first [n / 8 + 1] of
    these bytes read most significant first, cut to [n] bits. *)
Theorem edf_absorb_then_read (x : list byte) (self : PySparkle512EDF.t)
    (n : nat) :
  length (Sparkle512EDF.state self) = 16%nat ->
  length (Sparkle512EDF.entropy_tank self) = 48%nat ->
  (length x <= 48)%nat -> (n < 64)%nat ->
  let state' :=
    Sparkle512EDF.round_loop (Sparkle512EDF.steps self)
      (xor_words (words_of (zero_pad block_width x)) 0
         (Sparkle512EDF.state self)) in
  let self' :=
    Sparkle512EDF.Build (Sparkle512EDF.steps self) state'
      (rate_bytes state') 0 in
  PySparkle512EDF.absorb x self = Ok tt self'
  /\ PySparkle512EDF.get_n_bit_unsigned_integer (Z.of_nat n) self'
     = Ok (big_endian (take (n / 8 + 1) (rate_bytes state'))
           mod 2 ^ Z.of_nat n)
          (Sparkle512EDF.Build (Sparkle512EDF.steps self) state'
             (rate_bytes state') (n / 8 + 1)).
Proof.
  intros Hstate Htank Hx Hn state' self'.
  split.
  - unfold PySparkle512EDF.absorb, Sparkle512EDF.absorb.
    change (x ++ replicate (48 - length x) x00)
      with (zero_pad block_width x).
    rewrite (absorb_loop_words _ 12) by (try apply length_padded; lia).
    unfold Sparkle512EDF._update_state.
    cbn [Sparkle512EDF.steps Sparkle512EDF.state
         Sparkle512EDF.entropy_tank Sparkle512EDF.entropy_cursor].
    now rewrite fill_tank_bytes.
  - unfold PySparkle512EDF.get_n_bit_unsigned_integer.
    rewrite (proj2 (fits_unsigned_spec 32 (Z.of_nat n)))
      by (split; [lia|]; change (2 ^ 32) with 4294967296; lia).
    rewrite Nat2Z.id.
    destruct (rate_bytes_tank state') as (Hl & Hb).
    rewrite edf_get_bits_in_tank;
      cbn [Sparkle512EDF.steps Sparkle512EDF.state
           Sparkle512EDF.entropy_tank Sparkle512EDF.entropy_cursor self'];
      try assumption.
    + reflexivity.
    + pose proof (Nat.div_mod_eq n 8). lia.
Qed.

Lemma edf_absorb_then_read_witness :
  PySparkle512EDF.absorb [x01; x02] PySparkle512EDF.__init__
  = Ok tt
      (Sparkle512EDF.Build 4
         (Sparkle512EDF.round_loop 4
            (xor_words (words_of (zero_pad block_width [x01; x02])) 0
               (Sparkle512EDF.state PySparkle512EDF.__init__)))
         (rate_bytes
            (Sparkle512EDF.round_loop 4
               (xor_words (words_of (zero_pad block_width [x01; x02])) 0
                  (Sparkle512EDF.state PySparkle512EDF.__init__))))
         0).
Proof.
  apply (edf_absorb_then_read [x01; x02] PySparkle512EDF.__init__ 8).
  - reflexivity.
  - reflexivity.
  - simpl. lia.
  - lia.
Defined.

(** ** The sampler as compiled *)

Section AnyWideShift.

Variable wide : nat -> Z.

(** Where the standard gives the loop a value, the compiled loop has it. *)
Lemma compiled_get_bits_loop :
  forall (count i : nat) (result : Z) (g : Sparkle512core.t) v g',
    Sparkle512core.get_bits_loop count i result g = Ok v g' ->
    Compiled.get_bits_loop wide count i result g = Ok v g'.
Proof.
  induction count as [|count IH]; intros i result g v g' H;
    cbn [Sparkle512core.get_bits_loop Compiled.get_bits_loop] in *;
    [exact H|].
  destruct (Sparkle512core.refill g) as [[] g1| | |]; try discriminate.
  cbn [bind] in *.
  destruct (Sparkle512core.entropy_tank g1 !! Sparkle512core.entropy_cursor g1)
    as [[|]|]; try discriminate.
  - unfold Compiled.one_shl.
    destruct (int_one_shl i) as [w|]; [|discriminate]. now apply IH.
  - now apply IH.
Qed.

Lemma compiled_rejection_loop :
  forall (fuel : nat) (b range : Z) (g : Sparkle512core.t) v g',
    Sparkle512core.rejection_loop fuel b range g = Ok v g' ->
    Compiled.rejection_loop wide fuel b range g = Ok v g'.
Proof.
  induction fuel as [|fuel IH]; intros b range g v g' H; [discriminate|].
  cbn [Sparkle512core.rejection_loop Compiled.rejection_loop] in *.
  destruct (Sparkle512core.get_n_bit_unsigned_integer (Z.to_nat b) g)
    as [output g1| | |] eqn:Hdraw; try discriminate.
  unfold Compiled.get_n_bit_unsigned_integer.
  rewrite (compiled_get_bits_loop _ _ _ _ _ _ Hdraw).
  cbn [bind] in *. destruct (range <=? output); [now apply IH|exact H].
Qed.

Lemma compiled_call (fuel : nat) (lower upper : Z) (g : SparkleRG.t) v g' :
  SparkleRG.__call__ fuel lower upper g = Ok v g' ->
  Compiled.__call__ wide fuel lower upper g = Ok v g'.
Proof.
  unfold SparkleRG.__call__, Compiled.__call__.
  destruct (upper <=? lower); [discriminate|].
  destruct (fits_unsigned 64 lower && fits_unsigned 64 upper);
    [|discriminate].
  unfold Sparkle512core.get_unsigned_integer_in_range,
    Compiled.get_unsigned_integer_in_range.
  destruct (Sparkle512core.bit_length_of lower upper) as [b|]; [|discriminate].
  destruct (Sparkle512core.rejection_loop fuel b (u64 (upper - lower)) g)
    as [output g1| | |] eqn:Hloop; try discriminate.
  now rewrite (compiled_rejection_loop _ _ _ _ _ _ Hloop).
Qed.

Lemma compiled_get_bits_nonneg :
  forall (count i : nat) (result : Z) (g : Sparkle512core.t) v g',
    0 <= result ->
    Compiled.get_bits_loop wide count i result g = Ok v g' ->
    0 <= v.
Proof.
  induction count as [|count IH]; intros i result g v g' Hr H;
    cbn [Compiled.get_bits_loop] in H.
  - now inversion H; subst.
  - destruct (Sparkle512core.refill g) as [[] g1| | |];
      cbn [bind] in H; try discriminate.
    destruct (Sparkle512core.entropy_tank g1 !! Sparkle512core.entropy_cursor g1)
      as [[|]|]; try discriminate.
    + eapply IH; [|exact H].
      apply Z.lor_nonneg. split; [exact Hr|].
      unfold u64. apply Z.mod_pos_bound. reflexivity.
    + eapply IH; eassumption.
Qed.

(** The compiled loop returns whenever the units can be consumed. *)
Lemma compiled_get_bits_consume :
  forall (count i : nat) (result : Z) (g : Sparkle512core.t) bits g',
    consume count g = Ok bits g' ->
    exists v, Compiled.get_bits_loop wide count i result g = Ok v g'.
Proof.
  induction count as [|count IH]; intros i result g bits g' H;
    cbn [consume Compiled.get_bits_loop] in *.
  - inversion H; subst. eauto.
  - destruct (Sparkle512core.refill g) as [[] g1| | |]; try discriminate.
    cbn [bind] in *.
    destruct (Sparkle512core.entropy_tank g1 !! Sparkle512core.entropy_cursor g1)
      as [unit_bit|]; [|discriminate].
    destruct (consume count (Sparkle512core.advance g1))
      as [bits' g2| | |] eqn:Hrest; try discriminate.
    cbn [bind] in H. inversion H; subst.
    destruct unit_bit; eapply IH; exact Hrest.
Qed.

Lemma compiled_get_bits_returns (n : nat) (g : Sparkle512core.t) :
  set_up g = true ->
  exists v,
    Compiled.get_n_bit_unsigned_integer wide n g = Ok v (after_units g n)
    /\ 0 <= v
    /\ set_up (after_units g n) = true.
Proof.
  intros Hg.
  destruct (consume_after_units n g Hg) as (bits & Hbits & Hafter).
  destruct (compiled_get_bits_consume n 0 0 g _ _ Hbits) as (v & Hv).
  exists v. split; [exact Hv|]. split; [|exact Hafter].
  eapply compiled_get_bits_nonneg; [|exact Hv]. lia.
Qed.

(** What a returning rejection loop has drawn. *)
Lemma compiled_loop_draws :
  forall (fuel : nat) (b range : Z) (g : Sparkle512core.t) v g',
    Compiled.rejection_loop wide fuel b range g = Ok v g' ->
    exists rejected,
      (length rejected < fuel)%nat
      /\ Compiled.draws wide (S (length rejected)) (Z.to_nat b) g
         = Ok (rejected ++ [v]) g'
      /\ Forall (fun d => range <= d) rejected
      /\ 0 <= v < range.
Proof.
  induction fuel as [|fuel IH]; intros b range g v g' H; [discriminate|].
  cbn [Compiled.rejection_loop] in H.
  destruct (Compiled.get_n_bit_unsigned_integer wide (Z.to_nat b) g)
    as [output g1| | |] eqn:Hdraw; try discriminate.
  cbn [bind] in H.
  destruct (Z.leb_spec range output) as [Hge|Hlt].
  - destruct (IH _ _ _ _ _ H) as (rejected & Hlen & Hd & Hall & Hv).
    exists (output :: rejected).
    split; [simpl; lia|]. split; [|split; [constructor; assumption|exact Hv]].
    change (length (output :: rejected)) with (S (length rejected)).
    cbn [Compiled.draws]. rewrite Hdraw. cbn [bind].
    cbn [Compiled.draws] in Hd. rewrite Hd. reflexivity.
  - inversion H; subst. exists [].
    split; [simpl; lia|]. split; [|split; [constructor|]].
    + cbn [Compiled.draws length app]. rewrite Hdraw. reflexivity.
    + split; [|exact Hlt].
      eapply compiled_get_bits_nonneg; [|exact Hdraw]. lia.
Qed.

(** With its first acceptable draw in sight the loop returns it. *)
Lemma compiled_draws_loop :
  forall (rejected : list Z) (fuel : nat) (b range : Z)
         (g : Sparkle512core.t) v g',
    Compiled.draws wide (S (length rejected)) (Z.to_nat b) g
    = Ok (rejected ++ [v]) g' ->
    Forall (fun d => range <= d) rejected ->
    v < range ->
    (length rejected < fuel)%nat ->
    Compiled.rejection_loop wide fuel b range g = Ok v g'.
Proof.
  induction rejected as [|d rejected IH]; intros fuel b range g v g' Hd Hall Hv Hf;
    (destruct fuel as [|fuel]; [simpl in Hf; lia|]);
    cbn [Compiled.rejection_loop]; cbn [Compiled.draws length] in Hd.
  - destruct (Compiled.get_n_bit_unsigned_integer wide (Z.to_nat b) g)
      as [output g1| | |]; try discriminate.
    cbn [bind] in *. inversion Hd; subst.
    rewrite (proj2 (Z.leb_gt _ _)) by lia. reflexivity.
  - destruct (Compiled.get_n_bit_unsigned_integer wide (Z.to_nat b) g)
      as [output g1| | |]; try discriminate.
    cbn [bind] in *.
    destruct (Compiled.get_n_bit_unsigned_integer wide (Z.to_nat b) g1)
      as [output2 g2| | |] eqn:H2; try discriminate.
    cbn [bind] in Hd.
    destruct (Compiled.draws wide (length rejected) (Z.to_nat b) g2)
      as [vs g3| | |] eqn:H3; try discriminate.
    cbn [bind] in Hd. inversion Hd; subst.
    inversion Hall; subst.
    rewrite (proj2 (Z.leb_le _ _)) by assumption.
    apply IH; try assumption; [|simpl in Hf; lia].
    cbn [Compiled.draws]. rewrite H2. cbn [bind]. rewrite H3. cbn [bind].
    congruence.
Qed.

(** When a compiled call returns. *)
Lemma compiled_call_returns_iff (fuel : nat) (lower upper : Z)
    (g : SparkleRG.t) (v : Z) (g' : SparkleRG.t) :
  lower < upper ->
  Compiled.__call__ wide fuel lower upper g = Ok v g' <->
  0 <= lower /\ upper < 2 ^ 64 /\
  exists b rejected draw,
    Sparkle512core.bit_length_of lower upper = Some b
    /\ (length rejected < fuel)%nat
    /\ Compiled.draws wide (S (length rejected)) (Z.to_nat b) g
       = Ok (rejected ++ [draw]) g'
    /\ Forall (fun d => upper - lower <= d) rejected
    /\ 0 <= draw < upper - lower
    /\ v = lower + draw.
Proof.
  intros Hlt.
  unfold Compiled.__call__.
  rewrite (proj2 (Z.leb_gt _ _)) by lia.
  destruct (fits_unsigned 64 lower && fits_unsigned 64 upper) eqn:Hfit.
  - apply andb_true_iff in Hfit. destruct Hfit as [Hl Hu].
    apply fits_unsigned_spec in Hl, Hu.
    assert (Hrange : u64 (upper - lower) = upper - lower)
      by (unfold u64; apply Z.mod_small; lia).
    unfold Compiled.get_unsigned_integer_in_range.
    rewrite Hrange.
    split.
    + intros H.
      destruct (Sparkle512core.bit_length_of lower upper) as [b|];
        [|discriminate].
      destruct (Compiled.rejection_loop wide fuel b (upper - lower) g)
        as [draw g1| | |] eqn:Hloop; try discriminate.
      cbn [bind] in H. inversion H; subst.
      destruct (compiled_loop_draws _ _ _ _ _ _ Hloop)
        as (rejected & Hlen & Hd & Hall & Hv).
      split; [lia|]. split; [lia|].
      exists b, rejected, draw. repeat split; try assumption; try lia.
      unfold u64. apply Z.mod_small. lia.
    + intros (_ & _ & b & rejected & draw & Hb & Hlen & Hd & Hall & Hv & ->).
      rewrite Hb.
      rewrite (compiled_draws_loop rejected fuel b (upper - lower) g draw g')
        by (try assumption; lia).
      cbn [bind]. f_equal. unfold u64. apply Z.mod_small. lia.
  - split; [discriminate|].
    intros (Hl & Hu & _).
    assert (fits_unsigned 64 lower = true) by (apply fits_unsigned_spec; lia).
    assert (fits_unsigned 64 upper = true) by (apply fits_unsigned_spec; lia).
    rewrite andb_false_iff in Hfit. destruct Hfit; congruence.
Qed.

(** On a generator that is set up the loop ends by a value or by its bound. *)
Lemma compiled_loop_ends :
  forall (fuel : nat) (b range : Z) (g : Sparkle512core.t),
    set_up g = true ->
    Compiled.rejection_loop wide fuel b range g = Timeout
    \/ exists v g', Compiled.rejection_loop wide fuel b range g = Ok v g'
                    /\ set_up g' = true.
Proof.
  induction fuel as [|fuel IH]; intros b range g Hg; [now left|].
  cbn [Compiled.rejection_loop].
  destruct (compiled_get_bits_returns (Z.to_nat b) g Hg)
    as (output & Hdraw & _ & Hset).
  rewrite Hdraw. cbn [bind].
  destruct (range <=? output); [now apply IH|].
  right. eauto.
Qed.

(** C4: a call [get_uniform(lower, upper)] with [lower < upper], whatever
    the compiled code makes of the shifts by 32 and more that large ranges
    reach: it returns [v] exactly when both bounds fit 64 bits and [v] is
    [lower + draw], [draw] being the first output of [get_bits(bit_length)]
    below [range = upper - lower], and such a [v] satisfies
    [lower <= v < upper].  What the call returns where every shift has a
    value in C++ it returns here, and on a generator that is set up, with
    bounds that fit, the call has no other end than a value or the bound put
    on its loop. *)
Theorem call_in_range (fuel : nat) (lower upper : Z) (g : SparkleRG.t)
    (v : Z) (g' : SparkleRG.t) :
  lower < upper ->
  (Compiled.__call__ wide fuel lower upper g = Ok v g' <->
   0 <= lower /\ upper < 2 ^ 64 /\
   exists b rejected draw,
     Sparkle512core.bit_length_of lower upper = Some b
     /\ (length rejected < fuel)%nat
     /\ Compiled.draws wide (S (length rejected)) (Z.to_nat b) g
        = Ok (rejected ++ [draw]) g'
     /\ Forall (fun d => upper - lower <= d) rejected
     /\ 0 <= draw < upper - lower
     /\ v = lower + draw)
  /\ (Compiled.__call__ wide fuel lower upper g = Ok v g' -> lower <= v < upper)
  /\ (SparkleRG.__call__ fuel lower upper g = Ok v g' ->
      Compiled.__call__ wide fuel lower upper g = Ok v g')
  /\ (set_up g = true -> 0 <= lower -> upper < 2 ^ 64 ->
      Compiled.__call__ wide fuel lower upper g = Timeout
      \/ exists w g'',
           Compiled.__call__ wide fuel lower upper g = Ok w g''
           /\ lower <= w < upper /\ set_up g'' = true).
Proof.
  intros Hlt.
  pose proof (compiled_call_returns_iff fuel lower upper g v g' Hlt) as Hiff.
  split; [exact Hiff|]. split; [|split; [apply compiled_call|]].
  - intros H. apply Hiff in H.
    destruct H as (_ & _ & b & rejected & draw & _ & _ & _ & _ & Hv & ->). lia.
  - intros Hg Hl Hu.
    assert (Hcall :
      Compiled.__call__ wide fuel lower upper g
      = Compiled.get_unsigned_integer_in_range wide fuel lower upper g).
    { unfold Compiled.__call__.
      rewrite (proj2 (Z.leb_gt _ _)) by lia.
      rewrite (proj2 (fits_unsigned_spec 64 lower)) by lia.
      now rewrite (proj2 (fits_unsigned_spec 64 upper)) by lia. }
    unfold Compiled.get_unsigned_integer_in_range in Hcall.
    rewrite bit_length_of_log2 in Hcall by lia.
    destruct (compiled_loop_ends fuel (Z.log2 (upper - lower) + 1)
                (u64 (upper - lower)) g Hg)
      as [Hout|(w & g'' & Hloop & Hset)];
      rewrite ?Hout, ?Hloop in Hcall; cbn [bind] in Hcall.
    + now left.
    + right. exists (u64 (lower + w)), g''.
      split; [exact Hcall|]. split; [|exact Hset].
      apply (compiled_call_returns_iff fuel lower upper g _ g'' Hlt) in Hcall.
      destruct Hcall as (_ & _ & b & rejected & draw & _ & _ & _ & _ & Hv & Heq).
      lia.
Qed.

End AnyWideShift.

Lemma call_in_range_witness :
  exists g',
    Compiled.__call__ Compiled.masked 10 0 (2 ^ 32) example_seeded
    = Ok 431230327 g'
    /\ 0 <= 431230327 < 2 ^ 32.
Proof.
  assert (Hv : match Compiled.__call__ Compiled.masked 10 0 (2 ^ 32)
                       example_seeded with
               | Ok v _ => Some v
               | _ => None
               end = Some 431230327) by (vm_compute; reflexivity).
  destruct (Compiled.__call__ Compiled.masked 10 0 (2 ^ 32) example_seeded)
    as [v g'| | |] eqn:Hc; try discriminate.
  injection Hv as Hv. exists g'. rewrite <- Hv. split; [reflexivity|].
  apply (proj1 (proj2 (call_in_range Compiled.masked 10 0 (2 ^ 32)
                         example_seeded v g' ltac:(lia)))).
  exact Hc.
Defined.
